(** * cliquet: the PostgreSQL record storage engine

    A shallow embedding of [cliquet/storage/postgresql/__init__.py]:
    the query builder ([_format_conditions], [_format_pagination],
    [_format_sorting]), the connection scope ([connect]), the record
    store operations and the schema migrator, followed by the properties
    proved about them. *)

From Stdlib Require Import ZArith Ascii String DecimalString DecimalZ.
From stdpp Require Import gmap strings list pretty.

Local Open Scope string_scope.
Local Open Scope Z_scope.

(** * Python values

    Record payloads are JSON objects.  The payload values modelled here are
    the JSON scalars; a Python [dict] with string keys is a [gmap]. *)

Inductive json :=
  | JNull
  | JBool (b : bool)
  | JNum (n : Z)
  | JStr (s : string).

#[global] Instance json_eq_dec : EqDecision json.
Proof. solve_decision. Defined.

Abbreviation pydict := (gmap string json).

(** [isinstance(v, six.string_types)] *)
Definition is_string (v : json) : bool :=
  match v with JStr _ => true | _ => false end.

(** Python truth value of an optional value ([None] when absent). *)
Definition truthy (v : option json) : bool :=
  match v with
  | None | Some JNull => false
  | Some (JBool b) => b
  | Some (JNum n) => negb (n =? 0)
  | Some (JStr s) => negb (String.eqb s "")
  end.

(** [v is None], for the result of [dict.get]. *)
Definition is_None (v : option json) : bool :=
  match v with None | Some JNull => true | _ => false end.

Definition dquote : ascii := ascii_of_nat 34.

(** [json.dumps] on a scalar. *)
Definition json_dumps (v : json) : string :=
  match v with
  | JNull => "null"
  | JBool true => "true"
  | JBool false => "false"
  | JNum n => pretty n
  | JStr s => String dquote (s +:+ String dquote "")
  end.

(** [s.lstrip(c)] and [s.strip(c)] for a single character [c]. *)
Fixpoint lstrip (c : ascii) (s : string) : string :=
  match s with
  | String a s' => if Ascii.eqb a c then lstrip c s' else s
  | EmptyString => s
  end.

Definition strip (c : ascii) (s : string) : string :=
  String.rev (lstrip c (String.rev (lstrip c s))).

(** * The abstract query model *)

(** [cliquet.utils.COMPARISON]: the operator of a filter is its token. *)
Definition COMPARISON_EQ : string := "==".
Definition COMPARISON_NOT : string := "!=".

Record Filter := mkFilter {
  field : string;
  value : json;
  operator : string
}.

Record Sort := mkSort {
  sort_field : string;
  direction : Z
}.

Record resource := mkResource {
  name : string;
  id_field : string;
  modified_field : string;
  deleted_field : string;
  (** [resource.mapping.get_option('unique_fields')] *)
  unique_fields : list string;
  (** [resource.id_generator], applied to the number of identifiers drawn *)
  id_generator : nat -> string
}.

(** * QueryBuilder *)

(** ['%s_field_%s' % (prefix, i)] and ['%s_value_%s' % (prefix, i)] *)
Definition field_holder_name (prefix : string) (i : nat) : string :=
  prefix +:+ "_field_" +:+ pretty i.

Definition value_holder_name (prefix : string) (i : nat) : string :=
  prefix +:+ "_value_" +:+ pretty i.

(** [d.setdefault(k, v)]: the value now stored under [k], and the dict. *)
Definition setdefault (d : gmap string string) (k v : string)
  : string * gmap string string :=
  match d !! k with
  | Some x => (x, d)
  | None => (v, <[k := v]> d)
  end.

(** The local variables of the loop of [_format_conditions]. *)
Record conditions_state := mkConditionsState {
  cs_operators : gmap string string;
  cs_conditions : list string;
  cs_holders : pydict
}.

(** One iteration of [for i, filtr in enumerate(filters)]. *)
Definition format_conditions_body (res : resource) (prefix : string)
    (i : nat) (filtr : Filter) (st : conditions_state) : conditions_state :=
  let value0 := value filtr in
  let '(sql_field, value1, holders1) :=
    if String.eqb (field filtr) (id_field res) then
      ("id", value0, cs_holders st)
    else if String.eqb (field filtr) (modified_field res) then
      ("as_epoch(last_modified)", value0, cs_holders st)
    else
      let field_holder := field_holder_name prefix i in
      let holders := <[field_holder := JStr (field filtr)]> (cs_holders st) in
      let sql_field := "coalesce(data->>%(" +:+ field_holder +:+ ")s, '')" in
      let value :=
        if negb (is_string (value filtr))
        then JStr (strip dquote (json_dumps (value filtr)))
        else value0 in
      (sql_field, value, holders) in
  let value_holder := value_holder_name prefix i in
  let holders2 := <[value_holder := value1]> holders1 in
  let '(sql_operator, operators) :=
    setdefault (cs_operators st) (operator filtr) (operator filtr) in
  let cond := sql_field +:+ " " +:+ sql_operator
              +:+ " %(" +:+ value_holder +:+ ")s" in
  mkConditionsState operators (cs_conditions st ++ [cond]) holders2.

Fixpoint format_conditions_loop (res : resource) (prefix : string)
    (i : nat) (filters : list Filter) (st : conditions_state)
  : conditions_state :=
  match filters with
  | [] => st
  | filtr :: rest =>
      format_conditions_loop res prefix (S i) rest
        (format_conditions_body res prefix i filtr st)
  end.

Definition format_conditions_init : conditions_state :=
  mkConditionsState
    (<[COMPARISON_EQ := "="]> (<[COMPARISON_NOT := "<>"]> ∅)) [] ∅.

(** [PostgreSQL._format_conditions]: the SQL text and the bound parameters. *)
Definition _format_conditions (res : resource) (filters : list Filter)
    (prefix : string) : string * pydict :=
  let st := format_conditions_loop res prefix 0 filters format_conditions_init in
  (String.concat " AND " (cs_conditions st), cs_holders st).

(** [d.update] with the entries of [holders]: those of [holders] win. *)
Definition dict_update (d holders : pydict) : pydict := holders ∪ d.

(** The loop of [_format_pagination]. *)
Fixpoint format_pagination_loop (res : resource) (i : nat)
    (pagination_rules : list (list Filter))
    (rules : list string) (placeholders : pydict) : list string * pydict :=
  match pagination_rules with
  | [] => (rules, placeholders)
  | rule :: rest =>
      let prefix := "rules_" +:+ pretty i in
      let '(safe_sql, holders) := _format_conditions res rule prefix in
      format_pagination_loop res (S i) rest
        (rules ++ [safe_sql]) (dict_update placeholders holders)
  end.

(** [PostgreSQL._format_pagination] *)
Definition _format_pagination (res : resource)
    (pagination_rules : list (list Filter)) : string * pydict :=
  let '(rules, placeholders) :=
    format_pagination_loop res 0 pagination_rules [] ∅ in
  (String.concat " OR " (map (fun r => "(" +:+ r +:+ ")") rules),
   placeholders).

(** The loop of [_format_sorting]. *)
Fixpoint format_sorting_loop (res : resource) (i : nat) (sorting : list Sort)
    (sorts : list string) (holders : pydict) : list string * pydict :=
  match sorting with
  | [] => (sorts, holders)
  | sort :: rest =>
      let '(sql_field, holders1) :=
        if String.eqb (sort_field sort) (id_field res) then
          ("id", holders)
        else if String.eqb (sort_field sort) (modified_field res) then
          ("last_modified", holders)
        else
          let field_holder := "sort_field_" +:+ pretty i in
          ("data->>%(" +:+ field_holder +:+ ")s",
           <[field_holder := JStr (sort_field sort)]> holders) in
      let sql_direction := if 0 <? direction sort then "ASC" else "DESC" in
      let sql_sort := sql_field +:+ " " +:+ sql_direction in
      format_sorting_loop res (S i) rest (sorts ++ [sql_sort]) holders1
  end.

(** [PostgreSQL._format_sorting] *)
Definition _format_sorting (res : resource) (sorting : list Sort)
  : string * pydict :=
  let '(sorts, holders) := format_sorting_loop res 0 sorting [] ∅ in
  ("ORDER BY " +:+ String.concat ", " sorts, holders).

(** * The SQL fragments as the database reads them

    The database parses the rendered text; the fragments the renderers can
    produce have these syntax trees, and the text of a tree is given by the
    [print_] functions.  The [_ast] functions give the tree of each
    renderer's output, and lemmas below show that the rendered text is the
    text of that tree. *)

Inductive sql_column :=
  | ColId                                   (* id *)
  | ColAsEpoch                              (* as_epoch(last_modified) *)
  | ColCoalesceData (field_holder : string). (* coalesce(data->>%(h)s, '') *)

Record sql_comparison := mkComparison {
  cmp_column : sql_column;
  cmp_operator : string;
  cmp_value_holder : string
}.

Definition print_column (c : sql_column) : string :=
  match c with
  | ColId => "id"
  | ColAsEpoch => "as_epoch(last_modified)"
  | ColCoalesceData h => "coalesce(data->>%(" +:+ h +:+ ")s, '')"
  end.

Definition print_comparison (c : sql_comparison) : string :=
  print_column (cmp_column c) +:+ " " +:+ cmp_operator c
  +:+ " %(" +:+ cmp_value_holder c +:+ ")s".

Definition print_conjunction (cs : list sql_comparison) : string :=
  String.concat " AND " (map print_comparison cs).

Definition print_disjunction (rules : list (list sql_comparison)) : string :=
  String.concat " OR "
    (map (fun r => "(" +:+ print_conjunction r +:+ ")") rules).

Inductive sql_sort_column :=
  | SortId                            (* id *)
  | SortLastModified                  (* last_modified *)
  | SortData (field_holder : string). (* data->>%(h)s *)

Definition print_sort_column (c : sql_sort_column) : string :=
  match c with
  | SortId => "id"
  | SortLastModified => "last_modified"
  | SortData h => "data->>%(" +:+ h +:+ ")s"
  end.

Definition print_sort (s : sql_sort_column * bool) : string :=
  print_sort_column s.1 +:+ " " +:+ (if s.2 then "ASC" else "DESC").

Definition print_order_by (ss : list (sql_sort_column * bool)) : string :=
  "ORDER BY " +:+ String.concat ", " (map print_sort ss).

(** The operator token the renderer writes for a filter operator. *)
Definition sql_operator_of (op : string) : string :=
  if String.eqb op COMPARISON_EQ then "="
  else if String.eqb op COMPARISON_NOT then "<>"
  else op.

(** The column a filter field resolves to. *)
Definition column_of (res : resource) (prefix : string) (i : nat)
    (fld : string) : sql_column :=
  if String.eqb fld (id_field res) then ColId
  else if String.eqb fld (modified_field res) then ColAsEpoch
  else ColCoalesceData (field_holder_name prefix i).

Definition comparison_ast (res : resource) (prefix : string) (i : nat)
    (filtr : Filter) : sql_comparison :=
  mkComparison (column_of res prefix i (field filtr))
    (sql_operator_of (operator filtr)) (value_holder_name prefix i).

Definition conditions_ast (res : resource) (filters : list Filter)
    (prefix : string) : list sql_comparison :=
  imap (comparison_ast res prefix) filters.

Definition pagination_ast (res : resource)
    (pagination_rules : list (list Filter)) : list (list sql_comparison) :=
  imap (fun i rule => conditions_ast res rule ("rules_" +:+ pretty i))
    pagination_rules.

Definition sorting_ast (res : resource) (sorting : list Sort)
  : list (sql_sort_column * bool) :=
  imap (fun i sort =>
          (if String.eqb (sort_field sort) (id_field res) then SortId
           else if String.eqb (sort_field sort) (modified_field res)
                then SortLastModified
                else SortData ("sort_field_" +:+ pretty i),
           0 <? direction sort)) sorting.

(** ** Evaluation of the fragments *)

(** A row as the fragments see it: the columns [id], [last_modified] and
    [data]. *)
Record row := mkRow {
  row_id : string;
  row_last_modified : Z;
  row_data : pydict
}.

(** The JSON operator [->>]: the value as text, SQL NULL ([None]) for a
    missing key or a JSON null. *)
Definition json_text (v : json) : option string :=
  match v with
  | JNull => None
  | JBool true => Some "true"
  | JBool false => Some "false"
  | JNum n => Some (pretty n)
  | JStr s => Some s
  end.

Definition data_text (data : pydict) (k : string) : option string :=
  data !! k ≫= json_text.

(** Text of a decimal integer literal. *)
Definition parse_int (s : string) : option Z :=
  if String.eqb s "" || String.eqb s "-" then None
  else Z.of_int <$> NilEmpty.int_of_string s.

(** The comparison operators of the target language, on the result of a
    three-way comparison; [None] for a token that is not an operator. *)
Definition operator_holds (op : string) (c : comparison) : option bool :=
  if String.eqb op "=" then Some (match c with Eq => true | _ => false end)
  else if String.eqb op "<>" then Some (match c with Eq => false | _ => true end)
  else if String.eqb op "<" then Some (match c with Lt => true | _ => false end)
  else if String.eqb op ">" then Some (match c with Gt => true | _ => false end)
  else if String.eqb op "<=" then Some (match c with Gt => false | _ => true end)
  else if String.eqb op ">=" then Some (match c with Lt => false | _ => true end)
  else None.

(** The value of a column: the columns of the fragments are texts, but for
    the epoch expression, which is an integer. *)
Inductive sql_value :=
  | SqlText (s : string)
  | SqlBigint (n : Z).

(** [lhs operator literal], for the literal of a bound parameter: [None]
    when the statement is rejected (a token that is no operator, operand
    types without a comparison), [Some false] also for SQL NULL.  A string
    is a literal of either type; text is compared code point by code
    point. *)
Definition compare_to_parameter (op : string) (lhs : sql_value) (v : json)
  : option bool :=
  match lhs, v with
  | _, JNull => const false <$> operator_holds op Eq
  | SqlText a, JStr s => operator_holds op (String.compare a s)
  | SqlBigint a, JNum n => operator_holds op (a ?= n)
  | SqlBigint a, JStr s => n ← parse_int s; operator_holds op (a ?= n)
  | _, _ => None
  end.

(** The result of [column operator %(holder)s] on a row; an unbound
    parameter rejects the statement too. *)
Definition eval_comparison (ph : pydict) (c : sql_comparison) (r : row)
  : option bool :=
  match ph !! cmp_value_holder c with
  | None => None
  | Some v =>
      match cmp_column c with
      | ColId => compare_to_parameter (cmp_operator c) (SqlText (row_id r)) v
      | ColAsEpoch =>
          compare_to_parameter (cmp_operator c)
            (SqlBigint (row_last_modified r)) v
      | ColCoalesceData h =>
          match ph !! h with
          | Some (JStr k) =>
              compare_to_parameter (cmp_operator c)
                (SqlText (default "" (data_text (row_data r) k))) v
          | _ => None
          end
      end
  end.

(** Whether the statement accepts the comparison: this depends on the
    parameters only, not on the row. *)
Definition check_comparison (ph : pydict) (c : sql_comparison) : bool :=
  bool_decide (is_Some (eval_comparison ph c (mkRow "" 0 ∅))).

Definition holds_comparison (ph : pydict) (c : sql_comparison) (r : row) : bool :=
  default false (eval_comparison ph c r).

Definition check_conjunction (ph : pydict) (cs : list sql_comparison) : bool :=
  forallb (check_comparison ph) cs.

Definition holds_conjunction (ph : pydict) (cs : list sql_comparison) (r : row)
  : bool :=
  forallb (fun c => holds_comparison ph c r) cs.

Definition check_disjunction (ph : pydict) (rules : list (list sql_comparison))
  : bool :=
  forallb (check_conjunction ph) rules.

Definition holds_disjunction (ph : pydict) (rules : list (list sql_comparison))
    (r : row) : bool :=
  existsb (fun cs => holds_conjunction ph cs r) rules.

(** Order of two optional texts: SQL NULL sorts after every text. *)
Definition compare_nullable (a b : option string) : comparison :=
  match a, b with
  | None, None => Eq
  | None, Some _ => Gt
  | Some _, None => Lt
  | Some x, Some y => String.compare x y
  end.

Definition compare_sort_column (ph : pydict) (c : sql_sort_column)
    (r1 r2 : row) : comparison :=
  match c with
  | SortId => String.compare (row_id r1) (row_id r2)
  | SortLastModified => row_last_modified r1 ?= row_last_modified r2
  | SortData h =>
      match ph !! h with
      | Some (JStr k) =>
          compare_nullable (data_text (row_data r1) k) (data_text (row_data r2) k)
      | _ => Eq
      end
  end.

Fixpoint compare_rows (ph : pydict) (ss : list (sql_sort_column * bool))
    (r1 r2 : row) : comparison :=
  match ss with
  | [] => Eq
  | (c, asc) :: rest =>
      match compare_sort_column ph c r1 r2 with
      | Eq => compare_rows ph rest r1 r2
      | o => if asc then o else CompOpp o
      end
  end.

Definition check_sort (ph : pydict) (s : sql_sort_column * bool) : bool :=
  match s.1 with
  | SortData h => match ph !! h with Some (JStr _) => true | _ => false end
  | _ => true
  end.

(** [ORDER BY], as a stable insertion sort. *)
Fixpoint insert_sorted {A} (cmp : A -> A -> comparison) (x : A) (l : list A)
  : list A :=
  match l with
  | [] => [x]
  | y :: l' =>
      match cmp y x with
      | Lt => y :: insert_sorted cmp x l'
      | _ => x :: l
      end
  end.

Definition order_by {A} (cmp : A -> A -> comparison) (l : list A) : list A :=
  foldr (insert_sorted cmp) [] l.

(** * The database *)

(** Primary key of both tables: [(id, user_id, resource_name)]. *)
Abbreviation key := (string * string * string)%type.

Definition key_id (k : key) : string := k.1.1.
Definition key_user_id (k : key) : string := k.1.2.
Definition key_resource_name (k : key) : string := k.2.

(** Modelled from the spec: the tables of [schema.sql], which is not among
    the sources.  A records table keyed by [(id, tenant, resource)] with a
    timestamp and a payload, a tombstones table with the same key and a
    timestamp, and a metadata table of name/value pairs that is absent
    until the schema is created; timestamps are epoch integers. *)
Record database := mkDatabase {
  tbl_records : gmap key (Z * pydict);
  tbl_deleted : gmap key Z;
  tbl_metadata : option (list (string * string));
  db_encoding : string;
  db_timezone : string
}.

Definition set_records (f : gmap key (Z * pydict) -> gmap key (Z * pydict))
    (d : database) : database :=
  mkDatabase (f (tbl_records d)) (tbl_deleted d) (tbl_metadata d)
    (db_encoding d) (db_timezone d).

Definition set_deleted (f : gmap key Z -> gmap key Z) (d : database)
  : database :=
  mkDatabase (tbl_records d) (f (tbl_deleted d)) (tbl_metadata d)
    (db_encoding d) (db_timezone d).

(** [WHERE user_id = %(user_id)s AND resource_name = %(resource_name)s] *)
Definition in_collection (user_id rname : string) (k : key) : bool :=
  String.eqb (key_user_id k) user_id && String.eqb (key_resource_name k) rname.

(** Timestamps of the rows of one collection, live records and tombstones. *)
Definition collection_timestamps (d : database) (user_id rname : string)
  : list Z :=
  map (fun kv => kv.2.1)
      (filter (fun kv => in_collection user_id rname kv.1 = true)
              (map_to_list (tbl_records d)))
  ++ map (fun kv => kv.2)
      (filter (fun kv => in_collection user_id rname kv.1 = true)
              (map_to_list (tbl_deleted d))).

(** Modelled from the spec: the collection timestamp is the greatest
    [last_modified] over the records and tombstones of the collection. *)
Definition resource_timestamp (d : database) (user_id rname : string) : Z :=
  foldr Z.max 0 (collection_timestamps d user_id rname).

(** Modelled from the spec: the timestamp the schema's trigger gives a row
    that is written; every write gets a value later than any prior value
    of its collection. *)
Definition bump_timestamp (d : database) (user_id rname : string) : Z :=
  resource_timestamp d user_id rname + 1.

(** Errors of the driver ([psycopg2.Error]); [connection_closed] tells
    whether the fault left [conn.closed] set. *)
Record psycopg_error := mkPsycopgError {
  pgerror : string;
  connection_closed : bool
}.

Definition IntegrityError : psycopg_error :=
  mkPsycopgError "duplicate key value violates unique constraint" false.

Definition ProgrammingError : psycopg_error :=
  mkPsycopgError "statement rejected" false.

(** A statement either fails in the driver or gives the new table contents
    and its result rows. *)
Definition statement (R : Type) : Type :=
  database -> psycopg_error + (database * list R).

(** [INSERT INTO records (id, user_id, resource_name, data) VALUES ...
    RETURNING id, as_epoch(last_modified)] *)
Definition insert_record (record_id user_id rname : string) (data : pydict)
  : statement (string * Z) := fun d =>
  let k := (record_id, user_id, rname) in
  match tbl_records d !! k with
  | Some _ => inl IntegrityError
  | None =>
      let ts := bump_timestamp d user_id rname in
      inr (set_records <[k := (ts, data)]> d, [(record_id, ts)])
  end.

(** [SELECT as_epoch(last_modified) AS last_modified, data FROM records
    WHERE id = ... AND user_id = ... AND resource_name = ...] *)
Definition select_record (record_id user_id rname : string)
  : statement (Z * pydict) := fun d =>
  inr (d, option_list (tbl_records d !! (record_id, user_id, rname))).

(** [SELECT id FROM records WHERE id = ... AND user_id = ... AND
    resource_name = ...] *)
Definition select_id (record_id user_id rname : string)
  : statement string := fun d =>
  inr (d, match tbl_records d !! (record_id, user_id, rname) with
          | Some _ => [record_id]
          | None => []
          end).

(** [UPDATE records SET data = ... WHERE id = ... AND user_id = ... AND
    resource_name = ... RETURNING as_epoch(last_modified)] *)
Definition update_record (record_id user_id rname : string) (data : pydict)
  : statement Z := fun d =>
  let k := (record_id, user_id, rname) in
  match tbl_records d !! k with
  | None => inr (d, [])
  | Some _ =>
      let ts := bump_timestamp d user_id rname in
      inr (set_records <[k := (ts, data)]> d, [ts])
  end.

(** [INSERT INTO deleted (id, user_id, resource_name)] of one row. *)
Definition insert_tombstone (k : key) (d : database)
  : psycopg_error + (database * Z) :=
  match tbl_deleted d !! k with
  | Some _ => inl IntegrityError
  | None =>
      let ts := bump_timestamp d (key_user_id k) (key_resource_name k) in
      inr (set_deleted <[k := ts]> d, ts)
  end.

(** The tombstones of the rows a [DELETE ... RETURNING id] gave, inserted
    one after the other. *)
Fixpoint insert_tombstones (ks : list key) (d : database)
  : psycopg_error + (database * list (string * Z)) :=
  match ks with
  | [] => inr (d, [])
  | k :: rest =>
      match insert_tombstone k d with
      | inl e => inl e
      | inr (d1, ts) =>
          match insert_tombstones rest d1 with
          | inl e => inl e
          | inr (d2, rows) => inr (d2, (key_id k, ts) :: rows)
          end
      end
  end.

(** [WITH deleted_record AS (DELETE FROM records WHERE id = ... AND
    user_id = ... AND resource_name = ... RETURNING id)
    INSERT INTO deleted (id, user_id, resource_name) SELECT ... FROM
    deleted_record RETURNING as_epoch(last_modified)] *)
Definition delete_record (record_id user_id rname : string)
  : statement Z := fun d =>
  let k := (record_id, user_id, rname) in
  let deleted_record :=
    match tbl_records d !! k with Some _ => [k] | None => [] end in
  match insert_tombstones deleted_record d with
  | inl e => inl e
  | inr (d1, rows) =>
      inr (set_records (fun m => foldr delete m deleted_record) d1,
           map snd rows)
  end.

Definition record_row (kv : key * (Z * pydict)) : row :=
  mkRow (key_id kv.1) kv.2.1 kv.2.2.

(** The rows of [records] selected by
    [WHERE user_id = ... AND resource_name = ... AND conditions]. *)
Definition filtered_records (ph : pydict) (user_id rname : string)
    (conditions : list sql_comparison) (d : database)
  : list (key * (Z * pydict)) :=
  filter (fun kv => in_collection user_id rname kv.1 = true
                    ∧ holds_conjunction ph conditions (record_row kv) = true)
         (map_to_list (tbl_records d)).

(** The statement of [delete_all]. *)
Definition delete_records (ph : pydict) (user_id rname : string)
    (conditions : list sql_comparison) : statement (string * Z) := fun d =>
  if negb (check_conjunction ph conditions) then inl ProgrammingError else
  let deleted_records := map fst (filtered_records ph user_id rname conditions d) in
  match insert_tombstones deleted_records d with
  | inl e => inl e
  | inr (d1, rows) =>
      inr (set_records (fun m => foldr delete m deleted_records) d1, rows)
  end.

(** The text parameter bound to a placeholder. *)
Definition param_text (ph : pydict) (k : string) : option string :=
  match ph !! k with Some (JStr s) => Some s | _ => None end.

(** The statement of [delete_all] reads the collection from its bound
    parameters. *)
Definition delete_all_statement (ph : pydict)
    (conditions : list sql_comparison) : statement (string * Z) := fun d =>
  match param_text ph "user_id", param_text ph "resource_name" with
  | Some user_id, Some rname => delete_records ph user_id rname conditions d
  | _, _ => inl ProgrammingError
  end.

(** The clauses of the statement of [get_all] that its [safeholders]
    fill in. *)
Record get_all_clauses := mkClauses {
  conditions_filter : list sql_comparison;
  max_fetch_size_limit : nat;
  (** [deleted_limit]: [LIMIT 0] unless tombstones are included *)
  deleted_limit_0 : bool;
  pagination_where : option (list (list sql_comparison));
  sorting_order : option (list (sql_sort_column * bool));
  pagination_limit : option Z
}.

Definition check_clauses (ph : pydict) (cl : get_all_clauses) : bool :=
  check_conjunction ph (conditions_filter cl)
  && from_option (check_disjunction ph) true (pagination_where cl)
  && from_option (forallb (check_sort ph)) true (sorting_order cl)
  && from_option (fun n => 0 <=? n) true (pagination_limit cl).

(** The statement of [get_all]; [fake_deleted] is the JSON object bound to
    [%(deleted_field)s::JSONB].  Each result row carries [count_total]. *)
Definition select_all (ph : pydict) (fake_deleted : pydict)
    (cl : get_all_clauses) : statement (Z * row) := fun d =>
  match param_text ph "user_id", param_text ph "resource_name" with
  | Some user_id, Some rname =>
      if negb (check_clauses ph cl) then inl ProgrammingError else
      let matching := filtered_records ph user_id rname (conditions_filter cl) d in
      let total_filtered := Z.of_nat (length matching) in
      let collection_filtered :=
        take (max_fetch_size_limit cl) (map record_row matching) in
      let filtered_deleted :=
        (if deleted_limit_0 cl then take 0 else id)
          (filter (fun r => holds_conjunction ph (conditions_filter cl) r = true)
             (map (fun kv => mkRow (key_id kv.1) kv.2 fake_deleted)
                (filter (fun kv => in_collection user_id rname kv.1 = true)
                   (map_to_list (tbl_deleted d))))) in
      let all_records := (filtered_deleted ++ collection_filtered)%list in
      let paginated_records :=
        remove_dups
          (map row_id
             (filter (fun r => from_option (fun w => holds_disjunction ph w r)
                                 true (pagination_where cl) = true)
                all_records)) in
      let joined :=
        p ← paginated_records;
        filter (fun a => row_id a = p) all_records in
      let sorted :=
        match sorting_order cl with
        | Some ss => order_by (compare_rows ph ss) joined
        | None => joined
        end in
      let limited :=
        match pagination_limit cl with
        | Some n => take (Z.to_nat n) sorted
        | None => sorted
        end in
      inr (d, map (fun a => (total_filtered, a)) limited)
  | _, _ => inl ProgrammingError
  end.

(** The statement of [_check_unicity]:
    [SELECT id FROM records WHERE user_id = ... AND resource_name = ...
     AND (conditions_filter) AND condition_record LIMIT 1];
    [condition_record] is [None] for [TRUE]. *)
Definition select_conflict (ph : pydict)
    (conditions : list (list sql_comparison))
    (condition_record : option (list sql_comparison)) : statement string :=
  fun d =>
  match param_text ph "user_id", param_text ph "resource_name" with
  | Some user_id, Some rname =>
      if negb (check_disjunction ph conditions
               && from_option (check_conjunction ph) true condition_record)
      then inl ProgrammingError else
      inr (d,
           take 1
             (map (fun kv => key_id kv.1)
                (filter
                   (fun kv => in_collection user_id rname kv.1 = true
                      ∧ holds_disjunction ph conditions (record_row kv) = true
                      ∧ from_option
                          (fun c => holds_conjunction ph c (record_row kv))
                          true condition_record = true)
                   (map_to_list (tbl_records d)))))
  | _, _ => inl ProgrammingError
  end.

(** The queries of the schema migrator on the catalogue and on
    [metadata]. *)
Definition select_metadata_table : statement string := fun d =>
  inr (d, match tbl_metadata d with Some _ => ["metadata"] | None => [] end).

Definition UndefinedTable : psycopg_error :=
  mkPsycopgError "relation does not exist" false.

(** [SELECT value AS version FROM metadata
    WHERE name = 'storage_schema_version' ORDER BY value DESC] *)
Definition select_schema_version : statement string := fun d =>
  match tbl_metadata d with
  | None => inl UndefinedTable
  | Some rows =>
      inr (d,
           order_by (fun a b => String.compare b a)
             (map snd
                (filter (fun nv => nv.1 = "storage_schema_version") rows)))
  end.

(** [SELECT COUNT( * ) FROM metadata] *)
Definition select_metadata_count : statement Z := fun d =>
  match tbl_metadata d with
  | None => inl UndefinedTable
  | Some rows => inr (d, [Z.of_nat (length rows)])
  end.

Definition select_encoding : statement string := fun d =>
  inr (d, [db_encoding d]).

Definition select_timezone : statement string := fun d =>
  inr (d, [db_timezone d]).

(** * Exceptions, the Python store and the connection scope *)

Inductive exn :=
  | PsycopgError (e : psycopg_error)     (* psycopg2.Error, from the driver *)
  | BackendError (original : psycopg_error)
  | RecordNotFoundError (record_id : string)
  | UnicityError (field : string) (record : pydict)
  | AssertionError (msg : string)
  | ValueError
  | TypeError.

(** References to Python [dict] objects. *)
Definition loc : Type := nat.

Inductive event :=
  | EvGetConn (autocommit : bool)   (* pool.getconn(); conn.autocommit = .. *)
  | EvExecuteFile (filepath : string)
  | EvCommit
  | EvRollback
  | EvPutConn.

(** What the engine works on: the committed contents of the database, the
    store of Python dicts, the identifiers drawn so far, the calls made on
    connections, and the faults the driver is about to raise. *)
Record world := mkWorld {
  db : database;
  heap : gmap loc pydict;
  ids_drawn : nat;
  trace : list event;
  pool_fault : option psycopg_error;    (* [pool.getconn()] raises *)
  commit_fault : option psycopg_error   (* [conn.commit()] raises *)
}.

Definition set_db (d : database) (w : world) : world :=
  mkWorld d (heap w) (ids_drawn w) (trace w) (pool_fault w) (commit_fault w).

Definition set_heap (h : gmap loc pydict) (w : world) : world :=
  mkWorld (db w) h (ids_drawn w) (trace w) (pool_fault w) (commit_fault w).

Definition log (ev : event) (w : world) : world :=
  mkWorld (db w) (heap w) (ids_drawn w) (trace w ++ [ev])
    (pool_fault w) (commit_fault w).

(** Computations that thread a state and may raise. *)
Definition SE (S A : Type) : Type := S -> S * (exn + A).

Definition ret {S A} (a : A) : SE S A := fun s => (s, inr a).

Definition raise {S A} (e : exn) : SE S A := fun s => (s, inl e).

Definition bind {S A B} (m : SE S A) (k : A -> SE S B) : SE S B := fun s =>
  match m s with
  | (s1, inr a) => k a s1
  | (s1, inl e) => (s1, inl e)
  end.

Notation "'do' x <- m ;; k" := (bind m (fun x => k))
  (at level 10, x name, m at level 99, k at level 200,
   format "'[v' 'do'  x  <-  m  ;;  '/' k ']'").

Definition M : Type -> Type := SE world.

(** Inside a connection scope: the world, the contents of the database as
    the open transaction sees them, and the [autocommit] flag. *)
Record session := mkSession {
  outer : world;
  working : database;
  autocommit : bool
}.

Definition Tx : Type -> Type := SE session.

(** A call made inside the scope that does not use its cursor. *)
Definition lift {A} (m : M A) : Tx A := fun s =>
  let '(w, r) := m (outer s) in
  (mkSession w (working s) (autocommit s), r).

(** [cursor.execute(query, placeholders)]: the result rows, or the
    driver's error.  With [autocommit] the statement is committed at
    once. *)
Definition execute {R} (q : statement R) : Tx (list R) := fun s =>
  match q (working s) with
  | inl e => (s, inl (PsycopgError e))
  | inr (d, rows) =>
      (mkSession (if autocommit s then set_db d (outer s) else outer s)
                 d (autocommit s),
       inr rows)
  end.

(** [cursor.fetchone()] followed by a subscript. *)
Definition fetchone {S R} (rows : list R) : SE S R :=
  match rows with
  | [] => raise TypeError
  | r :: _ => ret r
  end.

(** [PostgreSQLClient.connect]: the context manager around [body].  A
    transaction that is neither committed nor rolled back here is
    discarded when the connection goes back to the pool. *)
Definition connect {A} (readonly : bool) (body : Tx A) : M A := fun w =>
  match pool_fault w with
  | Some e =>
      (* conn and cursor are None: nothing to roll back or to put back *)
      (w, inl (BackendError e))
  | None =>
      let w0 := log (EvGetConn readonly) w in
      let '(s1, r) := body (mkSession w0 (db w0) readonly) in
      let w1 := outer s1 in
      let on_error e :=
        if connection_closed e then (w1, inl (BackendError e))
        else (log EvPutConn (log EvRollback w1), inl (BackendError e)) in
      match r with
      | inr a =>
          if readonly then (log EvPutConn w1, inr a)
          else
            match commit_fault w1 with
            | None =>
                (log EvPutConn (log EvCommit (set_db (working s1) w1)), inr a)
            | Some e => on_error e
            end
      | inl (PsycopgError e) => on_error e
      | inl x => (log EvPutConn w1, inl x)
      end
  end.

(** Reading a dict, [d.copy()] and [d[k] = v]. *)
Definition py_read (r : loc) : M pydict := fun w =>
  match heap w !! r with
  | Some d => (w, inr d)
  | None => (w, inl TypeError)
  end.

Definition py_copy (r : loc) : M loc := fun w =>
  match heap w !! r with
  | Some d =>
      let r' := fresh (dom (heap w)) in
      (set_heap (<[r' := d]> (heap w)) w, inr r')
  | None => (w, inl TypeError)
  end.

Definition py_setitem (r : loc) (k : string) (v : json) : M unit := fun w =>
  match heap w !! r with
  | Some d => (set_heap (<[r := <[k := v]> d]> (heap w)) w, inr tt)
  | None => (w, inl TypeError)
  end.

(** [resource.id_generator()] *)
Definition draw_id (res : resource) : M string := fun w =>
  (mkWorld (db w) (heap w) (S (ids_drawn w)) (trace w)
     (pool_fault w) (commit_fault w),
   inr (id_generator res (ids_drawn w))).

(** * RecordStore *)

(** The storage backend and its configuration. *)
Record PostgreSQL := mkPostgreSQL {
  _max_fetch_size : nat
}.

Definition schema_version : Z := 6.

(** [PostgreSQL.get] *)
Definition get (res : resource) (user_id record_id : string) : M pydict :=
  do result <- connect true
    (do rows <- execute (select_record record_id user_id (name res)) ;;
     match rows with
     | [] => raise (RecordNotFoundError record_id)
     | result :: _ => ret result
     end) ;;
  let record := result.2 in
  let record := <[id_field res := JStr record_id]> record in
  let record := <[modified_field res := JNum result.1]> record in
  ret record.

(** The loop of [_check_unicity] over the unique fields: the rendered
    conditions and the bound parameters. *)
Fixpoint unicity_loop (res : resource) (record : pydict)
    (fields : list string) (filters : list string) (placeholders : pydict)
  : list string * pydict :=
  match fields with
  | [] => (filters, placeholders)
  | field :: rest =>
      let value := record !! field in
      match value with
      | None | Some JNull => unicity_loop res record rest filters placeholders
      | Some value =>
          let '(sql, holders) :=
            _format_conditions res [mkFilter field value COMPARISON_EQ] field in
          unicity_loop res record rest (filters ++ [sql])
            (dict_update placeholders holders)
      end
  end.

(** The tree of [' OR '.join(filters)] for the loop above. *)
Definition unicity_ast (res : resource) (record : pydict)
    (fields : list string) : list (list sql_comparison) :=
  omap (fun field =>
          match record !! field with
          | None | Some JNull => None
          | Some value =>
              Some (conditions_ast res [mkFilter field value COMPARISON_EQ] field)
          end) fields.

(** [PostgreSQL._check_unicity], run on the cursor of the caller. *)
Definition _check_unicity (res : resource) (user_id : string) (record : loc)
  : Tx unit :=
  let unique_fields := unique_fields res in
  match unique_fields with
  | [] => ret tt
  | _ =>
  do rec <- lift (py_read record) ;;
  let placeholders : pydict :=
    {[ "user_id" := JStr user_id; "resource_name" := JStr (name res) ]} in
  let '(filters, placeholders) :=
    unicity_loop res rec unique_fields [] placeholders in
  match filters with
  | [] => ret tt
  | _ =>
  let conditions := unicity_ast res rec unique_fields in
  let record_id := rec !! id_field res in
  let '(condition_record, placeholders) :=
    match record_id with
    | Some rid =>
        if truthy record_id then
          let exclusion := [mkFilter (id_field res) rid COMPARISON_NOT] in
          let '(sql, holders) := _format_conditions res exclusion "filters" in
          (Some (conditions_ast res exclusion "filters"),
           dict_update placeholders holders)
        else (None, placeholders)
    | None => (None, placeholders)
    end in
  do rows <- execute (select_conflict placeholders conditions condition_record) ;;
  match rows with
  | [] => ret tt
  | result :: _ =>
      do existing <- lift (get res user_id result) ;;
      raise (UnicityError (List.last unique_fields "") existing)
  end
  end
  end.

(** [PostgreSQL.create] *)
Definition create (res : resource) (user_id : string) (record : loc) : M loc :=
  do record_id <- draw_id res ;;
  do data <- py_read record ;;
  do inserted <- connect false
    (do _ <- _check_unicity res user_id record ;;
     do rows <- execute (insert_record record_id user_id (name res) data) ;;
     fetchone rows) ;;
  do record <- py_copy record ;;
  do _ <- py_setitem record (id_field res) (JStr inserted.1) ;;
  do _ <- py_setitem record (modified_field res) (JNum inserted.2) ;;
  ret record.

(** [PostgreSQL.update] *)
Definition update (res : resource) (user_id record_id : string) (record : loc)
  : M loc :=
  do data <- py_read record ;;
  do result <- connect false
    (do _ <- _check_unicity res user_id record ;;
     do found <- execute (select_id record_id user_id (name res)) ;;
     do rows <-
       (if (0 <? length found)%nat
        then execute (update_record record_id user_id (name res) data)
        else execute
               (fun d =>
                  match insert_record record_id user_id (name res) data d with
                  | inl e => inl e
                  | inr (d1, rows) => inr (d1, map snd rows)
                  end)) ;;
     fetchone rows) ;;
  do record <- py_copy record ;;
  do _ <- py_setitem record (id_field res) (JStr record_id) ;;
  do _ <- py_setitem record (modified_field res) (JNum result) ;;
  ret record.

(** [PostgreSQL.delete] *)
Definition delete (res : resource) (user_id record_id : string) : M pydict :=
  do inserted <- connect false
    (do rows <- execute (delete_record record_id user_id (name res)) ;;
     match rows with
     | [] => raise (RecordNotFoundError record_id)
     | inserted :: _ => ret inserted
     end) ;;
  let record : pydict := ∅ in
  let record := <[modified_field res := JNum inserted]> record in
  let record := <[id_field res := JStr record_id]> record in
  let record := <[deleted_field res := JBool true]> record in
  ret record.

(** [PostgreSQL.delete_all] *)
Definition delete_all (self : PostgreSQL) (res : resource) (user_id : string)
    (filters : list Filter) : M (list pydict) :=
  let placeholders : pydict :=
    {[ "user_id" := JStr user_id; "resource_name" := JStr (name res) ]} in
  let '(conditions, placeholders) :=
    match filters with
    | [] => ([], placeholders)
    | _ =>
        let '(safe_sql, holders) := _format_conditions res filters "filters" in
        (conditions_ast res filters "filters", dict_update placeholders holders)
    end in
  do results <- connect false
    (do rows <- execute (delete_all_statement placeholders conditions) ;;
     ret (take (_max_fetch_size self) rows)) ;;
  ret (map (fun result : string * Z =>
              let record : pydict := ∅ in
              let record := <["deleted" := JBool true]> record in
              let record := <[id_field res := JStr result.1]> record in
              let record := <[modified_field res := JNum result.2]> record in
              record) results).

(** [PostgreSQL.get_all]; an absent argument is the empty list, or [None]
    for [limit]. *)
Definition get_all (self : PostgreSQL) (res : resource) (user_id : string)
    (filters : list Filter) (sorting : list Sort)
    (pagination_rules : list (list Filter)) (limit : option Z)
    (include_deleted : bool) : M (list pydict * Z) :=
  let deleted_field : pydict := {[ deleted_field res := JBool true ]} in
  let placeholders : pydict :=
    {[ "user_id" := JStr user_id; "resource_name" := JStr (name res) ]} in
  let '(conditions, placeholders) :=
    match filters with
    | [] => ([], placeholders)
    | _ =>
        let '(safe_sql, holders) := _format_conditions res filters "filters" in
        (conditions_ast res filters "filters", dict_update placeholders holders)
    end in
  let deleted_limit := negb include_deleted in
  let '(sorting_clause, placeholders) :=
    match sorting with
    | [] => (None, placeholders)
    | _ =>
        let '(sql, holders) := _format_sorting res sorting in
        (Some (sorting_ast res sorting), dict_update placeholders holders)
    end in
  let '(pagination, placeholders) :=
    match pagination_rules with
    | [] => (None, placeholders)
    | _ =>
        let '(sql, holders) := _format_pagination res pagination_rules in
        (Some (pagination_ast res pagination_rules),
         dict_update placeholders holders)
    end in
  let pagination_limit :=
    match limit with
    | Some n => if n =? 0 then None else Some n
    | None => None
    end in
  do results <- connect true
    (do rows <-
       execute (select_all placeholders deleted_field
                  (mkClauses conditions (_max_fetch_size self) deleted_limit
                     pagination sorting_clause pagination_limit)) ;;
     ret (take (_max_fetch_size self) rows)) ;;
  match results with
  | [] => ret ([], 0)
  | first :: _ =>
      let count_total := first.1 in
      ret (map (fun result : Z * row =>
                  let record := row_data result.2 in
                  let record := <[id_field res := JStr (row_id result.2)]> record in
                  let record :=
                    <[modified_field res := JNum (row_last_modified result.2)]>
                      record in
                  record) results,
           count_total)
  end.

(** * SchemaMigrator *)

(** [s.lower()], on ASCII letters. *)
Definition ascii_lower (c : ascii) : ascii :=
  let n := nat_of_ascii c in
  if (65 <=? n)%nat && (n <=? 90)%nat then ascii_of_nat (n + 32) else c.

Fixpoint lower (s : string) : string :=
  match s with
  | EmptyString => EmptyString
  | String c s' => String (ascii_lower c) (lower s')
  end.

(** ['%03d' % n] *)
Definition zfill (width : nat) (s : string) : string :=
  String.concat "" (replicate (width - String.length s) "0") +:+ s.

Definition format_03d (n : Z) : string :=
  if n <? 0 then "-" +:+ zfill 2 (pretty (- n)) else zfill 3 (pretty n).

(** ['%s' % v] for a version number or [None]. *)
Definition str_version (v : option Z) : string :=
  match v with Some n => pretty n | None => "None" end.

(** [PostgreSQL._check_database_timezone]: a timezone other than UTC is
    only warned about. *)
Definition _check_database_timezone : M unit :=
  do _ <- connect false (do rows <- execute select_timezone ;; fetchone rows) ;;
  ret tt.

(** [PostgreSQL._check_database_encoding] *)
Definition _check_database_encoding : M unit :=
  do result <- connect false
    (do rows <- execute select_encoding ;; fetchone rows) ;;
  let encoding := lower result in
  if String.eqb encoding "utf8" then ret tt
  else raise (AssertionError ("Unexpected database encoding " +:+ encoding)).

(** [PostgreSQL._get_installed_version]: [None] when no schema is found. *)
Definition _get_installed_version : M (option Z) :=
  do tables_exist <- connect false
    (do rows <- execute select_metadata_table ;;
     ret (0 <? length rows)%nat) ;;
  if negb tables_exist then ret None
  else
    connect false
      (do rows <- execute select_schema_version ;;
       match rows with
       | version :: _ =>
           match parse_int version with
           | Some v => ret (Some v)
           | None => raise ValueError
           end
       | [] =>
           do count <- (do r <- execute select_metadata_count ;; fetchone r) ;;
           let was_flushed := count =? 0 in
           if was_flushed then ret (Some schema_version)
           else ret (Some 1)
       end).

Section SchemaMigrator.

(** The SQL scripts shipped beside the module ([schema.sql] and the files
    under [migrations/]) are not among the sources: what executing the
    script at a path does to the database is a parameter. *)
Variable sql_file : string -> statement unit.

(** [PostgreSQL._execute_sql_file] *)
Definition _execute_sql_file (filepath : string) : M unit :=
  connect false
    (do _ <- (fun s => (mkSession (log (EvExecuteFile filepath) (outer s))
                          (working s) (autocommit s), inr tt)) ;;
     do _ <- execute (sql_file filepath) ;;
     ret tt).

(** The loop of [initialize_schema] over the migrations. *)
Fixpoint migrate_loop (migrations : list (Z * Z)) : M unit :=
  match migrations with
  | [] => ret tt
  | migration :: rest =>
      let expected := migration.1 in
      do current <- _get_installed_version ;;
      if bool_decide (Some expected = current) then
        let filepath :=
          "migration_" +:+ format_03d migration.1 +:+ "_"
          +:+ format_03d migration.2 +:+ ".sql" in
        do _ <- _execute_sql_file ("migrations/" +:+ filepath) ;;
        migrate_loop rest
      else
        raise (AssertionError
                 ("Expected version " +:+ pretty expected
                  +:+ ". Found version " +:+ str_version current +:+ "."))
  end.

(** [PostgreSQL.initialize_schema] *)
Definition initialize_schema : M unit :=
  do version <- _get_installed_version ;;
  match version with
  | None | Some 0 =>
      do _ <- _check_database_encoding ;;
      do _ <- _check_database_timezone ;;
      _execute_sql_file "schema.sql"
  | Some version =>
      let migrations :=
        map (fun v => (v, v + 1)) (seqZ version (schema_version - version)) in
      migrate_loop migrations
  end.

End SchemaMigrator.

(** * Notions used to state the properties *)

(** The local [operators] dict of [_format_conditions] translates every
    token it knows as [sql_operator_of] does. *)
Definition operators_ok (ops : gmap string string) : Prop :=
  ops !! COMPARISON_EQ = Some "=" /\ ops !! COMPARISON_NOT = Some "<>"
  /\ forall k v, ops !! k = Some v -> v = sql_operator_of k.

(** A payload field is neither the identity nor the modification field. *)
Definition is_payload_field (res : resource) (fld : string) : bool :=
  negb (String.eqb fld (id_field res) || String.eqb fld (modified_field res)).

(** The value bound for the comparison of a filter: the text of a
    non-string value on a payload field, the value itself otherwise. *)
Definition bound_value (res : resource) (filtr : Filter) : json :=
  if is_payload_field res (field filtr) && negb (is_string (value filtr))
  then JStr (strip dquote (json_dumps (value filtr)))
  else value filtr.

(** What of a field name reaches the SQL text: whether it is the identity
    field, the modification field, or some payload field. *)
Inductive field_kind := KId | KModified | KPayload.

Definition kind_of (res : resource) (fld : string) : field_kind :=
  if String.eqb fld (id_field res) then KId
  else if String.eqb fld (modified_field res) then KModified
  else KPayload.

Definition filter_shape (res : resource) (filtr : Filter) : field_kind * string :=
  (kind_of res (field filtr), operator filtr).

Definition sort_shape (res : resource) (sort : Sort) : field_kind * bool :=
  (kind_of res (sort_field sort), 0 <? direction sort).

Arguments _format_conditions : simpl never.
Arguments conditions_ast : simpl never.
Arguments unicity_ast : simpl never.

(** Whether a character occurs in a string. *)
Fixpoint has_char (c : ascii) (s : string) : bool :=
  match s with
  | EmptyString => false
  | String a s' => Ascii.eqb a c || has_char c s'
  end.

(** A computation that never lets an error of the driver through. *)
Definition no_driver_error {S A} (m : SE S A) : Prop :=
  forall s e, (m s).2 <> inl (PsycopgError e).

(** The verdict of the uniqueness check on a candidate payload, against
    the contents [d] of the database: the statement [_check_unicity]
    builds, run on [d]. *)
Inductive unicity_verdict :=
  | Pass
  | Rejected (e : psycopg_error)
  | Conflict (record_id : string).

Definition unicity_placeholders (res : resource) (user_id : string)
    (payload : pydict) : pydict :=
  let ph := (unicity_loop res payload (unique_fields res) []
               {[ "user_id" := JStr user_id;
                  "resource_name" := JStr (name res) ]}).2 in
  match payload !! id_field res with
  | Some rid =>
      if truthy (Some rid)
      then dict_update ph
             (_format_conditions res
                [mkFilter (id_field res) rid COMPARISON_NOT] "filters").2
      else ph
  | None => ph
  end.

Definition unicity_exclusion (res : resource) (payload : pydict)
  : option (list sql_comparison) :=
  match payload !! id_field res with
  | Some rid =>
      if truthy (Some rid)
      then Some (conditions_ast res
                   [mkFilter (id_field res) rid COMPARISON_NOT] "filters")
      else None
  | None => None
  end.

Definition unicity_check (res : resource) (user_id : string)
    (payload : pydict) (d : database) : unicity_verdict :=
  match unicity_ast res payload (unique_fields res) with
  | [] => Pass
  | conditions =>
      match select_conflict (unicity_placeholders res user_id payload)
              conditions (unicity_exclusion res payload) d with
      | inl e => Rejected e
      | inr (_, []) => Pass
      | inr (_, record_id :: _) => Conflict record_id
      end
  end.

(** The record a write returns: the payload with the identity and the
    timestamp set. *)
Definition returned_record (res : resource) (payload : pydict)
    (record_id : string) (ts : Z) : pydict :=
  <[modified_field res := JNum ts]> (<[id_field res := JStr record_id]> payload).

(** How a scope ends on an error [e] of the driver. *)
Definition scope_error {A} (e : psycopg_error) (w : world)
  : world * (exn + A) :=
  if connection_closed e then (w, inl (BackendError e))
  else (log EvPutConn (log EvRollback w), inl (BackendError e)).

(** What writing [payload] under [record_id] comes to, in a world whose
    pool gives a connection: the verdict of the uniqueness check, then the
    insert or update of the row, the commit, and the copy of the payload
    that is returned.  [must_be_new] tells the plain insert of [create]
    from the upsert of [update]. *)
Definition write_outcome (res : resource) (user_id record_id : string)
    (payload : pydict) (must_be_new : bool) (w : world) : world * (exn + loc) :=
  let w0 := log (EvGetConn false) w in
  let k := (record_id, user_id, name res) in
  match unicity_check res user_id payload (db w) with
  | Rejected e => scope_error e w0
  | Conflict existing_id =>
      let w1 := log EvPutConn (log EvPutConn (log (EvGetConn true) w0)) in
      match tbl_records (db w) !! (existing_id, user_id, name res) with
      | Some result =>
          (w1, inl (UnicityError (List.last (unique_fields res) "")
                      (returned_record res result.2 existing_id result.1)))
      | None => (w1, inl (RecordNotFoundError existing_id))
      end
  | Pass =>
      if must_be_new && bool_decide (is_Some (tbl_records (db w) !! k))
      then scope_error IntegrityError w0
      else
        let ts := bump_timestamp (db w) user_id (name res) in
        let d := set_records <[k := (ts, payload)]> (db w) in
        match commit_fault w with
        | Some e => scope_error e w0
        | None =>
            let w2 := log EvPutConn (log EvCommit (set_db d w0)) in
            let r := fresh (dom (heap w)) in
            (set_heap (<[r := returned_record res payload record_id ts]> (heap w))
               w2,
             inr r)
        end
  end.

Definition set_ids_drawn (n : nat) (w : world) : world :=
  mkWorld (db w) (heap w) n (trace w) (pool_fault w) (commit_fault w).

(** The text the conflict search compares a candidate's value as: a string
    as it is, any other value as its JSON text. *)
Definition filter_text (v : json) : string :=
  match v with
  | JStr s => s
  | _ => strip dquote (json_dumps v)
  end.

(** Whether a row of [records] is in conflict with a candidate payload:
    it is in the collection, it reads, on some unique field that the
    candidate holds with a value other than null, as the text of the
    candidate's value (a field the row lacks or holds as null reads as the
    empty text), and its identity is not the candidate's own (a string
    other than the empty one). *)
Definition conflicts (res : resource) (user_id : string) (payload : pydict)
    (kv : key * (Z * pydict)) : bool :=
  in_collection user_id (name res) kv.1
  && existsb (fun f =>
                match payload !! f with
                | None | Some JNull => false
                | Some v =>
                    String.eqb (default "" (data_text kv.2.2 f)) (filter_text v)
                end) (unique_fields res)
  && match payload !! id_field res with
     | Some (JStr s) =>
         if String.eqb s "" then true else negb (String.eqb (key_id kv.1) s)
     | _ => true
     end.

(** The identity of a candidate, when it has one, is a string or a value
    that counts as false. *)
Definition identity_is_text (res : resource) (payload : pydict) : Prop :=
  match payload !! id_field res with
  | Some (JStr _) | None => True
  | Some v => truthy (Some v) = false
  end.

(** The specification's reading of a conflict: a record of the collection, other
    than the candidate's own, holds on a unique field that the candidate
    holds with a value other than null a value equal to the candidate's. *)
Definition holds_equal_value (res : resource) (user_id : string)
    (payload : pydict) (kv : key * (Z * pydict)) : bool :=
  in_collection user_id (name res) kv.1
  && existsb (fun f =>
                match payload !! f with
                | None | Some JNull => false
                | Some v => bool_decide (kv.2.2 !! f = Some v)
                end) (unique_fields res)
  && negb (bool_decide (payload !! id_field res = Some (JStr (key_id kv.1)))).

(** The tombstone [delete] returns. *)
Definition tombstone_record (res : resource) (record_id : string) (ts : Z)
  : pydict :=
  <[deleted_field res := JBool true]>
    (<[id_field res := JStr record_id]> (<[modified_field res := JNum ts]> ∅)).

(** ** What a filter means

    The comparison a filter stands for, evaluated by itself: the column its
    field resolves to, the translated operator and the bound value. *)
Definition column_value (res : resource) (fld : string) (r : row) : sql_value :=
  match kind_of res fld with
  | KId => SqlText (row_id r)
  | KModified => SqlBigint (row_last_modified r)
  | KPayload => SqlText (default "" (data_text (row_data r) fld))
  end.

Definition eval_filter (res : resource) (filtr : Filter) (r : row)
  : option bool :=
  compare_to_parameter (sql_operator_of (operator filtr))
    (column_value res (field filtr) r) (bound_value res filtr).

(** The statement accepts the filters. *)
Definition filters_accepted (res : resource) (filters : list Filter) : bool :=
  forallb (fun f => bool_decide (is_Some (eval_filter res f (mkRow "" 0 ∅))))
    filters.

(** The row matches every filter. *)
Definition matches (res : resource) (filters : list Filter) (r : row) : bool :=
  forallb (fun f => default false (eval_filter res f r)) filters.

(** The live records of a collection that match the filters. *)
Definition matching_records (res : resource) (user_id : string)
    (filters : list Filter) (d : database) : list (key * (Z * pydict)) :=
  filter (fun kv => in_collection user_id (name res) kv.1 = true
                    ∧ matches res filters (record_row kv) = true)
         (map_to_list (tbl_records d)).

(** The tombstone [delete_all] returns for a result row. *)
Definition deleted_record (res : resource) (result : string * Z) : pydict :=
  <[modified_field res := JNum result.2]>
    (<[id_field res := JStr result.1]> (<["deleted" := JBool true]> ∅)).

(** Bound parameters under which the statement reads the collection and
    the filters as they were given. *)
Definition binds_filters (res : resource) (user_id : string)
    (filters : list Filter) (conditions : list sql_comparison) (ph : pydict)
  : Prop :=
  param_text ph "user_id" = Some user_id
  /\ param_text ph "resource_name" = Some (name res)
  /\ check_conjunction ph conditions = filters_accepted res filters
  /\ forall r, holds_conjunction ph conditions r = matches res filters r.

(** No matching record has a tombstone already. *)
Definition matching_have_no_tombstone (res : resource) (user_id : string)
    (filters : list Filter) (d : database) : Prop :=
  Forall (fun kv => tbl_deleted d !! kv.1 = None)
    (matching_records res user_id filters d).

(** The rows the statement of [delete_all] touched: the tombstones that
    were not there before. *)
Definition rows_affected (before after : database) : nat :=
  size (tbl_deleted after) - size (tbl_deleted before).

(** * Sample data *)

Definition articles : resource :=
  mkResource "article" "id" "last_modified" "deleted" ["email"]
    (fun n => "uuid" +:+ pretty n).

(** Two live records of one collection. *)
Definition two_articles : database :=
  mkDatabase
    {[ ("uuid0", "alice", "article")
         := (1, {[ "email" := JStr "a@b.org"; "n" := JNum 1 ]});
       ("uuid1", "alice", "article")
         := (2, {[ "email" := JStr "c@d.org"; "n" := JNum 2 ]}) ]}
    ∅ (Some [("storage_schema_version", "6")]) "UTF8" "UTC".

(** A world over [two_articles] with one dict, the payload of a caller. *)
Definition sample_world : world :=
  mkWorld two_articles {[ 0%nat := {[ "email" := JStr "e@f.org" ]} ]} 2 []
    None None.

(** One record that has no [email], and a caller's payload whose [email]
    is the empty string. *)
Definition lonely_world : world :=
  mkWorld
    (mkDatabase {[ ("uuid0", "alice", "article") := (1, {[ "n" := JNum 1 ]}) ]}
       ∅ (Some [("storage_schema_version", "6")]) "UTF8" "UTC")
    {[ 0%nat := {[ "email" := JStr "" ]} ]} 1 [] None None.

(** ** Notions for the schema migrator *)

(** The installed version as [_get_installed_version] reads it from the
    contents of the database. *)
Definition read_version (d : database) : exn + option Z :=
  match tbl_metadata d with
  | None => inr None
  | Some rows =>
      match order_by (fun a b => String.compare b a)
              (map snd (filter (fun nv => nv.1 = "storage_schema_version") rows))
      with
      | version :: _ =>
          match parse_int version with
          | Some v => inr (Some v)
          | None => inl ValueError
          end
      | [] =>
          if Z.of_nat (length rows) =? 0 then inr (Some schema_version)
          else inr (Some 1)
      end
  end.

(** The scripts executed so far, oldest first. *)
Definition executed_files (tr : list event) : list string :=
  omap (fun ev => match ev with EvExecuteFile p => Some p | _ => None end) tr.

(** The path of the script of the migration from [v] to [v + 1]. *)
Definition migration_path (v : Z) : string :=
  "migrations/" +:+ "migration_" +:+ format_03d v +:+ "_"
  +:+ format_03d (v + 1) +:+ ".sql".

(** Worlds that differ in the calls made on connections only, with the
    same scripts executed. *)
Definition same_state (w w' : world) : Prop :=
  db w' = db w /\ pool_fault w' = pool_fault w
  /\ commit_fault w' = commit_fault w
  /\ executed_files (trace w') = executed_files (trace w).

(** Modelled from the spec: scripts that do what the spec says of the
    files that are not among the sources.  [schema.sql] creates the
    metadata table with the target version; a migration script records the
    version after the installed one. *)
Definition sample_scripts (path : string) : statement unit := fun d =>
  if String.eqb path "schema.sql" then
    inr (mkDatabase (tbl_records d) (tbl_deleted d)
           (Some [("storage_schema_version", pretty schema_version)])
           (db_encoding d) (db_timezone d), [])
  else
    match read_version d with
    | inr (Some v) =>
        inr (mkDatabase (tbl_records d) (tbl_deleted d)
               (Some [("storage_schema_version", pretty (v + 1))])
               (db_encoding d) (db_timezone d), [])
    | _ => inl ProgrammingError
    end.

(** A database whose schema is at version 4, and one without schema. *)
Definition world_at_version_4 : world :=
  mkWorld (mkDatabase ∅ ∅ (Some [("storage_schema_version", "4")]) "UTF8" "UTC")
    ∅ 0 [] None None.

Definition world_without_schema : world :=
  mkWorld (mkDatabase ∅ ∅ None "UTF8" "UTC") ∅ 0 [] None None.

(** Scripts that leave the database as it is, for a migration that does
    not record its version. *)
Definition idle_scripts (path : string) : statement unit := fun d =>
  inr (d, []).

(** ** Notions for the count of [get_all] *)

(** The bound parameters the filter conditions and the collection are read
    from. *)
Definition reads_key (k : string) : Prop :=
  k = "user_id" \/ k = "resource_name"
  \/ exists j : nat, k = field_holder_name "filters" j
                     \/ k = value_holder_name "filters" j.

(** The collection and the parameters of the rendered filters are bound in
    [ph]. *)
Definition binds_parameters (res : resource) (user_id : string)
    (filters : list Filter) (ph : pydict) : Prop :=
  ph !! "user_id" = Some (JStr user_id)
  /\ ph !! "resource_name" = Some (JStr (name res))
  /\ forall k v, (_format_conditions res filters "filters").2 !! k = Some v ->
                 ph !! k = Some v.

(** * Further sample data *)

(** A resource with two unique fields, and a world with one record of it
    and a caller's payload that has the same [email]. *)
Definition contacts : resource :=
  mkResource "contact" "id" "last_modified" "deleted" ["email"; "phone"]
    (fun n => "uuid" +:+ pretty n).

Definition contacts_world : world :=
  mkWorld
    (mkDatabase
       {[ ("uuid0", "alice", "contact")
            := (1, {[ "email" := JStr "a@b.org"; "phone" := JStr "1" ]}) ]}
       ∅ (Some [("storage_schema_version", "6")]) "UTF8" "UTC")
    {[ 0%nat := {[ "email" := JStr "a@b.org"; "phone" := JStr "2" ]} ]}
    1 [] None None.

(** A world over [two_articles] whose identity generator gives the identity
    of a stored record next. *)
Definition colliding_world : world :=
  mkWorld two_articles {[ 0%nat := {[ "email" := JStr "e@f.org" ]} ]} 0 []
    None None.

(** A database without schema whose encoding is not UTF-8, and one whose
    metadata records the version 0. *)
Definition latin1_world : world :=
  mkWorld (mkDatabase ∅ ∅ None "LATIN1" "UTC") ∅ 0 [] None None.

Definition world_at_version_0 : world :=
  mkWorld (mkDatabase ∅ ∅ (Some [("storage_schema_version", "0")]) "utf8" "UTC")
    ∅ 0 [] None None.

(** Scripts of which the database rejects the one of the step from 5. *)
Definition scripts_failing_at_5 (path : string) : statement unit :=
  if String.eqb path (migration_path 5) then fun d => inl ProgrammingError
  else sample_scripts path.

(** A database whose metadata table has rows, none of them a version. *)
Definition legacy_world : world :=
  mkWorld (mkDatabase ∅ ∅ (Some [("created_at", "2015")]) "UTF8" "UTC")
    ∅ 0 [] None None.

(** * The other operations of the record store *)

(** Modelled from the spec: the three tables are created together, so that
    the statement of [flush],
    [DELETE FROM deleted; DELETE FROM records; DELETE FROM metadata;],
    is rejected exactly when the metadata table is missing. *)
Definition delete_everything : statement unit := fun d =>
  match tbl_metadata d with
  | None => inl UndefinedTable
  | Some _ =>
      inr (mkDatabase ∅ ∅ (Some []) (db_encoding d) (db_timezone d), [])
  end.

(** [PostgreSQL.flush] *)
Definition flush : M unit :=
  connect false (do _ <- execute delete_everything ;; ret tt).

(** [SELECT as_epoch(resource_timestamp(%(user_id)s, %(resource_name)s))
    AS last_modified] *)
Definition select_resource_timestamp (user_id rname : string)
  : statement Z := fun d =>
  inr (d, [resource_timestamp d user_id rname]).

(** [PostgreSQL.collection_timestamp] *)
Definition collection_timestamp (res : resource) (user_id : string) : M Z :=
  do result <- connect true
    (do rows <- execute (select_resource_timestamp user_id (name res)) ;;
     fetchone rows) ;;
  ret result.

(** The record [get_all] makes of a result row. *)
Definition listed_record (res : resource) (result : Z * row) : pydict :=
  <[modified_field res := JNum (row_last_modified result.2)]>
    (<[id_field res := JStr (row_id result.2)]> (row_data result.2)).

(** [conn.commit()] calls among the calls made on connections. *)
Definition is_commit (ev : event) : bool :=
  match ev with EvCommit => true | _ => false end.

Definition commits (tr : list event) : nat :=
  length (List.filter is_commit tr).

(** A flushed database that kept its schema. *)
Definition flushed (d : database) : Prop :=
  tbl_records d = ∅ /\ tbl_deleted d = ∅ /\ tbl_metadata d = Some [].

(** * Properties of the query builder *)

Lemma field_holder_name_inj prefix i j :
  field_holder_name prefix i = field_holder_name prefix j -> i = j.
Proof.
  unfold field_holder_name. intros H.
  apply String.app_inj, (String.app_inj "_field_") in H.
  by apply (inj pretty) in H.
Qed.

Lemma value_holder_name_inj prefix i j :
  value_holder_name prefix i = value_holder_name prefix j -> i = j.
Proof.
  unfold value_holder_name. intros H.
  apply String.app_inj, (String.app_inj "_value_") in H.
  by apply (inj pretty) in H.
Qed.

Lemma field_value_holder_name_ne prefix i j :
  field_holder_name prefix i <> value_holder_name prefix j.
Proof.
  unfold field_holder_name, value_holder_name. intros H.
  apply String.app_inj in H. discriminate H.
Qed.

Lemma operators_ok_init : operators_ok (cs_operators format_conditions_init).
Proof.
  unfold operators_ok, format_conditions_init; simpl.
  split; [done|]. split; [done|].
  intros k v. rewrite !lookup_insert. unfold sql_operator_of.
  repeat case_decide; subst; simpl; try congruence.
  rewrite lookup_empty. congruence.
Qed.

Lemma setdefault_operator ops op :
  operators_ok ops ->
  (setdefault ops op op).1 = sql_operator_of op
  /\ operators_ok (setdefault ops op op).2.
Proof.
  intros (Heq & Hnot & Hall). unfold setdefault.
  destruct (ops !! op) as [x|] eqn:E; simpl.
  - split; [by apply Hall|done].
  - assert (sql_operator_of op = op) as Hop.
    { unfold sql_operator_of.
      destruct (String.eqb_spec op COMPARISON_EQ) as [->|_]; [congruence|].
      destruct (String.eqb_spec op COMPARISON_NOT) as [->|_]; [congruence|done]. }
    split; [done|]. repeat split.
    + rewrite lookup_insert_ne; [done|]. intros ->. congruence.
    + rewrite lookup_insert_ne; [done|]. intros ->. congruence.
    + intros k v. rewrite lookup_insert. case_decide; subst.
      * intros [= <-]. done.
      * apply Hall.
Qed.

(** One iteration appends the text of the filter's comparison and binds its
    parameters. *)
Lemma format_conditions_body_spec res prefix i filtr st :
  operators_ok (cs_operators st) ->
  let st' := format_conditions_body res prefix i filtr st in
  operators_ok (cs_operators st')
  /\ cs_conditions st'
     = (cs_conditions st ++ [print_comparison (comparison_ast res prefix i filtr)])%list
  /\ cs_holders st'
     = <[value_holder_name prefix i := bound_value res filtr]>
         (if is_payload_field res (field filtr)
          then <[field_holder_name prefix i := JStr (field filtr)]> (cs_holders st)
          else cs_holders st).
Proof.
  intros Hops. unfold format_conditions_body, bound_value, is_payload_field,
    comparison_ast, column_of, print_comparison.
  destruct (setdefault_operator _ (operator filtr) Hops) as [Hop Hops'].
  destruct (setdefault (cs_operators st) (operator filtr) (operator filtr))
    as [sql_operator operators]. simpl in Hop, Hops'. subst sql_operator.
  destruct (String.eqb (field filtr) (id_field res)); simpl; [done|].
  destruct (String.eqb (field filtr) (modified_field res)); simpl; [done|].
  destruct (is_string (value filtr)); simpl; done.
Qed.

Lemma format_conditions_loop_conditions res prefix filters : forall i st,
  operators_ok (cs_operators st) ->
  cs_conditions (format_conditions_loop res prefix i filters st)
  = (cs_conditions st
     ++ imap (fun j f => print_comparison (comparison_ast res prefix (i + j) f))
          filters)%list.
Proof.
  induction filters as [|f rest IH]; intros i st Hops; simpl.
  - by rewrite app_nil_r.
  - destruct (format_conditions_body_spec res prefix i f st Hops)
      as (Hops' & Hc & _).
    rewrite IH by done. rewrite Hc, <- app_assoc. simpl.
    rewrite Nat.add_0_r. do 2 f_equal.
    apply imap_ext. intros j x _. simpl. do 2 f_equal. lia.
Qed.

(** The rendered text is the text of the syntax tree [conditions_ast]. *)
Lemma format_conditions_text res filters prefix :
  (_format_conditions res filters prefix).1
  = print_conjunction (conditions_ast res filters prefix).
Proof.
  unfold _format_conditions, print_conjunction, conditions_ast. simpl.
  rewrite format_conditions_loop_conditions by apply operators_ok_init.
  simpl. f_equal. change (map ?f ?l) with (f <$> l). by rewrite fmap_imap.
Qed.

(** A parameter that the remaining iterations do not bind keeps its
    value. *)
Lemma format_conditions_loop_other res prefix filters k : forall i st,
  operators_ok (cs_operators st) ->
  (forall j, (i <= j)%nat ->
     k <> field_holder_name prefix j /\ k <> value_holder_name prefix j) ->
  cs_holders (format_conditions_loop res prefix i filters st) !! k
  = cs_holders st !! k.
Proof.
  induction filters as [|f rest IH]; intros i st Hops Hk; simpl; [done|].
  destruct (format_conditions_body_spec res prefix i f st Hops)
    as (Hops' & _ & Hh).
  rewrite IH; [|done|intros j Hj; apply Hk; lia].
  rewrite Hh. destruct (Hk i) as [Hf Hv]; [lia|].
  rewrite lookup_insert_ne by done.
  destruct (is_payload_field res (field f)); [|done].
  by rewrite lookup_insert_ne.
Qed.

Lemma format_conditions_loop_holders res prefix filters : forall i st j f,
  operators_ok (cs_operators st) ->
  filters !! j = Some f ->
  let holders := cs_holders (format_conditions_loop res prefix i filters st) in
  holders !! value_holder_name prefix (i + j) = Some (bound_value res f)
  /\ (is_payload_field res (field f) = true ->
      holders !! field_holder_name prefix (i + j) = Some (JStr (field f))).
Proof.
  induction filters as [|f0 rest IH]; intros i st j f Hops Hj; [done|].
  destruct (format_conditions_body_spec res prefix i f0 st Hops)
    as (Hops' & _ & Hh).
  destruct j as [|j]; simpl in Hj |- *.
  - injection Hj as ->. rewrite Nat.add_0_r. split.
    + rewrite format_conditions_loop_other; [|done|].
      * rewrite Hh. by rewrite lookup_insert_eq.
      * intros j Hj. split.
        -- intros E. symmetry in E. by apply field_value_holder_name_ne in E.
        -- intros E%value_holder_name_inj. lia.
    + intros Hp. rewrite format_conditions_loop_other; [|done|].
      * rewrite Hh, Hp. rewrite lookup_insert_ne.
        -- by rewrite lookup_insert_eq.
        -- intros E. symmetry in E. by apply field_value_holder_name_ne in E.
      * intros j Hj. split.
        -- intros E%field_holder_name_inj. lia.
        -- apply field_value_holder_name_ne.
  - replace (i + S j)%nat with (S i + j)%nat by lia. by apply IH.
Qed.

(** C8: the Conditions renderer writes one comparison per filter, joined by
    AND; equals and not-equals become [=] and [<>] and any other operator
    token is written as it is; the identity field is the column [id], the
    modification field the epoch expression, and a payload field a JSON-path
    lookup coalesced to the empty string whose field name is a bound
    parameter; the value is a bound parameter too, and on a payload field a
    value that is not a string is bound as its JSON text. *)
Theorem format_conditions_renders (res : resource) (filters : list Filter)
    (prefix : string) :
  let rendered := _format_conditions res filters prefix in
  rendered.1
  = String.concat " AND "
      (imap (fun i filtr =>
               (if String.eqb (field filtr) (id_field res) then "id"
                else if String.eqb (field filtr) (modified_field res)
                     then "as_epoch(last_modified)"
                     else "coalesce(data->>%(" +:+ field_holder_name prefix i
                          +:+ ")s, '')")
               +:+ " "
               +:+ (if String.eqb (operator filtr) COMPARISON_EQ then "="
                    else if String.eqb (operator filtr) COMPARISON_NOT then "<>"
                         else operator filtr)
               +:+ " %(" +:+ value_holder_name prefix i +:+ ")s")
         filters)
  /\ forall i filtr, filters !! i = Some filtr ->
       rendered.2 !! value_holder_name prefix i
       = Some (if is_payload_field res (field filtr)
                  && negb (is_string (value filtr))
               then JStr (strip dquote (json_dumps (value filtr)))
               else value filtr)
       /\ (is_payload_field res (field filtr) = true ->
           rendered.2 !! field_holder_name prefix i = Some (JStr (field filtr))).
Proof.
  intros rendered. split.
  - subst rendered. rewrite format_conditions_text.
    unfold print_conjunction, conditions_ast.
    change (map ?f ?l) with (f <$> l). rewrite fmap_imap. f_equal.
    apply imap_ext. intros i filtr _. simpl.
    unfold print_comparison, comparison_ast, column_of, sql_operator_of. simpl.
    destruct (String.eqb (field filtr) (id_field res)); [done|].
    destruct (String.eqb (field filtr) (modified_field res)); done.
  - intros i filtr Hi. subst rendered. unfold _format_conditions. simpl.
    apply (format_conditions_loop_holders res prefix filters 0
             format_conditions_init i filtr operators_ok_init Hi).
Qed.

(** ** The texts of the pagination and sorting renderers *)

Lemma format_pagination_loop_spec res rules : forall i acc ph,
  (format_pagination_loop res i rules acc ph).1
  = (acc ++ imap (fun j rule =>
                    print_conjunction
                      (conditions_ast res rule ("rules_" +:+ pretty (i + j)%nat)))
             rules)%list.
Proof.
  induction rules as [|rule rest IH]; intros i acc ph; simpl.
  - by rewrite app_nil_r.
  - rewrite IH, <- app_assoc. simpl. rewrite Nat.add_0_r. f_equal. f_equal.
    + apply (format_conditions_text res rule ("rules_" +:+ pretty i)).
    + apply imap_ext. intros j x _. simpl.
      replace (i + S j)%nat with (S (i + j)) by lia. done.
Qed.

Lemma format_pagination_text res rules :
  (_format_pagination res rules).1
  = print_disjunction (pagination_ast res rules).
Proof.
  unfold _format_pagination, print_disjunction, pagination_ast.
  pose proof (format_pagination_loop_spec res rules 0 [] ∅) as H.
  destruct (format_pagination_loop res 0 rules [] ∅) as [rs ph].
  simpl in H |- *. subst rs. f_equal.
  change (map ?f ?l) with (f <$> l). by rewrite !fmap_imap.
Qed.

Lemma format_sorting_loop_spec res sorting : forall i acc h,
  (format_sorting_loop res i sorting acc h).1
  = (acc ++ imap (fun j sort =>
                    print_sort
                      (if String.eqb (sort_field sort) (id_field res) then SortId
                       else if String.eqb (sort_field sort) (modified_field res)
                            then SortLastModified
                            else SortData ("sort_field_" +:+ pretty (i + j)%nat),
                       0 <? direction sort))
             sorting)%list.
Proof.
  induction sorting as [|sort rest IH]; intros i acc h; simpl.
  - by rewrite app_nil_r.
  - assert (forall hs, (format_sorting_loop res (S i) rest
              (acc ++ [print_sort
                 (if String.eqb (sort_field sort) (id_field res) then SortId
                  else if String.eqb (sort_field sort) (modified_field res)
                       then SortLastModified
                       else SortData ("sort_field_" +:+ pretty i),
                  0 <? direction sort)]) hs).1
            = (acc ++ print_sort
                 (if String.eqb (sort_field sort) (id_field res) then SortId
                  else if String.eqb (sort_field sort) (modified_field res)
                       then SortLastModified
                       else SortData ("sort_field_" +:+ pretty (i + 0)%nat),
                  0 <? direction sort)
               :: imap ((fun j sort0 => print_sort
                 (if String.eqb (sort_field sort0) (id_field res) then SortId
                  else if String.eqb (sort_field sort0) (modified_field res)
                       then SortLastModified
                       else SortData ("sort_field_" +:+ pretty (i + j)%nat),
                  0 <? direction sort0)) ∘ S) rest)%list) as Hgen.
    { intros hs. rewrite IH, <- app_assoc. simpl. rewrite Nat.add_0_r.
      do 2 f_equal. apply imap_ext. intros j x _. simpl.
      replace (i + S j)%nat with (S (i + j)) by lia. done. }
    unfold print_sort in *. simpl in *.
    destruct (String.eqb (sort_field sort) (id_field res)); [apply Hgen|].
    destruct (String.eqb (sort_field sort) (modified_field res)); apply Hgen.
Qed.

Lemma format_sorting_text res sorting :
  (_format_sorting res sorting).1 = print_order_by (sorting_ast res sorting).
Proof.
  unfold _format_sorting, print_order_by, sorting_ast.
  pose proof (format_sorting_loop_spec res sorting 0 [] ∅) as H.
  destruct (format_sorting_loop res 0 sorting [] ∅) as [sorts h].
  simpl in H |- *. subst sorts. do 2 f_equal.
  change (map ?f ?l) with (f <$> l). by rewrite fmap_imap.
Qed.

(** ** The text depends on the shape of the input only *)

Lemma imap_ext_shape {A B C} (sh : A -> C) (f : nat -> A -> B) :
  (forall i x y, sh x = sh y -> f i x = f i y) ->
  forall l1 l2, map sh l1 = map sh l2 -> imap f l1 = imap f l2.
Proof.
  intros Hf l1. revert f Hf.
  induction l1 as [|x l1 IH]; intros f Hf [|y l2] Hm; try discriminate; [done|].
  injection Hm as Hx Hm. simpl. f_equal; [by apply Hf|].
  apply IH; [|done]. intros i a b Hab. by apply Hf.
Qed.

Lemma conditions_ast_shape res prefix filters1 filters2 :
  map (filter_shape res) filters1 = map (filter_shape res) filters2 ->
  conditions_ast res filters1 prefix = conditions_ast res filters2 prefix.
Proof.
  apply imap_ext_shape. intros i x y [= Hk Ho].
  unfold comparison_ast, column_of. rewrite Ho. f_equal.
  unfold kind_of in Hk.
  destruct (String.eqb (field x) (id_field res)),
    (String.eqb (field y) (id_field res)),
    (String.eqb (field x) (modified_field res)),
    (String.eqb (field y) (modified_field res)); done.
Qed.

Lemma pagination_ast_shape res rules1 rules2 :
  map (map (filter_shape res)) rules1 = map (map (filter_shape res)) rules2 ->
  pagination_ast res rules1 = pagination_ast res rules2.
Proof.
  apply imap_ext_shape. intros i x y H. by apply conditions_ast_shape.
Qed.

Lemma sorting_ast_shape res sorting1 sorting2 :
  map (sort_shape res) sorting1 = map (sort_shape res) sorting2 ->
  sorting_ast res sorting1 = sorting_ast res sorting2.
Proof.
  apply imap_ext_shape. intros i x y [= Hk Hd]. rewrite Hd. f_equal.
  unfold kind_of in Hk.
  destruct (String.eqb (sort_field x) (id_field res)),
    (String.eqb (sort_field y) (id_field res)),
    (String.eqb (sort_field x) (modified_field res)),
    (String.eqb (sort_field y) (modified_field res)); done.
Qed.

(** ** Placeholder names do not collide *)

Lemma pretty_N_go_no_underscore x : forall s,
  has_char "_" s = false -> has_char "_" (pretty_N_go x s) = false.
Proof.
  induction (N.lt_wf_0 x) as [x _ IH]. intros s Hs.
  destruct (decide (x = 0)%N) as [->|Hx].
  - by rewrite pretty_N_go_0.
  - rewrite pretty_N_go_step by lia. apply IH.
    + apply N.div_lt; lia.
    + simpl. rewrite Hs. unfold pretty_N_char. by repeat case_match.
Qed.

Lemma pretty_nat_no_underscore (n : nat) : has_char "_" (pretty n) = false.
Proof.
  unfold pretty, pretty_nat, pretty, pretty_N.
  case_decide; [done|]. by apply pretty_N_go_no_underscore.
Qed.

(** Two texts without the separator, each followed by the separator, are
    equal when the whole strings are. *)
Lemma append_separator_inj c a : forall a' r r',
  has_char c a = false -> has_char c a' = false ->
  a +:+ String c r = a' +:+ String c r' -> a = a'.
Proof.
  induction a as [|x a IH]; intros [|y a'] r r' Ha Ha' H; simpl in *.
  - done.
  - injection H as -> _. by rewrite Ascii.eqb_refl in Ha'.
  - injection H as -> _. by rewrite Ascii.eqb_refl in Ha.
  - injection H as -> H. f_equal.
    apply orb_false_elim in Ha as [_ Ha], Ha' as [_ Ha']. eauto.
Qed.

Lemma rules_prefix_inj (i l : nat) s s' :
  ("rules_" +:+ pretty i) +:+ String "_" s
  = ("rules_" +:+ pretty l) +:+ String "_" s' -> i = l.
Proof.
  intros H. injection H as H.
  change (pretty i +:+ String "_" s = pretty l +:+ String "_" s') in H.
  apply append_separator_inj in H; try apply pretty_nat_no_underscore.
  by apply (inj pretty) in H.
Qed.

Lemma holder_name_rules_inj (i l j j' : nat) :
  let p := "rules_" +:+ pretty i in
  let q := "rules_" +:+ pretty l in
  (field_holder_name p j = field_holder_name q j'
   \/ field_holder_name p j = value_holder_name q j'
   \/ value_holder_name p j = field_holder_name q j'
   \/ value_holder_name p j = value_holder_name q j') -> i = l.
Proof.
  intros p q. subst p q. unfold field_holder_name, value_holder_name.
  intros [H|[H|[H|H]]]; by apply rules_prefix_inj in H.
Qed.

(** The parameters [_format_conditions] binds are named after its prefix
    and the index of a filter. *)
Lemma format_conditions_loop_keys res prefix filters k v : forall i st,
  operators_ok (cs_operators st) ->
  cs_holders (format_conditions_loop res prefix i filters st) !! k = Some v ->
  cs_holders st !! k = Some v
  \/ exists j, (i <= j < i + length filters)%nat
       /\ (k = field_holder_name prefix j \/ k = value_holder_name prefix j).
Proof.
  induction filters as [|f rest IH]; intros i st Hops Hk; simpl in Hk; [by left|].
  destruct (format_conditions_body_spec res prefix i f st Hops)
    as (Hops' & _ & Hh).
  apply IH in Hk as [Hk|(j & Hj & Hk)]; [| |done].
  2: { right. exists j. split; [simpl; lia|done]. }
  rewrite Hh in Hk.
  destruct (decide (k = value_holder_name prefix i)) as [->|Hv].
  { right. exists i. split; [simpl; lia|by right]. }
  rewrite lookup_insert_ne in Hk by done.
  destruct (is_payload_field res (field f)); [|by left].
  destruct (decide (k = field_holder_name prefix i)) as [->|Hf].
  { right. exists i. split; [simpl; lia|by left]. }
  rewrite lookup_insert_ne in Hk by done. by left.
Qed.

Lemma format_conditions_keys res filters prefix k v :
  (_format_conditions res filters prefix).2 !! k = Some v ->
  exists j, (j < length filters)%nat
    /\ (k = field_holder_name prefix j \/ k = value_holder_name prefix j).
Proof.
  intros H. apply format_conditions_loop_keys in H as [H|(j & Hj & H)];
    [done| |apply operators_ok_init].
  exists j. split; [lia|done].
Qed.

Lemma format_conditions_holders res filters prefix i f :
  filters !! i = Some f ->
  (_format_conditions res filters prefix).2 !! value_holder_name prefix i
  = Some (bound_value res f)
  /\ (is_payload_field res (field f) = true ->
      (_format_conditions res filters prefix).2 !! field_holder_name prefix i
      = Some (JStr (field f))).
Proof.
  intros Hi.
  apply (format_conditions_loop_holders res prefix filters 0
           format_conditions_init i f operators_ok_init Hi).
Qed.

(** ** The parameters of the pagination and sorting renderers *)

Lemma format_pagination_loop_other res rules k : forall i acc ph,
  (forall l j, (i <= l)%nat ->
     k <> field_holder_name ("rules_" +:+ pretty l) j
     /\ k <> value_holder_name ("rules_" +:+ pretty l) j) ->
  (format_pagination_loop res i rules acc ph).2 !! k = ph !! k.
Proof.
  induction rules as [|rule rest IH]; intros i acc ph Hk; [done|].
  cbn [format_pagination_loop].
  destruct (_format_conditions res rule ("rules_" +:+ pretty i))
    as [safe_sql holders] eqn:E.
  rewrite IH by (intros l j Hl; apply Hk; lia).
  unfold dict_update. apply lookup_union_r.
  destruct (holders !! k) as [v|] eqn:Ev; [|done].
  pose proof (format_conditions_keys res rule ("rules_" +:+ pretty i) k v) as Hkeys.
  rewrite E in Hkeys. destruct (Hkeys Ev) as [j [_ [->| ->]]];
    by destruct (Hk i j).
Qed.

Lemma format_pagination_loop_holders res rules : forall i acc ph l rule j f,
  rules !! l = Some rule -> rule !! j = Some f ->
  let prefix := "rules_" +:+ pretty (i + l)%nat in
  let holders := (format_pagination_loop res i rules acc ph).2 in
  holders !! value_holder_name prefix j = Some (bound_value res f)
  /\ (is_payload_field res (field f) = true ->
      holders !! field_holder_name prefix j = Some (JStr (field f))).
Proof.
  induction rules as [|rule0 rest IH]; intros i acc ph l rule j f Hl Hj; [done|].
  cbn [format_pagination_loop].
  destruct (_format_conditions res rule0 ("rules_" +:+ pretty i))
    as [safe_sql holders0] eqn:E.
  destruct l as [|l]; simpl in Hl.
  - injection Hl as ->. rewrite Nat.add_0_r.
    destruct (format_conditions_holders res rule ("rules_" +:+ pretty i) j f Hj)
      as [Hv Hf]. rewrite E in Hv, Hf. simpl in Hv, Hf.
    split; [|intros Hp; specialize (Hf Hp)];
      (rewrite format_pagination_loop_other;
       [unfold dict_update; by apply lookup_union_Some_l|]);
      intros l j' Hle; split; intros Heq;
      assert (i = l) by (apply (holder_name_rules_inj i l j j'); cbv zeta; auto);
      lia.
  - replace (i + S l)%nat with (S i + l)%nat by lia. by eapply IH.
Qed.

Lemma sort_holder_name_inj (i j : nat) :
  "sort_field_" +:+ pretty i = "sort_field_" +:+ pretty j -> i = j.
Proof. intros H%String.app_inj. by apply (inj pretty) in H. Qed.

Lemma format_sorting_loop_other res sorting k : forall i acc h,
  (forall j, (i <= j)%nat -> k <> "sort_field_" +:+ pretty j) ->
  (format_sorting_loop res i sorting acc h).2 !! k = h !! k.
Proof.
  induction sorting as [|sort rest IH]; intros i acc h Hk; [done|].
  cbn [format_sorting_loop].
  destruct (String.eqb (sort_field sort) (id_field res));
    [apply IH; intros j Hj; apply Hk; lia|].
  destruct (String.eqb (sort_field sort) (modified_field res));
    [apply IH; intros j Hj; apply Hk; lia|].
  rewrite IH by (intros j Hj; apply Hk; lia).
  apply lookup_insert_ne. intros E. by apply (Hk i).
Qed.

Lemma format_sorting_loop_holders res sorting : forall i acc h j sort,
  sorting !! j = Some sort ->
  is_payload_field res (sort_field sort) = true ->
  (format_sorting_loop res i sorting acc h).2
    !! ("sort_field_" +:+ pretty (i + j)%nat)
  = Some (JStr (sort_field sort)).
Proof.
  induction sorting as [|sort0 rest IH]; intros i acc h j sort Hj Hp; [done|].
  destruct j as [|j]; simpl in Hj.
  - injection Hj as ->. rewrite Nat.add_0_r. cbn [format_sorting_loop].
    unfold is_payload_field in Hp.
    destruct (String.eqb (sort_field sort) (id_field res)); [done|].
    destruct (String.eqb (sort_field sort) (modified_field res)); [done|].
    rewrite format_sorting_loop_other.
    + apply lookup_insert_eq.
    + intros j Hj E%sort_holder_name_inj. lia.
  - replace (i + S j)%nat with (S i + j)%nat by lia.
    cbn [format_sorting_loop].
    destruct (String.eqb (sort_field sort0) (id_field res)); [by eapply IH|].
    destruct (String.eqb (sort_field sort0) (modified_field res)); by eapply IH.
Qed.

(** C9: the SQL text of the three renderers is the same for inputs of the
    same shape, that is inputs that differ in the names of their payload
    fields and in their values only: no such name is part of the text.  The
    name of a payload field is in the output as the value bound to the
    placeholder that the JSON-path accessor reads. *)
Theorem renderers_bind_field_names (res : resource) :
  (forall filters1 filters2 prefix,
     map (filter_shape res) filters1 = map (filter_shape res) filters2 ->
     (_format_conditions res filters1 prefix).1
     = (_format_conditions res filters2 prefix).1)
  /\ (forall rules1 rules2,
        map (map (filter_shape res)) rules1 = map (map (filter_shape res)) rules2 ->
        (_format_pagination res rules1).1 = (_format_pagination res rules2).1)
  /\ (forall sorting1 sorting2,
        map (sort_shape res) sorting1 = map (sort_shape res) sorting2 ->
        (_format_sorting res sorting1).1 = (_format_sorting res sorting2).1)
  /\ (forall filters prefix i filtr,
        filters !! i = Some filtr ->
        kind_of res (field filtr) = KPayload ->
        (_format_conditions res filters prefix).2
          !! field_holder_name prefix i = Some (JStr (field filtr)))
  /\ (forall rules i rule j filtr,
        rules !! i = Some rule -> rule !! j = Some filtr ->
        kind_of res (field filtr) = KPayload ->
        (_format_pagination res rules).2
          !! field_holder_name ("rules_" +:+ pretty i) j
        = Some (JStr (field filtr)))
  /\ (forall sorting i sort,
        sorting !! i = Some sort ->
        kind_of res (sort_field sort) = KPayload ->
        (_format_sorting res sorting).2 !! ("sort_field_" +:+ pretty i)
        = Some (JStr (sort_field sort))).
Proof.
  assert (forall fld, kind_of res fld = KPayload ->
                      is_payload_field res fld = true) as Hkind.
  { intros fld. unfold kind_of, is_payload_field.
    destruct (String.eqb fld (id_field res)); [done|].
    by destruct (String.eqb fld (modified_field res)). }
  repeat split.
  - intros filters1 filters2 prefix Hs. rewrite !format_conditions_text.
    by rewrite (conditions_ast_shape res prefix filters1 filters2).
  - intros rules1 rules2 Hs. rewrite !format_pagination_text.
    by rewrite (pagination_ast_shape res rules1 rules2).
  - intros sorting1 sorting2 Hs. rewrite !format_sorting_text.
    by rewrite (sorting_ast_shape res sorting1 sorting2).
  - intros filters prefix i filtr Hi Hk.
    by apply (format_conditions_holders res filters prefix i filtr Hi), Hkind.
  - intros rules i rule j filtr Hi Hj Hk. unfold _format_pagination.
    pose proof (format_pagination_loop_holders res rules 0 [] ∅ i rule j filtr
                  Hi Hj) as [_ H].
    destruct (format_pagination_loop res 0 rules [] ∅) as [rs ph].
    apply H, Hkind, Hk.
  - intros sorting i sort Hi Hk. unfold _format_sorting.
    pose proof (format_sorting_loop_holders res sorting 0 [] ∅ i sort Hi
                  (Hkind _ Hk)) as H.
    by destruct (format_sorting_loop res 0 sorting [] ∅) as [ss h].
Qed.

(** * Properties of the connection scope *)

Lemma connect_no_driver_error {A} readonly (body : Tx A) :
  no_driver_error (connect readonly body).
Proof.
  intros w e. unfold connect.
  destruct (pool_fault w); [done|].
  destruct (body _) as [s1 [[]|a]]; simpl;
    repeat (match goal with
            | |- context [if ?b then _ else _] => destruct b
            | |- context [match commit_fault ?w with _ => _ end] =>
                destruct (commit_fault w)
            end; simpl); done.
Qed.

Lemma bind_no_driver_error {S A B} (m : SE S A) (k : A -> SE S B) :
  no_driver_error m -> (forall a, no_driver_error (k a)) ->
  no_driver_error (bind m k).
Proof.
  intros Hm Hk s e. unfold bind. specialize (Hm s e).
  destruct (m s) as [s1 [x|a]]; simpl in *; [congruence|apply Hk].
Qed.

Lemma ret_no_driver_error {S A} (a : A) : no_driver_error (@ret S A a).
Proof. by intros s e. Qed.

Lemma py_read_no_driver_error r : no_driver_error (py_read r).
Proof. intros w e. unfold py_read. by destruct (heap w !! r). Qed.

Lemma py_copy_no_driver_error r : no_driver_error (py_copy r).
Proof. intros w e. unfold py_copy. by destruct (heap w !! r). Qed.

Lemma py_setitem_no_driver_error r k v : no_driver_error (py_setitem r k v).
Proof. intros w e. unfold py_setitem. by destruct (heap w !! r). Qed.

Lemma draw_id_no_driver_error res : no_driver_error (draw_id res).
Proof. by intros w e. Qed.

Create HintDb driver.

#[local] Hint Resolve connect_no_driver_error ret_no_driver_error
  py_read_no_driver_error py_copy_no_driver_error py_setitem_no_driver_error
  draw_id_no_driver_error : driver.

Ltac no_driver :=
  repeat first
    [ apply bind_no_driver_error; [|intros ?]
    | solve [auto with driver] ].

Lemma get_no_driver_error res user_id record_id :
  no_driver_error (get res user_id record_id).
Proof. unfold get. no_driver. Qed.

Lemma create_no_driver_error res user_id record :
  no_driver_error (create res user_id record).
Proof. unfold create. no_driver. Qed.

Lemma update_no_driver_error res user_id record_id record :
  no_driver_error (update res user_id record_id record).
Proof. unfold update. no_driver. Qed.

Lemma delete_no_driver_error res user_id record_id :
  no_driver_error (delete res user_id record_id).
Proof. unfold delete. no_driver. Qed.

Lemma delete_all_no_driver_error self res user_id filters :
  no_driver_error (delete_all self res user_id filters).
Proof.
  unfold delete_all. destruct filters; [no_driver|].
  destruct (_format_conditions _ _ _). no_driver.
Qed.

Lemma get_all_no_driver_error self res user_id filters sorting rules limit incl :
  no_driver_error (get_all self res user_id filters sorting rules limit incl).
Proof.
  unfold get_all.
  repeat match goal with
         | |- context [let '(_, _) := ?p in _] => destruct p
         | |- context [match ?l with [] => _ | _ :: _ => _ end] => destruct l
         end;
    (apply bind_no_driver_error; [auto with driver|]);
    intros [|first results]; apply ret_no_driver_error.
Qed.

(** C6: an error of the driver raised inside the scope, or by the commit,
    is rolled back (when the connection is still open) and raised again as
    [BackendError] with the driver's error as its cause; a failure to get a
    connection is raised as [BackendError] too; any other exception,
    [RecordNotFoundError] and [UnicityError] among them, leaves the scope
    as it was raised, without a commit; a scope that is not read-only
    commits on normal exit; and no operation of the record store lets an
    error of the driver through. *)
Theorem connect_error_policy {A : Type} (readonly : bool) (body : Tx A)
    (w : world) :
  let inside := body (mkSession (log (EvGetConn readonly) w) (db w) readonly) in
  let w1 := outer inside.1 in
  let result := connect readonly body w in
  (forall e, pool_fault w = Some e -> result = (w, inl (BackendError e)))
  /\ (pool_fault w = None ->
      (forall e, inside.2 = inl (PsycopgError e) ->
         result.2 = inl (BackendError e)
         /\ db result.1 = db w1
         /\ trace result.1
            = (trace w1 ++ if connection_closed e then []
                           else [EvRollback; EvPutConn])%list)
      /\ (forall x, inside.2 = inl x -> (forall e, x <> PsycopgError e) ->
            result.2 = inl x
            /\ db result.1 = db w1
            /\ trace result.1 = (trace w1 ++ [EvPutConn])%list)
      /\ (forall a, inside.2 = inr a -> readonly = false ->
            match commit_fault w1 with
            | None =>
                result.2 = inr a
                /\ db result.1 = working inside.1
                /\ trace result.1 = (trace w1 ++ [EvCommit; EvPutConn])%list
            | Some e =>
                result.2 = inl (BackendError e)
                /\ db result.1 = db w1
                /\ trace result.1
                   = (trace w1 ++ if connection_closed e then []
                                  else [EvRollback; EvPutConn])%list
            end))
  /\ (forall e, result.2 <> inl (PsycopgError e))
  /\ (forall res user_id record_id record self filters sorting rules limit incl,
        no_driver_error (get res user_id record_id)
        /\ no_driver_error (create res user_id record)
        /\ no_driver_error (update res user_id record_id record)
        /\ no_driver_error (delete res user_id record_id)
        /\ no_driver_error (delete_all self res user_id filters)
        /\ no_driver_error
             (get_all self res user_id filters sorting rules limit incl)).
Proof.
  intros inside w1 result. subst result w1 inside. unfold connect.
  split; [by intros e ->|].
  split.
  - intros ->.
    destruct (body _) as [s1 [x|a]]; simpl.
    + split; [|split].
      * intros e [= ->]. destruct (connection_closed e); simpl;
          rewrite ?app_nil_r, <- ?app_assoc; done.
      * intros y [= <-] Hy. destruct x; try done. by destruct (Hy e).
      * by intros a.
    + split; [done|]. split; [done|].
      intros ? [= <-] ->. destruct (commit_fault (outer s1)) as [e|]; simpl.
      * destruct (connection_closed e); simpl;
          rewrite ?app_nil_r, <- ?app_assoc; done.
      * rewrite <- app_assoc. done.
  - split; [apply (connect_no_driver_error readonly body w)|].
    intros. auto 10 using get_no_driver_error, create_no_driver_error,
      update_no_driver_error, delete_no_driver_error,
      delete_all_no_driver_error, get_all_no_driver_error.
Qed.

(** * Properties of the record store *)

Lemma set_db_same d w : db w = d -> set_db d w = w.
Proof. intros <-. by destruct w. Qed.

(** What [get] does: a read-only scope around one lookup by key. *)
Lemma get_run res user_id record_id w :
  get res user_id record_id w
  = match pool_fault w with
    | Some e => (w, inl (BackendError e))
    | None =>
        let w' := log EvPutConn (log (EvGetConn true) w) in
        match tbl_records (db w) !! (record_id, user_id, name res) with
        | Some result =>
            (w', inr (<[modified_field res := JNum result.1]>
                        (<[id_field res := JStr record_id]> result.2)))
        | None => (w', inl (RecordNotFoundError record_id))
        end
    end.
Proof.
  unfold get, bind, connect, execute, select_record.
  destruct (pool_fault w); [done|]. simpl.
  destruct (tbl_records (db w) !! _); simpl; by rewrite set_db_same.
Qed.

(** ** The uniqueness check *)

Ltac destruct_rendered :=
  match goal with
  | |- context [_format_conditions ?r ?f ?p] =>
      destruct (_format_conditions r f p)
  end.

Lemma select_conflict_reads ph conditions exclusion d d' rows :
  select_conflict ph conditions exclusion d = inr (d', rows) -> d' = d.
Proof.
  unfold select_conflict.
  destruct (param_text ph "user_id"); [|done].
  destruct (param_text ph "resource_name"); [|done].
  destruct (negb _); [done|]. by intros [= <- _].
Qed.

Lemma unicity_ast_cons res payload f rest :
  unicity_ast res payload (f :: rest)
  = match payload !! f with
    | None | Some JNull => unicity_ast res payload rest
    | Some v =>
        conditions_ast res [mkFilter f v COMPARISON_EQ] f
        :: unicity_ast res payload rest
    end.
Proof.
  unfold unicity_ast. cbn [omap list_omap].
  by destruct (payload !! f) as [[]|].
Qed.

(** The loop renders one condition per unique field that the candidate
    holds with a value other than null. *)
Lemma unicity_loop_filters res payload fields : forall filters ph,
  length (unicity_loop res payload fields filters ph).1
  = (length filters + length (unicity_ast res payload fields))%nat.
Proof.
  induction fields as [|f rest IH]; intros filters ph; [simpl; lia|].
  rewrite unicity_ast_cons. cbn [unicity_loop].
  destruct (payload !! f) as [[]|]; rewrite ?IH; try done;
    destruct_rendered; rewrite IH, length_app; simpl; lia.
Qed.

(** What [_check_unicity] does inside a scope that is not read-only. *)
Lemma check_unicity_run res user_id record payload s :
  heap (outer s) !! record = Some payload ->
  autocommit s = false ->
  _check_unicity res user_id record s
  = match unicity_check res user_id payload (working s) with
    | Pass => (s, inr tt)
    | Rejected e => (s, inl (PsycopgError e))
    | Conflict record_id =>
        let '(w, r) := get res user_id record_id (outer s) in
        (mkSession w (working s) false,
         match r with
         | inr existing =>
             inl (UnicityError (List.last (unique_fields res) "") existing)
         | inl x => inl x
         end)
    end.
Proof.
  destruct s as [w0 d0 ac]. cbn [outer working autocommit].
  intros Hrec ->. unfold _check_unicity, unicity_check.
  destruct (unique_fields res) as [|f0 fields] eqn:Efields; [reflexivity|].
  rewrite <- Efields.
  unfold bind at 1. unfold lift at 1, py_read. cbn [outer working autocommit].
  rewrite Hrec.
  pose proof (unicity_loop_filters res payload (unique_fields res) []
                {[ "user_id" := JStr user_id; "resource_name" := JStr (name res) ]})
    as Hlen.
  unfold unicity_placeholders, unicity_exclusion.
  destruct (unicity_loop res payload (unique_fields res) [] _)
    as [filters ph] eqn:Eloop. cbn [fst snd length] in Hlen |- *.
  destruct (unicity_ast res payload (unique_fields res)) as [|c cs] eqn:East.
  { destruct filters; [reflexivity|simpl in Hlen; lia]. }
  destruct filters as [|flt filters]; [simpl in Hlen; lia|].
  match goal with
  | |- (let '(_, _) := ?e in _) _ = _ =>
      assert (e = (match payload !! id_field res with
                   | Some rid =>
                       if truthy (Some rid)
                       then Some (conditions_ast res
                                    [mkFilter (id_field res) rid COMPARISON_NOT]
                                    "filters")
                       else None
                   | None => None
                   end,
                   match payload !! id_field res with
                   | Some rid =>
                       if truthy (Some rid)
                       then dict_update ph
                              (_format_conditions res
                                 [mkFilter (id_field res) rid COMPARISON_NOT]
                                 "filters").2
                       else ph
                   | None => ph
                   end)) as ->
  end.
  { destruct (payload !! id_field res) as [rid|]; [|done].
    destruct (truthy (Some rid)); [|done]. by destruct_rendered. }
  unfold bind, execute.
  cbn [outer working autocommit].
  match goal with
  | |- context [select_conflict ?ph ?c ?x d0] =>
      destruct (select_conflict ph c x d0) as [e|[d rows]] eqn:Esel
  end; [done|].
  apply select_conflict_reads in Esel as ->.
  destruct rows as [|result rows]; [done|].
  unfold lift. cbn [outer working autocommit].
  by destruct (get res user_id result w0) as [w [x|existing]].
Qed.

(** ** What [create] and [update] do *)

Lemma copy_and_set record payload k1 v1 k2 v2 w :
  heap w !! record = Some payload ->
  (do copy <- py_copy record ;;
   do _ <- py_setitem copy k1 v1 ;;
   do _ <- py_setitem copy k2 v2 ;;
   ret copy) w
  = (set_heap (<[fresh (dom (heap w)) := <[k2 := v2]> (<[k1 := v1]> payload)]>
                 (heap w)) w,
     inr (fresh (dom (heap w)))).
Proof.
  intros Hrec. unfold bind, py_copy, py_setitem, ret. rewrite Hrec.
  cbn [heap set_heap]. rewrite !lookup_insert_eq. cbn [heap set_heap].
  rewrite !lookup_insert_eq. unfold set_heap. cbn.
  by rewrite !insert_insert_eq.
Qed.

Lemma bind_run {S A B} (m : SE S A) (k : A -> SE S B) s :
  bind m k s
  = match m s with
    | (s1, inr a) => k a s1
    | (s1, inl e) => (s1, inl e)
    end.
Proof. reflexivity. Qed.

Lemma connect_run {A} (body : Tx A) w :
  pool_fault w = None ->
  connect false body w
  = let '(s1, r) := body (mkSession (log (EvGetConn false) w) (db w) false) in
    match r with
    | inr a =>
        match commit_fault (outer s1) with
        | None =>
            (log EvPutConn (log EvCommit (set_db (working s1) (outer s1))),
             inr a)
        | Some e => scope_error e (outer s1)
        end
    | inl (PsycopgError e) => scope_error e (outer s1)
    | inl x => (log EvPutConn (outer s1), inl x)
    end.
Proof. intros Hpool. unfold connect. by rewrite Hpool. Qed.

Lemma update_run res user_id record_id record payload w :
  heap w !! record = Some payload ->
  pool_fault w = None ->
  update res user_id record_id record w
  = write_outcome res user_id record_id payload false w.
Proof.
  intros Hrec Hpool. unfold update, write_outcome.
  rewrite bind_run. unfold py_read at 1. rewrite Hrec. cbv beta iota.
  rewrite bind_run, connect_run by done.
  rewrite bind_run, (check_unicity_run res user_id record payload) by done.
  cbn [working outer autocommit log db heap].
  destruct (unicity_check res user_id payload (db w)) as [|e|cid].
  - rewrite bind_run. unfold execute at 1, select_id.
    cbn [working outer autocommit].
    destruct (tbl_records (db w) !! (record_id, user_id, name res)) eqn:Ek;
      cbn [length Nat.ltb Nat.leb]; rewrite bind_run;
      unfold execute, update_record, insert_record;
      cbn [working outer autocommit]; rewrite Ek; cbn;
      (destruct (commit_fault w) as [e|];
       [unfold scope_error; by destruct (connection_closed e)|]);
      rewrite (copy_and_set record payload) by done; reflexivity.
  - unfold scope_error. by destruct (connection_closed e).
  - rewrite get_run. cbn [pool_fault log db].
    rewrite Hpool.
    by destruct (tbl_records (db w) !! (cid, user_id, name res)).
Qed.

Lemma create_run res user_id record payload w :
  heap w !! record = Some payload ->
  pool_fault w = None ->
  create res user_id record w
  = write_outcome res user_id (id_generator res (ids_drawn w)) payload true
      (set_ids_drawn (S (ids_drawn w)) w).
Proof.
  intros Hrec Hpool. unfold create, write_outcome.
  rewrite bind_run. unfold draw_id at 1. cbv beta iota.
  fold (set_ids_drawn (S (ids_drawn w)) w).
  set (w' := set_ids_drawn (S (ids_drawn w)) w).
  assert (heap w' !! record = Some payload) as Hrec' by done.
  assert (pool_fault w' = None) as Hpool' by done.
  rewrite bind_run. unfold py_read at 1. rewrite Hrec'. cbv beta iota.
  rewrite bind_run, connect_run by done.
  rewrite bind_run, (check_unicity_run res user_id record payload) by done.
  cbn [working outer autocommit log db heap].
  destruct (unicity_check res user_id payload (db w')) as [|e|cid].
  - rewrite bind_run. unfold execute at 1, insert_record.
    cbn [working outer autocommit].
    destruct (tbl_records (db w') !! (id_generator res (ids_drawn w), user_id,
                                       name res)) eqn:Ek; cbn.
    + reflexivity.
    + destruct (commit_fault w) as [e|];
        [unfold scope_error; by destruct (connection_closed e)|].
      rewrite (copy_and_set record payload) by done. reflexivity.
  - unfold scope_error. by destruct (connection_closed e).
  - rewrite get_run. cbn [pool_fault log db]. rewrite Hpool'.
    by destruct (tbl_records (db w') !! (cid, user_id, name res)).
Qed.

Lemma update_pool_fault res user_id record_id record payload w e :
  heap w !! record = Some payload ->
  pool_fault w = Some e ->
  update res user_id record_id record w = (w, inl (BackendError e)).
Proof.
  intros Hrec Hpool. unfold update.
  rewrite bind_run. unfold py_read at 1. rewrite Hrec. cbv beta iota.
  rewrite bind_run. unfold connect. by rewrite Hpool.
Qed.

Lemma create_pool_fault res user_id record payload w e :
  heap w !! record = Some payload ->
  pool_fault w = Some e ->
  create res user_id record w
  = (set_ids_drawn (S (ids_drawn w)) w, inl (BackendError e)).
Proof.
  intros Hrec Hpool. unfold create.
  rewrite bind_run. unfold draw_id at 1. cbv beta iota.
  fold (set_ids_drawn (S (ids_drawn w)) w).
  rewrite bind_run. unfold py_read at 1. cbn [heap set_ids_drawn].
  rewrite Hrec. cbv beta iota.
  rewrite bind_run. unfold connect. cbn [pool_fault set_ids_drawn].
  by rewrite Hpool.
Qed.

(** A write changes the store of dicts by the returned copy only, and
    stores the payload under the key. *)
Lemma write_outcome_heap res user_id record_id payload must_be_new w :
  let result := write_outcome res user_id record_id payload must_be_new w in
  (forall r d, heap w !! r = Some d -> heap result.1 !! r = Some d)
  /\ (forall copy, result.2 = inr copy ->
        heap w !! copy = None
        /\ exists ts,
             heap result.1 !! copy
             = Some (returned_record res payload record_id ts)
             /\ tbl_records (db result.1) !! (record_id, user_id, name res)
                = Some (ts, payload)).
Proof.
  unfold write_outcome.
  destruct (unicity_check res user_id payload (db w)) as [|e|cid].
  - destruct (must_be_new && _).
    { unfold scope_error. simpl. split; [done|]. intros copy [=]. }
    destruct (commit_fault w) as [e|].
    { unfold scope_error. destruct (connection_closed e); simpl;
        (split; [done|]); intros copy [=]. }
    cbn. assert (heap w !! fresh (dom (heap w)) = None) as Hfresh.
    { apply not_elem_of_dom, is_fresh. }
    split.
    + intros r d Hr. rewrite lookup_insert_ne; [done|]. intros <-. congruence.
    + intros copy [= <-]. split; [done|].
      eexists. split; [apply lookup_insert_eq|apply lookup_insert_eq].
  - unfold scope_error. destruct (connection_closed e); simpl;
      (split; [done|]); intros copy [=].
  - destruct (tbl_records (db w) !! (cid, user_id, name res)); simpl;
      (split; [done|]); intros copy [=].
Qed.

(** C10: [create] and [update] leave the mapping the caller passed, and
    every other dict, as they were; the record they return is a dict that
    did not exist before, holding the input payload with the identity and
    the timestamp set. *)
Theorem create_update_leave_input (res : resource) (user_id record_id : string)
    (record : loc) (payload : pydict) (w : world) :
  heap w !! record = Some payload ->
  (let result := create res user_id record w in
   heap result.1 !! record = Some payload
   /\ (forall r d, heap w !! r = Some d -> heap result.1 !! r = Some d)
   /\ (forall copy, result.2 = inr copy ->
         copy <> record /\ heap w !! copy = None
         /\ exists ts,
              heap result.1 !! copy
              = Some (<[modified_field res := JNum ts]>
                        (<[id_field res := JStr (id_generator res (ids_drawn w))]>
                           payload))))
  /\ (let result := update res user_id record_id record w in
      heap result.1 !! record = Some payload
      /\ (forall r d, heap w !! r = Some d -> heap result.1 !! r = Some d)
      /\ (forall copy, result.2 = inr copy ->
            copy <> record /\ heap w !! copy = None
            /\ exists ts,
                 heap result.1 !! copy
                 = Some (<[modified_field res := JNum ts]>
                           (<[id_field res := JStr record_id]> payload)))).
Proof.
  intros Hrec. split.
  - destruct (pool_fault w) as [e|] eqn:Hpool.
    + rewrite (create_pool_fault res user_id record payload w e) by done.
      cbn. split; [done|]. split; [done|]. intros copy [=].
    + rewrite (create_run res user_id record payload) by done.
      pose proof (write_outcome_heap res user_id
                    (id_generator res (ids_drawn w)) payload true
                    (set_ids_drawn (S (ids_drawn w)) w)) as [Hframe Hcopy].
      split; [by apply Hframe|]. split; [apply Hframe|].
      intros copy Hout. destruct (Hcopy copy Hout) as (Hnew & ts & Hts & _).
      split; [intros ->; cbn in Hnew; congruence|].
      split; [done|]. by exists ts.
  - destruct (pool_fault w) as [e|] eqn:Hpool.
    + rewrite (update_pool_fault res user_id record_id record payload w e)
        by done.
      cbn. split; [done|]. split; [done|]. intros copy [=].
    + rewrite (update_run res user_id record_id record payload) by done.
      pose proof (write_outcome_heap res user_id record_id payload false w)
        as [Hframe Hcopy].
      split; [by apply Hframe|]. split; [apply Hframe|].
      intros copy Hout. destruct (Hcopy copy Hout) as (Hnew & ts & Hts & _).
      split; [intros ->; congruence|].
      split; [done|]. by exists ts.
Qed.

(** ** The bound parameters of the uniqueness check *)

Lemma string_length_append (a b : string) :
  String.length (a +:+ b) = (String.length a + String.length b)%nat.
Proof.
  induction a as [|c a IH]; [done|].
  change (S (String.length (a +:+ b))
          = S (String.length a + String.length b)). by rewrite IH.
Qed.

(** Strings with suffixes of the same length are equal part by part. *)
Lemma append_suffix_inj (a : string) : forall b s t,
  String.length s = String.length t ->
  a +:+ s = b +:+ t -> a = b /\ s = t.
Proof.
  induction a as [|c a IH]; intros [|c' b] s t Hlen H.
  - done.
  - change (s = String c' (b +:+ t)) in H. subst s.
    simpl in Hlen. rewrite string_length_append in Hlen. lia.
  - change (String c (a +:+ s) = t) in H. subst t.
    simpl in Hlen. rewrite string_length_append in Hlen. lia.
  - injection H as -> H. destruct (IH b s t Hlen H) as [-> ->]. done.
Qed.

Lemma pretty_nat_0 : pretty 0%nat = "0".
Proof. reflexivity. Qed.

Lemma string_compare_refl (s : string) : String.compare s s = Eq.
Proof.
  induction s as [|c s IH]; simpl; [done|].
  unfold Ascii.compare. rewrite N.compare_refl. done.
Qed.

Lemma string_compare_eq (a b : string) :
  String.compare a b = Eq <-> a = b.
Proof.
  split; [apply String.compare_eq_iff|intros ->; apply string_compare_refl].
Qed.

(** The name of a parameter of a unique field is neither [user_id] nor
    [resource_name]. *)
Lemma unicity_holder_not_collection (f : string) (j : nat) k :
  k = field_holder_name f j \/ k = value_holder_name f j ->
  k <> "user_id" /\ k <> "resource_name".
Proof.
  unfold field_holder_name, value_holder_name.
  intros [-> | ->]; split; intros H;
    repeat (destruct f as [|? f]; [discriminate H | injection H as ? H; subst]);
    destruct f; discriminate H.
Qed.

Lemma holder_name_0_inj (f g : string) :
  (field_holder_name f 0 = field_holder_name g 0 -> f = g)
  /\ (value_holder_name f 0 = value_holder_name g 0 -> f = g)
  /\ field_holder_name f 0 <> value_holder_name g 0.
Proof.
  unfold field_holder_name, value_holder_name. rewrite pretty_nat_0.
  repeat split.
  - by intros [-> _]%append_suffix_inj.
  - by intros [-> _]%append_suffix_inj.
  - by intros [_ [=]]%append_suffix_inj.
Qed.

(** The parameters one unique field binds. *)
Lemma unicity_field_keys res f v k x :
  (_format_conditions res [mkFilter f v COMPARISON_EQ] f).2 !! k = Some x ->
  k = field_holder_name f 0 \/ k = value_holder_name f 0.
Proof.
  intros (j & Hj & Hk)%format_conditions_keys. simpl in Hj.
  by replace j with 0%nat in Hk by lia.
Qed.

Lemma unicity_loop_other res payload fields k : forall filters ph,
  (forall g, g ∈ fields ->
     k <> field_holder_name g 0 /\ k <> value_holder_name g 0) ->
  (unicity_loop res payload fields filters ph).2 !! k = ph !! k.
Proof.
  induction fields as [|f rest IH]; intros filters ph Hk; [done|].
  cbn [unicity_loop].
  assert (forall g, g ∈ rest ->
            k <> field_holder_name g 0 /\ k <> value_holder_name g 0) as Hrest
    by (intros g Hg; apply Hk; by right).
  destruct (payload !! f) as [[]|] eqn:Ef; try (by apply IH);
    (destruct (_format_conditions res _ f) as [sql holders] eqn:E;
     rewrite IH by done; unfold dict_update; apply lookup_union_r;
     destruct (holders !! k) as [x|] eqn:Ex; [|done];
     exfalso;
     match type of E with
     | _format_conditions _ [mkFilter _ ?v _] _ = _ =>
         pose proof (unicity_field_keys res f v k x) as Hkeys
     end;
     rewrite E in Hkeys; destruct (Hk f) as [H1 H2]; [by left|];
     destruct (Hkeys Ex); done).
Qed.

Lemma unicity_loop_bound res payload fields f v : forall filters ph,
  f ∈ fields -> payload !! f = Some v -> v <> JNull ->
  let PH := (unicity_loop res payload fields filters ph).2 in
  PH !! value_holder_name f 0 = Some (bound_value res (mkFilter f v COMPARISON_EQ))
  /\ (is_payload_field res f = true ->
      PH !! field_holder_name f 0 = Some (JStr f)).
Proof.
  induction fields as [|g rest IH]; intros filters ph Hin Hf Hv;
    [by apply elem_of_nil in Hin|].
  cbn [unicity_loop].
  destruct (decide (f ∈ rest)) as [Hrest|Hrest].
  { destruct (payload !! g) as [[]|]; try (by apply IH);
      destruct (_format_conditions res _ g); by apply IH. }
  apply elem_of_cons in Hin as [<-|Hin]; [|done].
  rewrite Hf.
  assert (forall k, (k = field_holder_name f 0 \/ k = value_holder_name f 0) ->
            forall g, g ∈ rest ->
              k <> field_holder_name g 0 /\ k <> value_holder_name g 0)
    as Hother.
  { intros k Hk g Hg.
    destruct (holder_name_0_inj f g) as (H1 & H2 & H3).
    destruct (holder_name_0_inj g f) as (_ & _ & H4).
    destruct Hk as [-> | ->]; split; intros E;
      try (apply H1 in E); try (apply H2 in E); try done;
      try (subst; done). }
  destruct (format_conditions_holders res [mkFilter f v COMPARISON_EQ] f 0
              (mkFilter f v COMPARISON_EQ) eq_refl) as [Hval Hfld].
  assert (forall sql holders filters0,
            _format_conditions res [mkFilter f v COMPARISON_EQ] f = (sql, holders) ->
            (unicity_loop res payload rest filters0 (dict_update ph holders)).2
              !! value_holder_name f 0
            = Some (bound_value res (mkFilter f v COMPARISON_EQ))
            /\ (is_payload_field res f = true ->
                (unicity_loop res payload rest filters0 (dict_update ph holders)).2
                  !! field_holder_name f 0 = Some (JStr f))) as Hgen.
  { intros sql holders filters0 E. rewrite E in Hval, Hfld. simpl in Hval, Hfld.
    split; [|intros Hp; specialize (Hfld Hp)];
      (rewrite unicity_loop_other by (apply Hother; auto));
      unfold dict_update; by apply lookup_union_Some_l. }
  destruct v; try done;
    destruct (_format_conditions res _ f) as [sql holders] eqn:E;
    by eapply Hgen.
Qed.

Lemma unicity_exclusion_keys res rid k x :
  (_format_conditions res [mkFilter (id_field res) rid COMPARISON_NOT]
     "filters").2 !! k = Some x ->
  k = field_holder_name "filters" 0 \/ k = value_holder_name "filters" 0.
Proof.
  intros (j & Hj & Hk)%format_conditions_keys. simpl in Hj.
  by replace j with 0%nat in Hk by lia.
Qed.

(** The collection is still bound to [user_id] and [resource_name] when the
    statement of the uniqueness check runs. *)
Lemma unicity_placeholders_collection res user_id payload :
  let PH := unicity_placeholders res user_id payload in
  param_text PH "user_id" = Some user_id
  /\ param_text PH "resource_name" = Some (name res).
Proof.
  assert (forall k, k = "user_id" \/ k = "resource_name" ->
            unicity_placeholders res user_id payload !! k
            = ({[ "user_id" := JStr user_id;
                  "resource_name" := JStr (name res) ]} : pydict) !! k) as H.
  { intros k Hk. unfold unicity_placeholders.
    assert ((unicity_loop res payload (unique_fields res) []
               {[ "user_id" := JStr user_id;
                  "resource_name" := JStr (name res) ]}).2 !! k
            = ({[ "user_id" := JStr user_id;
                  "resource_name" := JStr (name res) ]} : pydict) !! k) as Hloop.
    { apply unicity_loop_other. intros g _.
      split; intros E;
        [destruct (unicity_holder_not_collection g 0 k (or_introl E))
        |destruct (unicity_holder_not_collection g 0 k (or_intror E))];
        destruct Hk; done. }
    destruct (payload !! id_field res) as [rid|]; [|exact Hloop].
    destruct (truthy (Some rid)); [|exact Hloop].
    unfold dict_update. rewrite lookup_union_r; [exact Hloop|].
    apply eq_None_not_Some. intros [x Ex].
    apply unicity_exclusion_keys in Ex.
    destruct (unicity_holder_not_collection "filters" 0 k Ex).
    destruct Hk; done. }
  intros PH. subst PH. unfold param_text.
  rewrite !H by auto. split; reflexivity.
Qed.

(** The parameters of a unique field other than [filters] hold the field's
    name and the text of the candidate's value. *)
Lemma unicity_placeholders_field res user_id payload f v :
  f ∈ unique_fields res -> payload !! f = Some v -> v <> JNull ->
  f <> "filters" ->
  let PH := unicity_placeholders res user_id payload in
  PH !! value_holder_name f 0 = Some (bound_value res (mkFilter f v COMPARISON_EQ))
  /\ (is_payload_field res f = true ->
      PH !! field_holder_name f 0 = Some (JStr f)).
Proof.
  intros Hin Hf Hv Hne PH. subst PH. unfold unicity_placeholders.
  destruct (unicity_loop_bound res payload (unique_fields res) f v []
              {[ "user_id" := JStr user_id; "resource_name" := JStr (name res) ]}
              Hin Hf Hv) as [Hval Hfld].
  destruct (payload !! id_field res) as [rid|]; [|done].
  destruct (truthy (Some rid)); [|done].
  assert (forall k, k = field_holder_name f 0 \/ k = value_holder_name f 0 ->
            (_format_conditions res [mkFilter (id_field res) rid COMPARISON_NOT]
               "filters").2 !! k = None) as Hexcl.
  { intros k Hk. apply eq_None_not_Some. intros [x Ex].
    apply unicity_exclusion_keys in Ex.
    destruct (holder_name_0_inj f "filters") as (H1 & H2 & H3).
    destruct (holder_name_0_inj "filters" f) as (_ & _ & H4).
    destruct Hk as [-> | ->], Ex as [Ex|Ex]; auto. }
  unfold dict_update. rewrite !lookup_union_r by auto. done.
Qed.

(** The parameter of the exclusion holds the candidate's identity. *)
Lemma unicity_placeholders_exclusion res user_id payload rid :
  payload !! id_field res = Some rid -> truthy (Some rid) = true ->
  unicity_placeholders res user_id payload !! value_holder_name "filters" 0
  = Some rid.
Proof.
  intros Hid Ht. unfold unicity_placeholders. rewrite Hid, Ht.
  destruct (format_conditions_holders res
              [mkFilter (id_field res) rid COMPARISON_NOT] "filters" 0
              (mkFilter (id_field res) rid COMPARISON_NOT) eq_refl) as [Hval _].
  unfold dict_update. erewrite lookup_union_Some_l; [done|].
  rewrite Hval. unfold bound_value, is_payload_field. simpl.
  by rewrite String.eqb_refl.
Qed.

(** ** The verdict of the uniqueness check *)

Lemma string_compare_eqb (a b : string) :
  match String.compare a b with Eq => true | _ => false end = String.eqb a b.
Proof.
  destruct (String.eqb_spec a b) as [->|Hne].
  - by rewrite string_compare_refl.
  - destruct (String.compare a b) eqn:E; [|done|done].
    by apply String.compare_eq_iff in E.
Qed.

Lemma key_in_collection (k : key) user_id rname :
  in_collection user_id rname k = true <-> k = (key_id k, user_id, rname).
Proof.
  destruct k as [[i u] r]. unfold in_collection, key_id, key_user_id,
    key_resource_name. simpl. rewrite andb_true_iff, !String.eqb_eq.
  split; [by intros [-> ->]|by intros [= -> ->]].
Qed.

(** A conflict the check reports is with a row of the table. *)
Lemma unicity_check_conflict_found res user_id payload d cid :
  unicity_check res user_id payload d = Conflict cid ->
  exists result, tbl_records d !! (cid, user_id, name res) = Some result.
Proof.
  unfold unicity_check, select_conflict.
  destruct (unicity_placeholders_collection res user_id payload) as [-> ->].
  destruct (unicity_ast res payload (unique_fields res)); [done|].
  destruct (negb _); [done|].
  match goal with
  | |- context [filter ?P ?l] => destruct (filter P l) as [|kv rest] eqn:E
  end; [done|].
  simpl. intros [= <-].
  assert (kv ∈ filter
            (fun kv => in_collection user_id (name res) kv.1 = true
               ∧ holds_disjunction (unicity_placeholders res user_id payload)
                   (l :: l0) (record_row kv) = true
               ∧ from_option
                   (fun c => holds_conjunction
                               (unicity_placeholders res user_id payload) c
                               (record_row kv))
                   true (unicity_exclusion res payload) = true)
            (map_to_list (tbl_records d))) as Hin
    by (rewrite E; left).
  apply list_elem_of_filter in Hin as [(Hcoll & _) Hin].
  destruct kv as [k result]. apply elem_of_map_to_list in Hin.
  apply key_in_collection in Hcoll. simpl in Hcoll |- *.
  exists result. by rewrite <- Hcoll.
Qed.

(** ** Timestamps *)

Lemma foldr_max_ge (l : list Z) (x : Z) : x ∈ l -> x <= foldr Z.max 0 l.
Proof.
  induction l as [|y l IH]; [by intros ?%elem_of_nil|].
  intros [->|Hx]%elem_of_cons; simpl; [lia|]. specialize (IH Hx). lia.
Qed.

(** Every row of a collection is older than the timestamp of the next
    write to it. *)
Lemma record_before_bump d record_id user_id rname old :
  tbl_records d !! (record_id, user_id, rname) = Some old ->
  old.1 < bump_timestamp d user_id rname.
Proof.
  intros Hold. unfold bump_timestamp, resource_timestamp.
  enough (old.1 <= foldr Z.max 0 (collection_timestamps d user_id rname)) by lia.
  apply foldr_max_ge. unfold collection_timestamps.
  apply elem_of_app. left.
  apply (list_elem_of_fmap_2 (fun kv : key * (Z * pydict) => kv.2.1) _
           ((record_id, user_id, rname), old)).
  apply list_elem_of_filter. split.
  - unfold in_collection, key_user_id, key_resource_name. simpl.
    by rewrite !String.eqb_refl.
  - by apply elem_of_map_to_list.
Qed.

Lemma tombstone_before_bump d record_id user_id rname ts :
  tbl_deleted d !! (record_id, user_id, rname) = Some ts ->
  ts < bump_timestamp d user_id rname.
Proof.
  intros Hold. unfold bump_timestamp, resource_timestamp.
  enough (ts <= foldr Z.max 0 (collection_timestamps d user_id rname)) by lia.
  apply foldr_max_ge. unfold collection_timestamps.
  apply elem_of_app. right.
  apply (list_elem_of_fmap_2 (fun kv : key * Z => kv.2) _
           ((record_id, user_id, rname), ts)).
  apply list_elem_of_filter. split.
  - unfold in_collection, key_user_id, key_resource_name. simpl.
    by rewrite !String.eqb_refl.
  - by apply elem_of_map_to_list.
Qed.

(** ** Upsert *)

Lemma write_outcome_not_found res user_id record_id payload must_be_new w rid :
  (write_outcome res user_id record_id payload must_be_new w).2
  <> inl (RecordNotFoundError rid).
Proof.
  unfold write_outcome.
  destruct (unicity_check res user_id payload (db w)) as [|e|cid] eqn:Echeck.
  - destruct (must_be_new && _); [done|].
    destruct (commit_fault w) as [e|]; [|done].
    unfold scope_error. by destruct (connection_closed e).
  - unfold scope_error. by destruct (connection_closed e).
  - apply unicity_check_conflict_found in Echeck as [result ->]. done.
Qed.

(** With the key free, the insert of [create] and the upsert of [update]
    come to the same. *)
Lemma write_outcome_new res user_id record_id payload w n :
  tbl_records (db w) !! (record_id, user_id, name res) = None ->
  let created :=
    write_outcome res user_id record_id payload true (set_ids_drawn n w) in
  let updated := write_outcome res user_id record_id payload false w in
  created.2 = updated.2
  /\ db created.1 = db updated.1
  /\ heap created.1 = heap updated.1
  /\ trace created.1 = trace updated.1.
Proof.
  intros Hnew. unfold write_outcome. cbn [db heap set_ids_drawn commit_fault].
  rewrite Hnew.
  destruct (unicity_check res user_id payload (db w)) as [|e|cid].
  - cbn [andb bool_decide]. rewrite bool_decide_eq_false_2 by (by intros [? ?]).
    cbn [andb]. destruct (commit_fault w) as [e|]; [|done].
    unfold scope_error. by destruct (connection_closed e).
  - unfold scope_error. by destruct (connection_closed e).
  - by destruct (tbl_records (db w) !! (cid, user_id, name res)).
Qed.

(** A write that succeeds stores the payload under the key, with a
    timestamp later than the one the key had. *)
Lemma write_outcome_stored res user_id record_id payload must_be_new w copy :
  let result := write_outcome res user_id record_id payload must_be_new w in
  result.2 = inr copy ->
  exists ts,
    heap result.1 !! copy = Some (returned_record res payload record_id ts)
    /\ tbl_records (db result.1) !! (record_id, user_id, name res)
       = Some (ts, payload)
    /\ (forall old, tbl_records (db w) !! (record_id, user_id, name res)
                    = Some old -> old.1 < ts)
    /\ pool_fault result.1 = pool_fault w.
Proof.
  unfold write_outcome.
  destruct (unicity_check res user_id payload (db w)) as [|e|cid].
  - destruct (must_be_new && _); [by unfold scope_error|].
    destruct (commit_fault w) as [e|].
    { unfold scope_error. by destruct (connection_closed e). }
    cbn. intros [= <-]. eexists. split; [apply lookup_insert_eq|].
    split; [apply lookup_insert_eq|]. split; [|done].
    intros old Hold. by eapply record_before_bump.
  - unfold scope_error. by destruct (connection_closed e).
  - by destruct (tbl_records (db w) !! (cid, user_id, name res)).
Qed.

Lemma write_outcome_passes res user_id record_id payload w :
  unicity_check res user_id payload (db w) = Pass ->
  commit_fault w = None ->
  exists copy,
    (write_outcome res user_id record_id payload false w).2 = inr copy.
Proof.
  intros Hpass Hcommit. unfold write_outcome. rewrite Hpass, Hcommit.
  cbn. eauto.
Qed.

(** C4: [update] never fails with [RecordNotFoundError]; on an identity
    that has no record it does what [create] does when the generator
    gives that identity, and a [get] that follows returns the record it
    returned; on an identity that has a record it overwrites the payload
    and gives the row a later timestamp; the record it returns is the
    input payload with the identity and the timestamp set.  It succeeds
    whenever the uniqueness check passes and the commit goes through. *)
Theorem update_is_upsert (res : resource) (user_id record_id : string)
    (record : loc) (payload : pydict) (w : world) :
  heap w !! record = Some payload ->
  let k := (record_id, user_id, name res) in
  let result := update res user_id record_id record w in
  (forall rid, result.2 <> inl (RecordNotFoundError rid))
  /\ (pool_fault w = None ->
      (tbl_records (db w) !! k = None ->
       id_generator res (ids_drawn w) = record_id ->
       let created := create res user_id record w in
       created.2 = result.2 /\ db created.1 = db result.1
       /\ heap created.1 = heap result.1 /\ trace created.1 = trace result.1)
      /\ (forall copy, result.2 = inr copy ->
            exists ts,
              heap result.1 !! copy
              = Some (<[modified_field res := JNum ts]>
                        (<[id_field res := JStr record_id]> payload))
              /\ tbl_records (db result.1) !! k = Some (ts, payload)
              /\ (forall old, tbl_records (db w) !! k = Some old -> old.1 < ts)
              /\ (get res user_id record_id result.1).2
                 = inr (<[modified_field res := JNum ts]>
                          (<[id_field res := JStr record_id]> payload)))
      /\ (unicity_check res user_id payload (db w) = Pass ->
          commit_fault w = None ->
          exists copy, result.2 = inr copy)).
Proof.
  intros Hrec k result. subst k result. split.
  - intros rid. destruct (pool_fault w) as [e|] eqn:Hpool.
    + by rewrite (update_pool_fault res user_id record_id record payload w e).
    + rewrite (update_run res user_id record_id record payload) by done.
      apply write_outcome_not_found.
  - intros Hpool.
    rewrite (update_run res user_id record_id record payload) by done.
    split; [|split].
    + intros Hnew Hid.
      rewrite (create_run res user_id record payload) by done. rewrite Hid.
      by apply write_outcome_new.
    + intros copy Hout.
      destruct (write_outcome_stored res user_id record_id payload false w copy
                  Hout) as (ts & Hcopy & Hrow & Hlater & Hpool').
      exists ts. split; [done|]. split; [done|]. split; [done|].
      rewrite get_run, Hpool', Hpool. cbn zeta. by rewrite Hrow.
    + apply write_outcome_passes.
Qed.

(** ** Deletion *)

Lemma set_records_id d : set_records (fun m => m) d = d.
Proof. by destruct d. Qed.

(** What [delete] does, in a world whose pool gives a connection. *)
Lemma delete_run res user_id record_id w :
  pool_fault w = None ->
  delete res user_id record_id w
  = let w0 := log (EvGetConn false) w in
    let k := (record_id, user_id, name res) in
    match tbl_records (db w) !! k with
    | None => (log EvPutConn w0, inl (RecordNotFoundError record_id))
    | Some _ =>
        match tbl_deleted (db w) !! k with
        | Some _ => scope_error IntegrityError w0
        | None =>
            let ts := bump_timestamp (db w) user_id (name res) in
            let d := set_records (base.delete k)
                       (set_deleted <[k := ts]> (db w)) in
            match commit_fault w with
            | Some e => scope_error e w0
            | None =>
                (log EvPutConn (log EvCommit (set_db d w0)),
                 inr (tombstone_record res record_id ts))
            end
        end
    end.
Proof.
  intros Hpool. unfold delete.
  rewrite bind_run, connect_run by done.
  rewrite bind_run. unfold execute, delete_record, insert_tombstones,
    insert_tombstone. cbn [working outer autocommit log db].
  destruct (tbl_records (db w) !! (record_id, user_id, name res));
    [|reflexivity].
  destruct (tbl_deleted (db w) !! (record_id, user_id, name res));
    [reflexivity|].
  cbn. destruct (commit_fault w) as [e|]; [|reflexivity].
  unfold scope_error. by destruct (connection_closed e).
Qed.

(** C5: [delete] fails with [RecordNotFoundError], changing nothing, when
    the identity has no live record; when it has one (and no tombstone
    yet) one statement removes the record and inserts its tombstone, whose
    timestamp is later than the record's, and the tombstone is returned;
    after that a second [delete], and a [get], fail with
    [RecordNotFoundError].  The removal and the tombstone go together:
    whatever the outcome, the database has both or is unchanged. *)
Theorem delete_leaves_tombstone (res : resource) (user_id record_id : string)
    (w : world) :
  pool_fault w = None ->
  let k := (record_id, user_id, name res) in
  let result := delete res user_id record_id w in
  (tbl_records (db w) !! k = None ->
   result.2 = inl (RecordNotFoundError record_id) /\ db result.1 = db w)
  /\ (forall old, tbl_records (db w) !! k = Some old ->
        tbl_deleted (db w) !! k = None -> commit_fault w = None ->
        exists ts,
          result.2
          = inr (<[deleted_field res := JBool true]>
                   (<[id_field res := JStr record_id]>
                      (<[modified_field res := JNum ts]> ∅)))
          /\ tbl_records (db result.1) = base.delete k (tbl_records (db w))
          /\ tbl_deleted (db result.1) = <[k := ts]> (tbl_deleted (db w))
          /\ old.1 < ts
          /\ (delete res user_id record_id result.1).2
             = inl (RecordNotFoundError record_id)
          /\ (get res user_id record_id result.1).2
             = inl (RecordNotFoundError record_id))
  /\ (db result.1 = db w
      \/ exists ts,
           tbl_records (db result.1) = base.delete k (tbl_records (db w))
           /\ tbl_deleted (db result.1) = <[k := ts]> (tbl_deleted (db w))).
Proof.
  intros Hpool k result. subst result. rewrite delete_run by done.
  cbn zeta. fold k. split; [|split].
  - by intros ->.
  - intros old Hold Hnone Hcommit. rewrite Hold, Hnone, Hcommit.
    exists (bump_timestamp (db w) user_id (name res)). cbn.
    split; [done|]. split; [done|]. split; [done|].
    split; [by eapply record_before_bump|].
    rewrite delete_run, get_run by done. cbn.
    rewrite Hpool. fold k. by rewrite !lookup_delete_eq.
  - destruct (tbl_records (db w) !! k); [|by left].
    destruct (tbl_deleted (db w) !! k).
    { left. by unfold scope_error. }
    destruct (commit_fault w) as [e|].
    { left. unfold scope_error. by destruct (connection_closed e). }
    right. by eexists.
Qed.

(** * The meaning of the rendered conditions *)

(** Whether a comparison is accepted does not depend on the row. *)
Lemma compare_to_parameter_accepts op lhs lhs' v :
  match lhs, lhs' with
  | SqlText _, SqlText _ | SqlBigint _, SqlBigint _ => True
  | _, _ => False
  end ->
  is_Some (compare_to_parameter op lhs v)
  <-> is_Some (compare_to_parameter op lhs' v).
Proof.
  assert (forall c c', is_Some (operator_holds op c)
                       <-> is_Some (operator_holds op c')) as Hop.
  { intros c c'. unfold operator_holds.
    repeat (destruct (String.eqb op _); [split; eauto|]). done. }
  destruct lhs, lhs'; try done; intros _; destruct v; simpl; try done;
    rewrite ?fmap_is_Some; try apply Hop.
  destruct (parse_int s); simpl; [apply Hop|done].
Qed.

Lemma eval_filter_accepts res f r r' :
  is_Some (eval_filter res f r) <-> is_Some (eval_filter res f r').
Proof.
  unfold eval_filter, column_value. apply compare_to_parameter_accepts.
  by destruct (kind_of res (field f)).
Qed.

(** With its parameters bound as the renderer binds them, the comparison
    of a filter evaluates as the filter by itself. *)
Lemma eval_comparison_filter res prefix i f ph r :
  ph !! value_holder_name prefix i = Some (bound_value res f) ->
  (is_payload_field res (field f) = true ->
   ph !! field_holder_name prefix i = Some (JStr (field f))) ->
  eval_comparison ph (comparison_ast res prefix i f) r = eval_filter res f r.
Proof.
  intros Hv Hf. unfold eval_comparison, comparison_ast, eval_filter,
    column_value, column_of, kind_of, is_payload_field in *.
  cbn [cmp_value_holder cmp_column cmp_operator]. rewrite Hv.
  destruct (String.eqb (field f) (id_field res)); [done|].
  destruct (String.eqb (field f) (modified_field res)); [done|].
  by rewrite Hf.
Qed.

Lemma forallb_imap {A B} (g : B -> bool) (h : A -> bool) (l : list A) :
  forall c : nat -> A -> B,
  (forall i x, l !! i = Some x -> g (c i x) = h x) ->
  forallb g (imap c l) = forallb h l.
Proof.
  induction l as [|x rest IH]; intros c Hgh; [done|].
  simpl. rewrite (Hgh 0%nat x eq_refl). f_equal.
  apply IH. intros i y Hi. apply (Hgh (S i) y Hi).
Qed.

(** Under bound parameters that extend those of [_format_conditions], the
    rendered conjunction holds of the rows that match the filters. *)
Lemma conditions_eval res filters prefix ph :
  (forall k v, (_format_conditions res filters prefix).2 !! k = Some v ->
               ph !! k = Some v) ->
  check_conjunction ph (conditions_ast res filters prefix)
  = filters_accepted res filters
  /\ forall r, holds_conjunction ph (conditions_ast res filters prefix) r
               = matches res filters r.
Proof.
  intros Hsub.
  assert (forall i f r, filters !! i = Some f ->
            eval_comparison ph (comparison_ast res prefix i f) r
            = eval_filter res f r) as Heval.
  { intros i f r Hi.
    destruct (format_conditions_holders res filters prefix i f Hi) as [Hv Hf].
    apply eval_comparison_filter; [by apply Hsub|].
    intros Hp. by apply Hsub, Hf. }
  unfold check_conjunction, holds_conjunction, filters_accepted, matches,
    conditions_ast.
  split; [|intros r]; apply forallb_imap; intros i f Hi.
  - unfold check_comparison. by rewrite (Heval i f _ Hi).
  - unfold holds_comparison. by rewrite (Heval i f _ Hi).
Qed.

(** * Bulk deletion *)

Lemma NoDup_fst_filter {A B} (P : A * B -> Prop) `{!forall x, Decision (P x)}
    (l : list (A * B)) :
  NoDup (map fst l) -> NoDup (map fst (filter P l)).
Proof.
  induction l as [|x l IH]; [done|]. simpl.
  intros [Hx Hl]%NoDup_cons. rewrite filter_cons.
  destruct (decide (P x)); [|by apply IH]. simpl.
  apply NoDup_cons. split; [|by apply IH].
  intros Hin. apply Hx.
  apply (list_elem_of_fmap fst) in Hin as (y & -> & Hy).
  apply list_elem_of_filter in Hy as [_ Hy].
  by apply (list_elem_of_fmap_2 fst).
Qed.

Lemma lookup_foldr_delete {V} (ks : list key) (m : gmap key V) (k : key) :
  foldr base.delete m ks !! k = if decide (k ∈ ks) then None else m !! k.
Proof.
  induction ks as [|k0 ks IH].
  - destruct (decide (k ∈ [])) as [H|H];
      [by apply elem_of_nil in H|reflexivity].
  - cbn [foldr]. destruct (decide (k0 = k)) as [->|Hne].
    + rewrite lookup_delete_eq.
      destruct (decide (k ∈ k :: ks)) as [H|H]; [reflexivity|].
      exfalso. apply H. by left.
    + rewrite lookup_delete_ne, IH by done.
      destruct (decide (k ∈ ks)) as [H1|H1],
        (decide (k ∈ k0 :: ks)) as [H2|H2]; try reflexivity.
      * exfalso. apply H2. by right.
      * apply elem_of_cons in H2 as [->|?]; done.
Qed.

(** The tombstones of distinct keys that have none yet are all inserted,
    one result row each, and nothing else changes. *)
Lemma insert_tombstones_ok (ks : list key) : forall d,
  NoDup ks -> (forall k, k ∈ ks -> tbl_deleted d !! k = None) ->
  exists d' rows,
    insert_tombstones ks d = inr (d', rows)
    /\ tbl_records d' = tbl_records d
    /\ map fst rows = map key_id ks
    /\ (forall k, k ∉ ks -> tbl_deleted d' !! k = tbl_deleted d !! k)
    /\ (forall i k, ks !! i = Some k ->
          exists ts, rows !! i = Some (key_id k, ts)
                     /\ tbl_deleted d' !! k = Some ts).
Proof.
  induction ks as [|k ks IH]; intros d Hnd Hfree.
  - exists d, []. by repeat split.
  - apply NoDup_cons in Hnd as [Hk Hnd]. simpl. unfold insert_tombstone.
    rewrite (Hfree k) by left.
    set (ts := bump_timestamp d (key_user_id k) (key_resource_name k)).
    destruct (IH (set_deleted <[k := ts]> d) Hnd)
      as (d' & rows & -> & Hrec & Hids & Hother & Hrows).
    { intros k' Hk'. simpl. rewrite lookup_insert_ne by (by intros ->).
      apply Hfree. by right. }
    exists d', ((key_id k, ts) :: rows). split; [done|].
    split; [done|]. split; [simpl; by rewrite Hids|]. split.
    + intros k' Hk'. rewrite Hother by (intros ?; apply Hk'; by right).
      simpl. apply lookup_insert_ne. intros ->. apply Hk'. by left.
    + intros [|i] k' Hi; simpl in Hi.
      * injection Hi as <-. exists ts. split; [done|].
        rewrite Hother by done. simpl. apply lookup_insert_eq.
      * by apply Hrows.
Qed.

Lemma binds_no_filters res user_id :
  binds_filters res user_id [] []
    {[ "user_id" := JStr user_id; "resource_name" := JStr (name res) ]}.
Proof. by repeat split. Qed.

Lemma binds_rendered_filters res user_id filters safe_sql holders :
  _format_conditions res filters "filters" = (safe_sql, holders) ->
  binds_filters res user_id filters (conditions_ast res filters "filters")
    (dict_update
       {[ "user_id" := JStr user_id; "resource_name" := JStr (name res) ]}
       holders).
Proof.
  intros E. unfold binds_filters, dict_update.
  assert (forall k, k = "user_id" \/ k = "resource_name" ->
                    holders !! k = None) as Hnone.
  { intros k Hk. apply eq_None_not_Some. intros [x Hx].
    pose proof (format_conditions_keys res filters "filters" k x) as Hkeys.
    rewrite E in Hkeys. destruct (Hkeys Hx) as (j & _ & Hj).
    destruct (unicity_holder_not_collection "filters" j k Hj).
    destruct Hk; done. }
  unfold param_text. rewrite !lookup_union_r by auto.
  split; [reflexivity|]. split; [reflexivity|].
  apply conditions_eval. rewrite E. intros k v Hk.
  by apply lookup_union_Some_l.
Qed.

Lemma filtered_records_matching res user_id filters conditions ph d :
  binds_filters res user_id filters conditions ph ->
  filtered_records ph user_id (name res) conditions d
  = matching_records res user_id filters d.
Proof.
  intros (_ & _ & _ & Hholds). unfold filtered_records, matching_records.
  apply list_filter_iff. intros kv. by rewrite Hholds.
Qed.

(** What the statement of [delete_all] does when it is accepted and no
    matching record has a tombstone: every matching record is deleted and
    gets a tombstone, and there is a result row for each. *)
Lemma delete_all_statement_run res user_id filters conditions ph d :
  binds_filters res user_id filters conditions ph ->
  filters_accepted res filters = true ->
  matching_have_no_tombstone res user_id filters d ->
  let ks := map fst (matching_records res user_id filters d) in
  exists d' rows,
    delete_all_statement ph conditions d = inr (d', rows)
    /\ map fst rows = map key_id ks
    /\ (forall k, tbl_records d' !! k
                  = if decide (k ∈ ks) then None else tbl_records d !! k)
    /\ (forall k, k ∉ ks -> tbl_deleted d' !! k = tbl_deleted d !! k)
    /\ (forall i k, ks !! i = Some k ->
          exists ts, rows !! i = Some (key_id k, ts)
                     /\ tbl_deleted d' !! k = Some ts).
Proof.
  intros Hbinds Hacc Hfree ks.
  pose proof (filtered_records_matching res user_id filters conditions ph d
                Hbinds) as Hmatch.
  destruct Hbinds as (Hu & Hr & Hcheck & _).
  unfold delete_all_statement, delete_records.
  rewrite Hu, Hr, Hcheck, Hacc, Hmatch. cbn [negb]. fold ks.
  destruct (insert_tombstones_ok ks d)
    as (d1 & rows & -> & Hrec & Hids & Hother & Hrows).
  { subst ks. apply NoDup_fst_filter, NoDup_fst_map_to_list. }
  { intros k (kv & -> & Hkv)%list_elem_of_fmap.
    unfold matching_have_no_tombstone in Hfree.
    rewrite Forall_forall in Hfree. by apply Hfree. }
  eexists _, rows. split; [reflexivity|]. split; [done|].
  split; [|split; [exact Hother|exact Hrows]].
  intros k. cbn. rewrite lookup_foldr_delete, Hrec. done.
Qed.

(** What [delete_all] does, in a world whose pool gives a connection and
    whose commit goes through. *)
Lemma delete_all_run self res user_id filters w :
  pool_fault w = None -> commit_fault w = None ->
  filters_accepted res filters = true ->
  matching_have_no_tombstone res user_id filters (db w) ->
  let ks := map fst (matching_records res user_id filters (db w)) in
  exists d' rows,
    delete_all self res user_id filters w
    = (log EvPutConn (log EvCommit (set_db d' (log (EvGetConn false) w))),
       inr (map (deleted_record res) (take (_max_fetch_size self) rows)))
    /\ map fst rows = map key_id ks
    /\ (forall k, tbl_records d' !! k
                  = if decide (k ∈ ks) then None else tbl_records (db w) !! k)
    /\ (forall k, k ∉ ks -> tbl_deleted d' !! k = tbl_deleted (db w) !! k)
    /\ (forall i k, ks !! i = Some k ->
          exists ts, rows !! i = Some (key_id k, ts)
                     /\ tbl_deleted d' !! k = Some ts).
Proof.
  intros Hpool Hcommit Hacc Hfree ks. unfold delete_all.
  assert (exists conditions ph,
            match filters with
            | [] => ([], {[ "user_id" := JStr user_id;
                            "resource_name" := JStr (name res) ]})
            | _ :: _ =>
                let '(_, holders) := _format_conditions res filters "filters" in
                (conditions_ast res filters "filters",
                 dict_update {[ "user_id" := JStr user_id;
                                "resource_name" := JStr (name res) ]} holders)
            end = (conditions, ph)
            /\ binds_filters res user_id filters conditions ph)
    as (conditions & ph & -> & Hbinds).
  { destruct filters as [|f0 filters'].
    - eexists _, _. split; [reflexivity|apply binds_no_filters].
    - destruct (_format_conditions res (f0 :: filters') "filters")
        as [safe_sql holders] eqn:E.
      eexists _, _. split; [reflexivity|].
      by eapply binds_rendered_filters. }
  destruct (delete_all_statement_run res user_id filters conditions ph (db w)
              Hbinds Hacc Hfree)
    as (d' & rows & Hrun & Hids & Hrec & Hother & Hrows).
  exists d', rows. split; [|done].
  rewrite bind_run, connect_run by done.
  rewrite bind_run. unfold execute. cbn [working outer autocommit log db].
  rewrite Hrun. cbn. by rewrite Hcommit.
Qed.

(** C2 (as amended): the list [delete_all] returns holds at most
    [max_fetch_size] tombstones, those of the first result rows, each with
    the deleted marker, the identity and the new timestamp; the
    statement deletes every matching record and inserts a tombstone for
    each, whatever the cap. *)
Theorem delete_all_returns_capped (self : PostgreSQL) (res : resource)
    (user_id : string) (filters : list Filter) (w : world) :
  pool_fault w = None -> commit_fault w = None ->
  filters_accepted res filters = true ->
  matching_have_no_tombstone res user_id filters (db w) ->
  let result := delete_all self res user_id filters w in
  let ks := map fst (matching_records res user_id filters (db w)) in
  exists rows : list (string * Z),
    result.2 = inr (map (deleted_record res) (take (_max_fetch_size self) rows))
    /\ (length (take (_max_fetch_size self) rows) <= _max_fetch_size self)%nat
    /\ map fst rows = map key_id ks
    /\ (forall k, tbl_records (db result.1) !! k
                  = if decide (k ∈ ks) then None else tbl_records (db w) !! k)
    /\ (forall i k, ks !! i = Some k ->
          exists ts, rows !! i = Some (key_id k, ts)
                     /\ tbl_deleted (db result.1) !! k = Some ts).
Proof.
  intros Hpool Hcommit Hacc Hfree result ks. subst result.
  destruct (delete_all_run self res user_id filters w Hpool Hcommit Hacc Hfree)
    as (d' & rows & -> & Hids & Hrec & _ & Hrows).
  exists rows. cbn. split; [done|]. split; [rewrite length_take; lia|].
  done.
Qed.

(** C2, as it was stated, fails: with a cap of one row, a call without
    filters on a collection of two records deletes both. *)
Lemma delete_all_exceeds_cap :
  let self := mkPostgreSQL 1 in
  let result := delete_all self articles "alice" [] sample_world in
  (_max_fetch_size self < rows_affected (db sample_world) (db result.1))%nat.
Proof. vm_compute. lia. Qed.

Lemma delete_all_returns_capped_witness :
  let self := mkPostgreSQL 1 in
  let result := delete_all self articles "alice" [] sample_world in
  exists rows : list (string * Z),
    result.2 = inr (map (deleted_record articles) (take 1 rows))
    /\ length rows = 2%nat.
Proof.
  destruct (delete_all_returns_capped (mkPostgreSQL 1) articles "alice" []
              sample_world eq_refl eq_refl eq_refl)
    as (rows & Hout & _ & Hids & _).
  - unfold matching_have_no_tombstone. apply Forall_forall. intros kv _.
    reflexivity.
  - exists rows. split; [exact Hout|].
    apply (f_equal length) in Hids. rewrite !length_map in Hids.
    rewrite Hids. vm_compute. reflexivity.
Defined.

(** * The conflicts the uniqueness check finds *)

Lemma operator_holds_eq c :
  operator_holds "=" c = Some (match c with Eq => true | _ => false end).
Proof. reflexivity. Qed.

Lemma operator_holds_ne c :
  operator_holds "<>" c = Some (match c with Eq => false | _ => true end).
Proof. reflexivity. Qed.

(** The condition of a unique payload field, by itself: the row reads as
    the text of the candidate's value. *)
Lemma eval_unique_field res f v r :
  is_payload_field res f = true ->
  eval_filter res (mkFilter f v COMPARISON_EQ) r
  = Some (String.eqb (default "" (data_text (row_data r) f)) (filter_text v)).
Proof.
  intros Hp. unfold eval_filter, column_value, bound_value, kind_of.
  cbn [field value operator]. rewrite Hp.
  unfold is_payload_field in Hp.
  destruct (String.eqb f (id_field res)); [done|].
  destruct (String.eqb f (modified_field res)); [done|].
  change (sql_operator_of COMPARISON_EQ) with "=".
  destruct v; cbn [is_string negb andb compare_to_parameter filter_text];
    rewrite operator_holds_eq, string_compare_eqb; reflexivity.
Qed.

(** The condition that excludes the candidate's own identity. *)
Lemma eval_exclusion res s r :
  eval_filter res (mkFilter (id_field res) (JStr s) COMPARISON_NOT) r
  = Some (negb (String.eqb (row_id r) s)).
Proof.
  unfold eval_filter, column_value, bound_value, kind_of, is_payload_field.
  cbn [field value operator]. rewrite String.eqb_refl.
  change (sql_operator_of COMPARISON_NOT) with "<>".
  cbn [orb negb andb compare_to_parameter].
  rewrite operator_holds_ne, <- string_compare_eqb.
  by destruct (String.compare (row_id r) s).
Qed.

Lemma conditions_ast_singleton res f prefix :
  conditions_ast res [f] prefix = [comparison_ast res prefix 0 f].
Proof. reflexivity. Qed.

(** The disjunction the check renders holds of the rows that read, on a
    unique field the candidate holds, as the text of its value. *)
Lemma unicity_disjunction_eval res user_id payload :
  (forall f, f ∈ unique_fields res -> is_payload_field res f = true) ->
  "filters" ∉ unique_fields res ->
  let PH := unicity_placeholders res user_id payload in
  forall fields, (forall f, f ∈ fields -> f ∈ unique_fields res) ->
    check_disjunction PH (unicity_ast res payload fields) = true
    /\ forall r,
         holds_disjunction PH (unicity_ast res payload fields) r
         = existsb (fun f =>
                      match payload !! f with
                      | None | Some JNull => false
                      | Some v =>
                          String.eqb (default "" (data_text (row_data r) f))
                            (filter_text v)
                      end) fields.
Proof.
  intros Hpayload Hfilters PH fields.
  induction fields as [|f rest IH]; intros Hsub; [done|].
  destruct IH as [IHc IHh]; [intros g Hg; apply Hsub; by right|].
  rewrite unicity_ast_cons.
  assert (f ∈ unique_fields res) as Hf by (apply Hsub; by left).
  assert (forall v, payload !! f = Some v -> v <> JNull ->
            forall r,
              eval_comparison PH
                (comparison_ast res f 0 (mkFilter f v COMPARISON_EQ)) r
              = Some (String.eqb (default "" (data_text (row_data r) f))
                        (filter_text v))) as Heval.
  { intros v Hv Hnn r.
    destruct (unicity_placeholders_field res user_id payload f v Hf Hv Hnn)
      as [Hval Hfld]; [by intros ->|].
    rewrite (eval_comparison_filter res f 0 (mkFilter f v COMPARISON_EQ) PH r)
      by done.
    apply eval_unique_field, Hpayload, Hf. }
  assert (forall v, payload !! f = Some v -> v <> JNull ->
            check_disjunction PH
              (conditions_ast res [mkFilter f v COMPARISON_EQ] f
               :: unicity_ast res payload rest) = true
            /\ forall r,
                 holds_disjunction PH
                   (conditions_ast res [mkFilter f v COMPARISON_EQ] f
                    :: unicity_ast res payload rest) r
                 = (String.eqb (default "" (data_text (row_data r) f))
                      (filter_text v)
                    || existsb (fun f =>
                         match payload !! f with
                         | None | Some JNull => false
                         | Some v =>
                             String.eqb (default "" (data_text (row_data r) f))
                               (filter_text v)
                         end) rest)) as Hcons.
  { intros v Hv Hnn. rewrite conditions_ast_singleton. split.
    - cbn [check_disjunction forallb check_conjunction]. rewrite andb_true_r.
      fold (check_disjunction PH (unicity_ast res payload rest)).
      rewrite IHc, andb_true_r. unfold check_comparison.
      rewrite (Heval v Hv Hnn). by apply bool_decide_eq_true_2.
    - intros r. cbn [holds_disjunction existsb holds_conjunction forallb].
      fold (holds_disjunction PH (unicity_ast res payload rest) r).
      rewrite IHh, andb_true_r. unfold holds_comparison.
      by rewrite (Heval v Hv Hnn). }
  cbn [existsb].
  destruct (payload !! f) as [[]|] eqn:Ef;
    try (apply Hcons; [reflexivity|discriminate]);
    (split; [exact IHc|intros r; by rewrite IHh]).
Qed.

(** The exclusion the check renders holds of the rows whose identity is
    not the candidate's. *)
Lemma unicity_exclusion_eval res user_id payload :
  identity_is_text res payload ->
  let PH := unicity_placeholders res user_id payload in
  from_option (check_conjunction PH) true (unicity_exclusion res payload) = true
  /\ forall r,
       from_option (fun c => holds_conjunction PH c r) true
         (unicity_exclusion res payload)
       = match payload !! id_field res with
         | Some (JStr s) =>
             if String.eqb s "" then true else negb (String.eqb (row_id r) s)
         | _ => true
         end.
Proof.
  intros Hid PH. unfold unicity_exclusion, identity_is_text in *.
  destruct (payload !! id_field res) as [rid|] eqn:Erid; [|done].
  destruct rid as [|b|n|s]; try (rewrite Hid; done).
  cbn [truthy]. destruct (String.eqb s "") eqn:Es; [done|].
  cbn [negb from_option]. rewrite conditions_ast_singleton.
  assert (forall r,
            eval_comparison PH
              (comparison_ast res "filters" 0
                 (mkFilter (id_field res) (JStr s) COMPARISON_NOT)) r
            = Some (negb (String.eqb (row_id r) s))) as Heval.
  { intros r. rewrite (eval_comparison_filter res "filters" 0 _ PH r).
    - apply eval_exclusion.
    - subst PH.
      rewrite (unicity_placeholders_exclusion res user_id payload (JStr s))
        by (done || (cbn; by rewrite Es)).
      unfold bound_value, is_payload_field. cbn [field value].
      by rewrite String.eqb_refl.
    - unfold is_payload_field. cbn [field]. by rewrite String.eqb_refl. }
  split.
  - cbn [check_conjunction forallb]. unfold check_comparison.
    rewrite Heval, andb_true_r. by apply bool_decide_eq_true_2.
  - intros r. cbn [holds_conjunction forallb]. unfold holds_comparison.
    by rewrite Heval, andb_true_r.
Qed.

(** The verdict of the check: the first row in conflict, if any. *)
Lemma unicity_check_spec res user_id payload d :
  (forall f, f ∈ unique_fields res -> is_payload_field res f = true) ->
  "filters" ∉ unique_fields res ->
  identity_is_text res payload ->
  unicity_check res user_id payload d
  = match filter (fun kv => conflicts res user_id payload kv = true)
            (map_to_list (tbl_records d)) with
    | [] => Pass
    | kv :: _ => Conflict (key_id kv.1)
    end.
Proof.
  intros Hpayload Hfilters Hid.
  destruct (unicity_disjunction_eval res user_id payload Hpayload Hfilters
              (unique_fields res) (fun f H => H)) as [Hcheck Hholds].
  destruct (unicity_exclusion_eval res user_id payload Hid) as [Hxc Hxh].
  destruct (unicity_placeholders_collection res user_id payload) as [Hu Hr].
  assert (filter (fun kv => conflicts res user_id payload kv = true)
            (map_to_list (tbl_records d))
          = filter
              (fun kv => in_collection user_id (name res) kv.1 = true
                 ∧ holds_disjunction (unicity_placeholders res user_id payload)
                     (unicity_ast res payload (unique_fields res))
                     (record_row kv) = true
                 ∧ from_option
                     (fun c => holds_conjunction
                                 (unicity_placeholders res user_id payload) c
                                 (record_row kv))
                     true (unicity_exclusion res payload) = true)
              (map_to_list (tbl_records d))) as ->.
  { apply list_filter_iff. intros kv. rewrite Hholds, Hxh. unfold conflicts.
    rewrite !andb_true_iff. cbn [record_row row_data row_id]. tauto. }
  unfold unicity_check, select_conflict. rewrite Hu, Hr.
  destruct (unicity_ast res payload (unique_fields res)) as [|c cs] eqn:East.
  - match goal with
    | |- _ = match filter ?P ?l with _ => _ end =>
        assert (filter P l = []) as ->; [|done]
    end.
    induction (map_to_list (tbl_records d)) as [|kv l IH]; [done|].
    rewrite filter_cons. by destruct (decide _) as [(_ & [=] & _)|].
  - rewrite Hcheck, Hxc. cbn [andb negb].
    match goal with
    | |- context [filter ?P ?l] => by destruct (filter P l)
    end.
Qed.

(** A write raises [UnicityError] exactly when a row is in conflict, and
    the error carries such a row as [get] returns it. *)
Lemma write_outcome_unicity res user_id record_id payload must_be_new w :
  (forall f, f ∈ unique_fields res -> is_payload_field res f = true) ->
  "filters" ∉ unique_fields res ->
  identity_is_text res payload ->
  let result := write_outcome res user_id record_id payload must_be_new w in
  ((exists f existing, result.2 = inl (UnicityError f existing))
   <-> exists k v, tbl_records (db w) !! k = Some v
                   /\ conflicts res user_id payload (k, v) = true)
  /\ (forall f existing, result.2 = inl (UnicityError f existing) ->
        db result.1 = db w
        /\ exists k v,
             tbl_records (db w) !! k = Some v
             /\ conflicts res user_id payload (k, v) = true
             /\ existing = returned_record res v.2 (key_id k) v.1).
Proof.
  intros Hpayload Hfilters Hid. unfold write_outcome.
  rewrite (unicity_check_spec res user_id payload (db w)) by done.
  destruct (filter (fun kv => conflicts res user_id payload kv = true)
              (map_to_list (tbl_records (db w)))) as [|[k v] rest] eqn:E.
  - assert (forall k v, tbl_records (db w) !! k = Some v ->
              conflicts res user_id payload (k, v) = true -> False) as Hnone.
    { intros k v Hkv Hc.
      assert ((k, v) ∈ filter (fun kv => conflicts res user_id payload kv = true)
                         (map_to_list (tbl_records (db w)))) as Hin
        by (apply list_elem_of_filter; split;
            [done|by apply elem_of_map_to_list]).
      rewrite E in Hin. by apply elem_of_nil in Hin. }
    assert (forall f existing,
              (if must_be_new
                  && bool_decide (is_Some (tbl_records (db w)
                                             !! (record_id, user_id, name res)))
               then scope_error IntegrityError (log (EvGetConn false) w)
               else
                 match commit_fault w with
                 | Some e => scope_error e (log (EvGetConn false) w)
                 | None =>
                     (set_heap
                        (<[fresh (dom (heap w)) :=
                             returned_record res payload record_id
                               (bump_timestamp (db w) user_id (name res))]>
                           (heap w))
                        (log EvPutConn
                           (log EvCommit
                              (set_db
                                 (set_records
                                    <[(record_id, user_id, name res) :=
                                        (bump_timestamp (db w) user_id (name res),
                                         payload)]> (db w))
                                 (log (EvGetConn false) w)))),
                      inr (fresh (dom (heap w))))
                 end).2 <> inl (UnicityError f existing)) as Hno.
    { intros f existing. destruct (must_be_new && _); [done|].
      destruct (commit_fault w) as [e|]; [|done].
      unfold scope_error. by destruct (connection_closed e). }
    cbn zeta. split.
    + split.
      * intros (f & existing & H). by apply Hno in H.
      * intros (k & v & Hkv & Hc). by destruct (Hnone k v).
    + intros f existing H. by apply Hno in H.
  - assert ((k, v) ∈ filter (fun kv => conflicts res user_id payload kv = true)
                       (map_to_list (tbl_records (db w)))) as Hin
      by (rewrite E; left).
    apply list_elem_of_filter in Hin as [Hc Hkv].
    apply elem_of_map_to_list in Hkv.
    assert (k = (key_id k, user_id, name res)) as Hk.
    { unfold conflicts in Hc. rewrite !andb_true_iff in Hc.
      destruct Hc as [[Hcoll _] _]. by apply key_in_collection in Hcoll. }
    cbn [fst]. rewrite <- Hk, Hkv. cbn. split.
    + split; [intros _; by exists k, v|intros _; eauto].
    + intros f existing [= <- <-]. split; [done|]. by exists k, v.
Qed.

(** C3 (as amended): for unique fields that are payload fields, none of
    them called [filters], and a candidate whose identity, if it has one,
    is a string, [create] and [update] raise [UnicityError] exactly when
    some record of the collection, other than the one with the candidate's
    own identity, reads on some unique field that the candidate holds with
    a value other than null as the text of the candidate's value (a field
    the record lacks or holds as null reads as the empty text, a value
    that is not a string as its JSON text); the error carries such a
    record as [get] returns it, and nothing is written. *)
Theorem unicity_error_iff_conflict (res : resource)
    (user_id record_id : string) (record : loc) (payload : pydict) (w : world) :
  heap w !! record = Some payload ->
  pool_fault w = None ->
  (forall f, f ∈ unique_fields res -> is_payload_field res f = true) ->
  "filters" ∉ unique_fields res ->
  identity_is_text res payload ->
  let conflict :=
    exists k v, tbl_records (db w) !! k = Some v
                /\ conflicts res user_id payload (k, v) = true in
  let carried existing :=
    exists k v, tbl_records (db w) !! k = Some v
                /\ conflicts res user_id payload (k, v) = true
                /\ existing
                   = <[modified_field res := JNum v.1]>
                       (<[id_field res := JStr (key_id k)]> v.2) in
  let created := create res user_id record w in
  let updated := update res user_id record_id record w in
  ((exists f existing, created.2 = inl (UnicityError f existing)) <-> conflict)
  /\ ((exists f existing, updated.2 = inl (UnicityError f existing)) <-> conflict)
  /\ (forall f existing, created.2 = inl (UnicityError f existing) ->
        db created.1 = db w /\ carried existing)
  /\ (forall f existing, updated.2 = inl (UnicityError f existing) ->
        db updated.1 = db w /\ carried existing).
Proof.
  intros Hrec Hpool Hpayload Hfilters Hid conflict carried created updated.
  subst created updated.
  rewrite (create_run res user_id record payload) by done.
  rewrite (update_run res user_id record_id record payload) by done.
  destruct (write_outcome_unicity res user_id (id_generator res (ids_drawn w))
              payload true (set_ids_drawn (S (ids_drawn w)) w)
              Hpayload Hfilters Hid) as [Hc1 Hc2].
  destruct (write_outcome_unicity res user_id record_id payload false w
              Hpayload Hfilters Hid) as [Hu1 Hu2].
  split; [exact Hc1|]. split; [exact Hu1|].
  split; [exact Hc2|exact Hu2].
Qed.

(** C3, as it was stated, fails: a candidate whose [email] is the empty
    string is refused because of a record that has no [email] at all, so
    that no record holds a value equal to the candidate's. *)
Lemma unicity_error_without_equal_value :
  (exists existing,
     (create articles "alice" 0%nat lonely_world).2
     = inl (UnicityError "email" existing))
  /\ forallb (fun kv => negb (holds_equal_value articles "alice"
                                {[ "email" := JStr "" ]} kv))
       (map_to_list (tbl_records (db lonely_world))) = true.
Proof. split; [eexists; vm_compute; reflexivity|vm_compute; reflexivity]. Qed.

Lemma unicity_error_iff_conflict_witness :
  (exists f existing,
     (create articles "alice" 0%nat lonely_world).2
     = inl (UnicityError f existing))
  <-> exists k v, tbl_records (db lonely_world) !! k = Some v
                  /\ conflicts articles "alice" {[ "email" := JStr "" ]} (k, v)
                     = true.
Proof.
  apply (unicity_error_iff_conflict articles "alice" "uuid0" 0%nat
           {[ "email" := JStr "" ]} lonely_world).
  - reflexivity.
  - reflexivity.
  - intros f ->%list_elem_of_singleton. reflexivity.
  - intros [=]%list_elem_of_singleton.
  - exact I.
Defined.

(** * Properties of the schema migrator *)

Lemma same_state_refl w : same_state w w.
Proof. by repeat split. Qed.

Lemma executed_files_app tr tr' :
  executed_files (tr ++ tr') = (executed_files tr ++ executed_files tr')%list.
Proof. unfold executed_files. apply omap_app. Qed.

Ltac same_state_trace :=
  repeat split; cbn; try done;
  by rewrite ?executed_files_app, ?app_nil_r.

(** What [_get_installed_version] does: two scopes that only read. *)
Lemma get_installed_version_run w :
  pool_fault w = None -> commit_fault w = None ->
  exists w', _get_installed_version w = (w', read_version (db w))
             /\ same_state w w'.
Proof.
  intros Hpool Hcommit. destruct w as [d h n tr pf cf].
  cbn in Hpool, Hcommit. subst pf cf.
  unfold _get_installed_version, read_version, connect, bind, execute, ret,
    select_metadata_table, select_schema_version, select_metadata_count.
  cbn [pool_fault commit_fault log db working outer autocommit set_db
       tbl_metadata trace heap ids_drawn].
  destruct (tbl_metadata d) as [rows|] eqn:Emeta;
    cbn [length Nat.ltb Nat.leb negb pool_fault commit_fault log db working
         outer autocommit set_db tbl_metadata trace heap ids_drawn].
  - rewrite Emeta.
    destruct (order_by _ _) as [|version versions].
    + cbn [pool_fault commit_fault log db working outer autocommit set_db
         tbl_metadata trace heap ids_drawn fetchone ret].
      rewrite Emeta.
      cbn [pool_fault commit_fault log db working outer autocommit set_db
         tbl_metadata trace heap ids_drawn fetchone ret].
      destruct (Z.of_nat (length rows) =? 0);
        (eexists; split; [reflexivity|same_state_trace]).
    + destruct (parse_int version);
        (eexists; split; [reflexivity|same_state_trace]).
  - eexists; split; [reflexivity|same_state_trace].
Qed.

(** What [_execute_sql_file] does with a script that succeeds. *)
Lemma execute_sql_file_run sql_file path w d' rows :
  pool_fault w = None -> commit_fault w = None ->
  sql_file path (db w) = inr (d', rows) ->
  exists w', _execute_sql_file sql_file path w = (w', inr tt)
             /\ db w' = d'
             /\ pool_fault w' = None /\ commit_fault w' = None
             /\ executed_files (trace w')
                = (executed_files (trace w) ++ [path])%list.
Proof.
  intros Hpool Hcommit Hrun. destruct w as [d h n tr pf cf].
  cbn in Hpool, Hcommit, Hrun. subst pf cf.
  unfold _execute_sql_file, connect, bind, execute, ret.
  cbn [pool_fault commit_fault log db working outer autocommit set_db
       trace heap ids_drawn].
  rewrite Hrun.
  cbn [pool_fault commit_fault log db working outer autocommit set_db
       trace heap ids_drawn].
  eexists. split; [reflexivity|].
  cbn. repeat split.
  by rewrite !executed_files_app, !app_nil_r.
Qed.

Lemma same_state_faults w w' :
  same_state w w' -> pool_fault w = None -> commit_fault w = None ->
  pool_fault w' = None /\ commit_fault w' = None.
Proof. intros (_ & Hp & Hc & _) ? ?. split; congruence. Qed.

Lemma seqZ_step (m : Z) (n : nat) :
  seqZ m (Z.of_nat (S n)) = m :: seqZ (m + 1) (Z.of_nat n).
Proof.
  rewrite seqZ_cons by lia. f_equal. f_equal; lia.
Qed.

(** The loop when every script does its step: the scripts of the steps
    from [v] on are executed in order, and the last one leaves the version
    after the last step. *)
Lemma migrate_loop_run sql_file (n : nat) : forall (v : Z) (w : world),
  pool_fault w = None -> commit_fault w = None ->
  read_version (db w) = inr (Some v) ->
  (forall u d, v <= u < v + Z.of_nat n ->
     read_version d = inr (Some u) ->
     exists d' rows, sql_file (migration_path u) d = inr (d', rows)
                     /\ read_version d' = inr (Some (u + 1))) ->
  exists w',
    migrate_loop sql_file (map (fun v => (v, v + 1)) (seqZ v (Z.of_nat n))) w
    = (w', inr tt)
    /\ pool_fault w' = None /\ commit_fault w' = None
    /\ executed_files (trace w')
       = (executed_files (trace w)
          ++ map migration_path (seqZ v (Z.of_nat n)))%list
    /\ read_version (db w') = inr (Some (v + Z.of_nat n)).
Proof.
  induction n as [|n IH]; intros v w Hpool Hcommit Hversion Hscripts.
  - exists w. change (seqZ v (Z.of_nat 0)) with (@nil Z).
    cbn [map migrate_loop]. rewrite app_nil_r, Z.add_0_r. by repeat split.
  - rewrite seqZ_step. cbn [map migrate_loop fst snd].
    destruct (get_installed_version_run w Hpool Hcommit)
      as (w1 & Hread & Hsame).
    destruct (same_state_faults _ _ Hsame Hpool Hcommit) as [Hpool1 Hcommit1].
    destruct Hsame as (Hdb1 & _ & _ & Hfiles1).
    rewrite bind_run, Hread, Hversion. cbv beta iota.
    rewrite bool_decide_eq_true_2 by done.
    destruct (Hscripts v (db w1)) as (d' & rows & Hrun & Hversion');
      [lia | by rewrite Hdb1 |].
    destruct (execute_sql_file_run sql_file (migration_path v) w1 d' rows
                Hpool1 Hcommit1 Hrun)
      as (w2 & Hexec & Hdb2 & Hpool2 & Hcommit2 & Hfiles2).
    rewrite bind_run. fold (migration_path v). rewrite Hexec. cbv beta iota.
    destruct (IH (v + 1) w2 Hpool2 Hcommit2) as (w3 & Hloop & ? & ? & Hfiles3 & Hv3).
    + by rewrite Hdb2.
    + intros u d Hu. apply Hscripts. lia.
    + exists w3. rewrite Hloop. repeat split; try done.
      * rewrite Hfiles3, Hfiles2, Hfiles1. cbn [map].
        by rewrite <- app_assoc.
      * rewrite Hv3. do 2 f_equal. lia.
Qed.

(** The loop in front of a version that is not the expected one. *)
Lemma migrate_loop_mismatch sql_file expected next rest found w :
  pool_fault w = None -> commit_fault w = None ->
  read_version (db w) = inr found ->
  found <> Some expected ->
  exists w',
    migrate_loop sql_file ((expected, next) :: rest) w
    = (w', inl (AssertionError
                  ("Expected version " +:+ pretty expected
                   +:+ ". Found version " +:+ str_version found +:+ ".")))
    /\ same_state w w'.
Proof.
  intros Hpool Hcommit Hversion Hfound.
  destruct (get_installed_version_run w Hpool Hcommit) as (w1 & Hread & Hsame).
  exists w1. split; [|done].
  cbn [migrate_loop fst snd]. rewrite bind_run, Hread, Hversion.
  cbv beta iota. rewrite bool_decide_eq_false_2 by congruence. done.
Qed.

(** The loop when the script of the step from [v + n] does not leave the
    version [v + n + 1] and a further step follows: the scripts up to that
    one are executed, and the next step fails its assertion. *)
Lemma migrate_loop_aborts sql_file found (m n : nat) : forall (v : Z) (w : world),
  pool_fault w = None -> commit_fault w = None ->
  read_version (db w) = inr (Some v) ->
  (forall u d, v <= u < v + Z.of_nat n ->
     read_version d = inr (Some u) ->
     exists d' rows, sql_file (migration_path u) d = inr (d', rows)
                     /\ read_version d' = inr (Some (u + 1))) ->
  (forall d, read_version d = inr (Some (v + Z.of_nat n)) ->
     exists d' rows,
       sql_file (migration_path (v + Z.of_nat n)) d = inr (d', rows)
       /\ read_version d' = inr found) ->
  found <> Some (v + Z.of_nat n + 1) ->
  exists w',
    migrate_loop sql_file
      (map (fun v => (v, v + 1)) (seqZ v (Z.of_nat (n + S (S m))))) w
    = (w', inl (AssertionError
                  ("Expected version " +:+ pretty (v + Z.of_nat n + 1)
                   +:+ ". Found version " +:+ str_version found +:+ ".")))
    /\ executed_files (trace w')
       = (executed_files (trace w)
          ++ map migration_path (seqZ v (Z.of_nat (S n))))%list.
Proof.
  induction n as [|n IH];
    intros v w Hpool Hcommit Hversion Hscripts Hbad Hfound.
  - change (0 + S (S m))%nat with (S (S m)).
    rewrite seqZ_step. cbn [map]. cbn [migrate_loop fst snd].
    destruct (get_installed_version_run w Hpool Hcommit)
      as (w1 & Hread & Hsame).
    destruct (same_state_faults _ _ Hsame Hpool Hcommit) as [Hpool1 Hcommit1].
    destruct Hsame as (Hdb1 & _ & _ & Hfiles1).
    rewrite bind_run, Hread, Hversion. cbv beta iota.
    rewrite bool_decide_eq_true_2 by done.
    change (Z.of_nat 0) with 0 in Hbad, Hfound. rewrite Z.add_0_r in Hbad, Hfound.
    destruct (Hbad (db w1)) as (d' & rows & Hrun & Hversion');
      [by rewrite Hdb1 |].
    destruct (execute_sql_file_run sql_file (migration_path v) w1 d' rows
                Hpool1 Hcommit1 Hrun)
      as (w2 & Hexec & Hdb2 & Hpool2 & Hcommit2 & Hfiles2).
    rewrite bind_run. fold (migration_path v). rewrite Hexec. cbv beta iota.
    rewrite seqZ_step. cbn [map].
    destruct (migrate_loop_mismatch sql_file (v + 1) (v + 1 + 1)
                (map (fun v => (v, v + 1)) (seqZ (v + 1 + 1) (Z.of_nat m)))
                found w2 Hpool2 Hcommit2)
      as (w3 & Hloop & Hsame3); [by rewrite Hdb2 | done |].
    exists w3. rewrite Hloop. rewrite Z.add_0_r. split; [done|].
    destruct Hsame3 as (_ & _ & _ & Hfiles3).
    by rewrite Hfiles3, Hfiles2, Hfiles1.
  - change (S n + S (S m))%nat with (S (n + S (S m))).
    rewrite seqZ_step. cbn [map]. cbn [migrate_loop fst snd].
    destruct (get_installed_version_run w Hpool Hcommit)
      as (w1 & Hread & Hsame).
    destruct (same_state_faults _ _ Hsame Hpool Hcommit) as [Hpool1 Hcommit1].
    destruct Hsame as (Hdb1 & _ & _ & Hfiles1).
    rewrite bind_run, Hread, Hversion. cbv beta iota.
    rewrite bool_decide_eq_true_2 by done.
    destruct (Hscripts v (db w1)) as (d' & rows & Hrun & Hversion');
      [lia | by rewrite Hdb1 |].
    destruct (execute_sql_file_run sql_file (migration_path v) w1 d' rows
                Hpool1 Hcommit1 Hrun)
      as (w2 & Hexec & Hdb2 & Hpool2 & Hcommit2 & Hfiles2).
    rewrite bind_run. fold (migration_path v). rewrite Hexec. cbv beta iota.
    replace (v + Z.of_nat (S n)) with (v + 1 + Z.of_nat n) in * by lia.
    destruct (IH (v + 1) w2 Hpool2 Hcommit2) as (w3 & Hloop & Hfiles3);
      [by rewrite Hdb2 | | done | done |].
    + intros u d Hu. apply Hscripts. lia.
    + exists w3. rewrite Hloop. split; [done|].
      rewrite Hfiles3, Hfiles2, Hfiles1.
      rewrite (seqZ_step v (S n)). cbn [map]. by rewrite <- app_assoc.
Qed.

Lemma check_database_encoding_run w :
  pool_fault w = None -> commit_fault w = None ->
  exists w',
    _check_database_encoding w
    = (w', if String.eqb (lower (db_encoding (db w))) "utf8" then inr tt
           else inl (AssertionError
                       ("Unexpected database encoding "
                        +:+ lower (db_encoding (db w)))))
    /\ same_state w w'.
Proof.
  intros Hpool Hcommit. destruct w as [d h n tr pf cf].
  cbn in Hpool, Hcommit. subst pf cf.
  unfold _check_database_encoding, fetchone, connect, bind, execute, ret,
    raise, select_encoding.
  cbn [pool_fault commit_fault log db working outer autocommit set_db
       trace heap ids_drawn].
  destruct (String.eqb _ _);
    (eexists; split; [reflexivity|same_state_trace]).
Qed.

Lemma check_database_timezone_run w :
  pool_fault w = None -> commit_fault w = None ->
  exists w', _check_database_timezone w = (w', inr tt) /\ same_state w w'.
Proof.
  intros Hpool Hcommit. destruct w as [d h n tr pf cf].
  cbn in Hpool, Hcommit. subst pf cf.
  unfold _check_database_timezone, fetchone, connect, bind, execute, ret,
    select_timezone.
  cbn [pool_fault commit_fault log db working outer autocommit set_db
       trace heap ids_drawn].
  eexists; split; [reflexivity|same_state_trace].
Qed.

Lemma initialize_schema_steps sql_file w v :
  pool_fault w = None -> commit_fault w = None ->
  v <> 0 -> read_version (db w) = inr (Some v) ->
  exists w1,
    same_state w w1
    /\ initialize_schema sql_file w
       = migrate_loop sql_file
           (map (fun v => (v, v + 1)) (seqZ v (schema_version - v))) w1.
Proof.
  intros Hpool Hcommit Hv Hversion.
  destruct (get_installed_version_run w Hpool Hcommit) as (w1 & Hread & Hsame).
  exists w1. split; [done|].
  unfold initialize_schema. rewrite bind_run, Hread, Hversion. cbv beta iota.
  by destruct v.
Qed.

Lemma initialize_schema_fresh sql_file w d' rows :
  pool_fault w = None -> commit_fault w = None ->
  tbl_metadata (db w) = None ->
  lower (db_encoding (db w)) = "utf8" ->
  sql_file "schema.sql" (db w) = inr (d', rows) ->
  exists w',
    initialize_schema sql_file w = (w', inr tt)
    /\ db w' = d'
    /\ executed_files (trace w')
       = (executed_files (trace w) ++ ["schema.sql"])%list.
Proof.
  intros Hpool Hcommit Hmeta Hencoding Hrun.
  destruct (get_installed_version_run w Hpool Hcommit) as (w1 & Hread & Hsame).
  destruct (same_state_faults _ _ Hsame Hpool Hcommit) as [Hpool1 Hcommit1].
  destruct Hsame as (Hdb1 & _ & _ & Hfiles1).
  destruct (check_database_encoding_run w1 Hpool1 Hcommit1)
    as (w2 & Henc & Hsame2).
  destruct (same_state_faults _ _ Hsame2 Hpool1 Hcommit1)
    as [Hpool2 Hcommit2].
  destruct Hsame2 as (Hdb2 & _ & _ & Hfiles2).
  destruct (check_database_timezone_run w2 Hpool2 Hcommit2)
    as (w3 & Htz & Hsame3).
  destruct (same_state_faults _ _ Hsame3 Hpool2 Hcommit2)
    as [Hpool3 Hcommit3].
  destruct Hsame3 as (Hdb3 & _ & _ & Hfiles3).
  destruct (execute_sql_file_run sql_file "schema.sql" w3 d' rows
              Hpool3 Hcommit3) as (w4 & Hexec & Hdb4 & _ & _ & Hfiles4).
  { by rewrite Hdb3, Hdb2, Hdb1. }
  exists w4. unfold initialize_schema.
  rewrite bind_run, Hread. unfold read_version. rewrite Hmeta.
  cbv beta iota. rewrite bind_run, Henc, Hdb1, Hencoding.
  change (String.eqb "utf8" "utf8") with true. cbv beta iota.
  rewrite bind_run, Htz. cbv beta iota. rewrite Hexec.
  split; [done|]. split; [done|].
  by rewrite Hfiles4, Hfiles3, Hfiles2, Hfiles1.
Qed.

(** C7.  [initialize_schema], in a world whose pool gives connections
    and whose commits succeed.  (1) With the version [v] installed
    ([v <> 0]: the code reads version 0 as no schema) and scripts that
    each record the version after theirs, the scripts of the steps
    [v -> v + 1], ..., [target - 1 -> target] are executed in that order,
    none skipped, and the target version is installed.  (2) When the
    script of a step [k] leaves another version than [k + 1] and a step
    follows, the scripts up to [k] have been executed and the version
    read again before the next step fails the assertion, which ends the
    migration.  (3) With the target version (or a later one) installed no
    script is executed and the database is unchanged.  (4) Without any
    schema, in a utf8 database, [schema.sql] alone is executed and the
    database is what that script makes of it. *)
Theorem initialize_schema_migrates sql_file (w : world) :
  pool_fault w = None -> commit_fault w = None ->
  let result := initialize_schema sql_file w in
  (forall v,
     v <> 0 -> v <= schema_version ->
     read_version (db w) = inr (Some v) ->
     (forall u d, v <= u < schema_version ->
        read_version d = inr (Some u) ->
        exists d' rows, sql_file (migration_path u) d = inr (d', rows)
                        /\ read_version d' = inr (Some (u + 1))) ->
     result.2 = inr tt
     /\ executed_files (trace result.1)
        = (executed_files (trace w)
           ++ map migration_path (seqZ v (schema_version - v)))%list
     /\ read_version (db result.1) = inr (Some schema_version))
  /\ (forall v k found,
        v <> 0 -> v <= k -> k + 1 < schema_version ->
        read_version (db w) = inr (Some v) ->
        (forall u d, v <= u < k ->
           read_version d = inr (Some u) ->
           exists d' rows, sql_file (migration_path u) d = inr (d', rows)
                           /\ read_version d' = inr (Some (u + 1))) ->
        (forall d, read_version d = inr (Some k) ->
           exists d' rows, sql_file (migration_path k) d = inr (d', rows)
                           /\ read_version d' = inr found) ->
        found <> Some (k + 1) ->
        result.2
        = inl (AssertionError
                 ("Expected version " +:+ pretty (k + 1)
                  +:+ ". Found version " +:+ str_version found +:+ "."))
        /\ executed_files (trace result.1)
           = (executed_files (trace w)
              ++ map migration_path (seqZ v (k - v + 1)))%list)
  /\ (forall v,
        schema_version <= v ->
        read_version (db w) = inr (Some v) ->
        result.2 = inr tt
        /\ db result.1 = db w
        /\ executed_files (trace result.1) = executed_files (trace w))
  /\ (forall d' rows,
        tbl_metadata (db w) = None ->
        lower (db_encoding (db w)) = "utf8" ->
        sql_file "schema.sql" (db w) = inr (d', rows) ->
        result.2 = inr tt
        /\ db result.1 = d'
        /\ executed_files (trace result.1)
           = (executed_files (trace w) ++ ["schema.sql"])%list).
Proof.
  intros Hpool Hcommit result. subst result.
  split; [|split; [|split]].
  - intros v Hv Hle Hversion Hscripts.
    destruct (initialize_schema_steps sql_file w v Hpool Hcommit Hv Hversion)
      as (w1 & Hsame & ->).
    destruct (same_state_faults _ _ Hsame Hpool Hcommit) as [Hpool1 Hcommit1].
    destruct Hsame as (Hdb1 & _ & _ & Hfiles1).
    replace (schema_version - v) with (Z.of_nat (Z.to_nat (schema_version - v)))
      by lia.
    destruct (migrate_loop_run sql_file (Z.to_nat (schema_version - v)) v w1
                Hpool1 Hcommit1) as (w2 & -> & _ & _ & Hfiles2 & Hversion2).
    + by rewrite Hdb1.
    + intros u d Hu. apply Hscripts. lia.
    + cbn [fst snd]. split; [done|]. split.
      * by rewrite Hfiles2, Hfiles1.
      * rewrite Hversion2. do 2 f_equal. lia.
  - intros v k found Hv Hle Hlt Hversion Hscripts Hbad Hfound.
    destruct (initialize_schema_steps sql_file w v Hpool Hcommit Hv Hversion)
      as (w1 & Hsame & ->).
    destruct (same_state_faults _ _ Hsame Hpool Hcommit) as [Hpool1 Hcommit1].
    destruct Hsame as (Hdb1 & _ & _ & Hfiles1).
    replace (schema_version - v)
      with (Z.of_nat (Z.to_nat (k - v)
                      + S (S (Z.to_nat (schema_version - k - 2))))) by lia.
    replace (k - v + 1) with (Z.of_nat (S (Z.to_nat (k - v)))) by lia.
    assert (Hk : v + Z.of_nat (Z.to_nat (k - v)) = k) by lia.
    destruct (migrate_loop_aborts sql_file found
                (Z.to_nat (schema_version - k - 2)) (Z.to_nat (k - v)) v w1
                Hpool1 Hcommit1) as (w2 & Hloop & Hfiles2).
    + by rewrite Hdb1.
    + intros u d Hu. apply Hscripts. lia.
    + by rewrite Hk.
    + by rewrite Hk.
    + rewrite Hloop, Hk. cbn [fst snd]. split; [done|].
      by rewrite Hfiles2, Hfiles1.
  - intros v Hle Hversion.
    assert (Hv : v <> 0) by (unfold schema_version in Hle; lia).
    destruct (initialize_schema_steps sql_file w v Hpool Hcommit Hv Hversion)
      as (w1 & Hsame & ->).
    destruct Hsame as (Hdb1 & _ & _ & Hfiles1).
    replace (seqZ v (schema_version - v)) with (@nil Z).
    + by cbn.
    + unfold seqZ. by replace (Z.to_nat (schema_version - v)) with 0%nat by lia.
  - intros d' rows Hmeta Hencoding Hrun.
    destruct (initialize_schema_fresh sql_file w d' rows Hpool Hcommit Hmeta
                Hencoding Hrun) as (w' & -> & Hdb & Hfiles).
    by cbn [fst snd].
Qed.

Lemma sample_scripts_migrate u d :
  1 <= u < schema_version ->
  read_version d = inr (Some u) ->
  exists d' rows, sample_scripts (migration_path u) d = inr (d', rows)
                  /\ read_version d' = inr (Some (u + 1)).
Proof.
  intros Hu Hversion. unfold schema_version in Hu.
  assert (Hcases : u = 1 \/ u = 2 \/ u = 3 \/ u = 4 \/ u = 5) by lia.
  unfold sample_scripts.
  destruct Hcases as [->|[->|[->|[->| ->]]]];
    (replace (String.eqb (migration_path _) "schema.sql") with false
       by (by vm_compute));
    rewrite Hversion; do 2 eexists; (split; [reflexivity|]);
    by vm_compute.
Qed.

Lemma idle_scripts_stay k d :
  read_version d = inr (Some k) ->
  exists d' rows, idle_scripts (migration_path k) d = inr (d', rows)
                  /\ read_version d' = inr (Some k).
Proof. intros Hversion. by exists d, []. Qed.

Lemma initialize_schema_migrates_witness :
  ((initialize_schema sample_scripts world_at_version_4).2 = inr tt
   /\ executed_files (trace (initialize_schema sample_scripts world_at_version_4).1)
      = ["migrations/migration_004_005.sql"; "migrations/migration_005_006.sql"]
   /\ read_version (db (initialize_schema sample_scripts world_at_version_4).1)
      = inr (Some 6))
  /\ ((initialize_schema idle_scripts world_at_version_4).2
      = inl (AssertionError "Expected version 5. Found version 4.")
      /\ executed_files (trace (initialize_schema idle_scripts world_at_version_4).1)
         = ["migrations/migration_004_005.sql"])
  /\ ((initialize_schema sample_scripts world_without_schema).2 = inr tt
      /\ db (initialize_schema sample_scripts world_without_schema).1
         = mkDatabase ∅ ∅ (Some [("storage_schema_version", "6")]) "UTF8" "UTC"
      /\ executed_files
           (trace (initialize_schema sample_scripts world_without_schema).1)
         = ["schema.sql"]).
Proof.
  pose proof (initialize_schema_migrates sample_scripts world_at_version_4
                eq_refl eq_refl) as Hsteps.
  pose proof (initialize_schema_migrates idle_scripts world_at_version_4
                eq_refl eq_refl) as Hidle.
  pose proof (initialize_schema_migrates sample_scripts world_without_schema
                eq_refl eq_refl) as Hfresh.
  cbv zeta in Hsteps, Hidle, Hfresh.
  destruct Hsteps as (Hsteps & _), Hidle as (_ & Hidle & _),
    Hfresh as (_ & _ & _ & Hfresh).
  split; [|split].
  - apply (Hsteps 4); [lia | unfold schema_version; lia | reflexivity |].
    intros u d Hu. apply sample_scripts_migrate. lia.
  - apply (Hidle 4 4 (Some 4));
      [lia | lia | unfold schema_version; lia | reflexivity | lia | | discriminate].
    intros d. apply idle_scripts_stay.
  - apply (Hfresh _ []); reflexivity.
Defined.

(** * The theorems on sample data *)

Lemma create_update_leave_input_witness :
  heap (create articles "alice" 0%nat sample_world).1 !! 0%nat
  = Some {[ "email" := JStr "e@f.org" ]}
  /\ heap (update articles "alice" "uuid0" 0%nat sample_world).1 !! 0%nat
     = Some {[ "email" := JStr "e@f.org" ]}.
Proof.
  pose proof (create_update_leave_input articles "alice" "uuid0" 0%nat
                {[ "email" := JStr "e@f.org" ]} sample_world eq_refl)
    as [Hcreate Hupdate].
  cbv zeta in Hcreate, Hupdate.
  split; [exact (proj1 Hcreate)|exact (proj1 Hupdate)].
Defined.

Lemma update_is_upsert_witness :
  (forall rid,
     (update articles "alice" "uuid9" 0%nat sample_world).2
     <> inl (RecordNotFoundError rid))
  /\ exists copy,
       (update articles "alice" "uuid9" 0%nat sample_world).2 = inr copy.
Proof.
  pose proof (update_is_upsert articles "alice" "uuid9" 0%nat
                {[ "email" := JStr "e@f.org" ]} sample_world eq_refl)
    as Hupsert.
  cbv zeta in Hupsert. destruct Hupsert as [Hfound Hrest].
  split; [exact Hfound|].
  destruct (Hrest eq_refl) as (_ & _ & Hpasses).
  apply Hpasses; [by vm_compute|reflexivity].
Defined.

Lemma delete_leaves_tombstone_witness :
  exists ts,
    (delete articles "alice" "uuid0" lonely_world).2
    = inr (<[ "deleted" := JBool true ]>
             (<[ "id" := JStr "uuid0" ]> (<[ "last_modified" := JNum ts ]> ∅)))
    /\ 1 < ts
    /\ (delete articles "alice" "uuid0"
          (delete articles "alice" "uuid0" lonely_world).1).2
       = inl (RecordNotFoundError "uuid0").
Proof.
  pose proof (delete_leaves_tombstone articles "alice" "uuid0" lonely_world
                eq_refl) as Hdelete.
  cbv zeta in Hdelete. destruct Hdelete as (_ & Hlive & _).
  destruct (Hlive (1, {[ "n" := JNum 1 ]})) as (ts & Hout & _ & _ & Hlater & Hagain & _);
    [by vm_compute | by vm_compute | reflexivity |].
  exists ts. split; [exact Hout|]. split; [exact Hlater|exact Hagain].
Defined.

(** * The total count of [get_all] *)

(** C1: on two live records of last_modified 1 and 2, no filter, and the
    pagination rule [last_modified < 1], [get_all] returns the empty page
    with the count 0, although two live records match the filters; with
    the rule [last_modified < 2], whose page holds one record, it returns
    the count 2. *)
Theorem get_all_empty_page_count :
  (get_all (mkPostgreSQL 10) articles "alice" [] []
     [[mkFilter "last_modified" (JNum 1) "<"]] None false sample_world).2
  = inr ([], 0)
  /\ length (matching_records articles "alice" [] (db sample_world)) = 2%nat
  /\ (exists page,
        (get_all (mkPostgreSQL 10) articles "alice" [] []
           [[mkFilter "last_modified" (JNum 2) "<"]] None false sample_world).2
        = inr (page, 2)
        /\ length page = 1%nat).
Proof.
  split; [by vm_compute|]. split; [by vm_compute|].
  eexists. split; by vm_compute.
Qed.

(** ** The count on a page that is not empty *)

Lemma reads_key_not_sort k :
  reads_key k -> forall j : nat, k <> "sort_field_" +:+ pretty j.
Proof.
  unfold reads_key, field_holder_name, value_holder_name.
  intros [-> | [-> | (i & [-> | ->])]] j H; discriminate H.
Qed.

Lemma reads_key_not_rules k :
  reads_key k -> forall l j : nat,
  k <> field_holder_name ("rules_" +:+ pretty l) j
  /\ k <> value_holder_name ("rules_" +:+ pretty l) j.
Proof.
  unfold reads_key, field_holder_name, value_holder_name.
  intros [-> | [-> | (i & [-> | ->])]] l j; split; intros H;
    try discriminate H; injection H; discriminate.
Qed.

Lemma format_sorting_other res sorting k :
  reads_key k -> (_format_sorting res sorting).2 !! k = None.
Proof.
  intros Hk. unfold _format_sorting.
  pose proof (format_sorting_loop_other res sorting k 0 [] ∅) as Hother.
  destruct (format_sorting_loop res 0 sorting [] ∅) as [sorts holders].
  cbn [snd] in *. rewrite Hother; [done|].
  intros j _. by apply reads_key_not_sort.
Qed.

Lemma format_pagination_other res rules k :
  reads_key k -> (_format_pagination res rules).2 !! k = None.
Proof.
  intros Hk. unfold _format_pagination.
  pose proof (format_pagination_loop_other res rules k 0 [] ∅) as Hother.
  destruct (format_pagination_loop res 0 rules [] ∅) as [texts holders].
  cbn [snd] in *. rewrite Hother; [done|].
  intros l j _. by apply reads_key_not_rules.
Qed.

Lemma format_conditions_reads_key res filters k v :
  (_format_conditions res filters "filters").2 !! k = Some v -> reads_key k.
Proof.
  intros H. apply format_conditions_keys in H as (j & _ & H).
  right. right. by exists j.
Qed.

Lemma binds_parameters_update res user_id filters ph holders :
  (forall k, reads_key k -> holders !! k = None) ->
  binds_parameters res user_id filters ph ->
  binds_parameters res user_id filters (dict_update ph holders).
Proof.
  intros Hnone (Huser & Hname & Hfilters). unfold dict_update.
  split; [|split].
  - rewrite lookup_union_r; [done|]. apply Hnone. by left.
  - rewrite lookup_union_r; [done|]. apply Hnone. right. by left.
  - intros k v Hk. rewrite lookup_union_r; [by apply Hfilters|].
    apply Hnone. by eapply format_conditions_reads_key.
Qed.

Lemma binds_parameters_filters res user_id filters ph :
  binds_parameters res user_id filters ph ->
  binds_filters res user_id filters (conditions_ast res filters "filters") ph.
Proof.
  intros (Huser & Hname & Hfilters). unfold binds_filters, param_text.
  rewrite Huser, Hname. split; [done|]. split; [done|].
  by apply conditions_eval.
Qed.

Lemma binds_parameters_rendered res user_id filters :
  binds_parameters res user_id filters
    (dict_update
       {[ "user_id" := JStr user_id; "resource_name" := JStr (name res) ]}
       (_format_conditions res filters "filters").2).
Proof.
  unfold dict_update.
  assert (forall k, k = "user_id" \/ k = "resource_name" ->
            (_format_conditions res filters "filters").2 !! k = None) as Hnone.
  { intros k Hk. apply eq_None_not_Some. intros [x Hx].
    destruct (format_conditions_keys res filters "filters" k x Hx)
      as (j & _ & Hj).
    destruct (unicity_holder_not_collection "filters" j k Hj).
    destruct Hk; done. }
  split; [|split].
  - rewrite lookup_union_r by auto. reflexivity.
  - rewrite lookup_union_r by auto. reflexivity.
  - intros k v Hk. by apply lookup_union_Some_l.
Qed.

Lemma binds_parameters_none res user_id :
  binds_parameters res user_id []
    {[ "user_id" := JStr user_id; "resource_name" := JStr (name res) ]}.
Proof. split; [reflexivity|]. split; [reflexivity|]. intros k v [=]. Qed.

(** Every result row of the statement carries the number of the live
    records that match the filters. *)
Lemma select_all_count res user_id filters ph fake_deleted cl d d' rows :
  binds_filters res user_id filters (conditions_filter cl) ph ->
  select_all ph fake_deleted cl d = inr (d', rows) ->
  Forall (fun result =>
            result.1
            = Z.of_nat (length (matching_records res user_id filters d)))
    rows.
Proof.
  intros Hbinds. pose proof Hbinds as (Huser & Hname & _).
  unfold select_all. rewrite Huser, Hname.
  destruct (negb (check_clauses ph cl)); [done|]. intros [= _ <-].
  rewrite (filtered_records_matching res user_id filters) by done.
  apply Forall_forall. intros result (a & -> & _)%list_elem_of_fmap.
  reflexivity.
Qed.

(** The scope and the loop of [get_all] over the rows of its statement. *)
Lemma get_all_page self res user_id filters ph fake_deleted cl w page count :
  binds_filters res user_id filters (conditions_filter cl) ph ->
  ((do results <- connect true
      (do rows <- execute (select_all ph fake_deleted cl) ;;
       ret (take (_max_fetch_size self) rows)) ;;
    match results with
    | [] => ret ([], 0)
    | first :: _ =>
        let count_total := first.1 in
        ret (map (fun result : Z * row =>
                    let record := row_data result.2 in
                    let record :=
                      <[id_field res := JStr (row_id result.2)]> record in
                    let record :=
                      <[modified_field res
                        := JNum (row_last_modified result.2)]> record in
                    record) results,
             count_total)
    end) w).2 = inr (page, count) ->
  page <> [] ->
  count = Z.of_nat (length (matching_records res user_id filters (db w))).
Proof.
  intros Hbinds. unfold bind at 1, connect.
  destruct (pool_fault w); [done|].
  unfold bind, execute, ret. cbn [working outer autocommit log db].
  destruct (select_all ph fake_deleted cl (db w)) as [e|[d' rows]] eqn:Hrows.
  { unfold scope_error. cbn. by destruct (connection_closed e). }
  cbn [working outer autocommit log db fst snd].
  pose proof (select_all_count res user_id filters ph fake_deleted cl (db w)
                d' rows Hbinds Hrows) as Hcount.
  destruct (take (_max_fetch_size self) rows) as [|first results] eqn:Htake.
  { cbn. intros [= <- <-]. done. }
  cbn. intros [= _ <-] _.
  assert (first ∈ rows) as Hin.
  { apply (subseteq_take (_max_fetch_size self)). rewrite Htake. by left. }
  by apply (proj1 (Forall_forall _ _) Hcount) in Hin.
Qed.

(** What [get_all] counts: whenever the page it returns holds a
    record, [total_count] is the number of the live records of the
    collection that match the filters, whatever the sorting, the
    pagination rules, the limit and the maximum fetch size are, and
    whether tombstones are included or not. *)
Theorem get_all_counts_matching self res user_id filters sorting
    pagination_rules limit include_deleted w page count :
  (get_all self res user_id filters sorting pagination_rules limit
     include_deleted w).2 = inr (page, count) ->
  page <> [] ->
  count = Z.of_nat (length (matching_records res user_id filters (db w))).
Proof.
  unfold get_all.
  set (base := ({[ "user_id" := JStr user_id;
                   "resource_name" := JStr (name res) ]} : pydict)).
  assert (exists conditions ph,
            (match filters with
             | [] => ([], base)
             | _ =>
                 let '(safe_sql, holders) :=
                   _format_conditions res filters "filters" in
                 (conditions_ast res filters "filters",
                  dict_update base holders)
             end) = (conditions, ph)
            /\ conditions = conditions_ast res filters "filters"
            /\ binds_parameters res user_id filters ph)
    as (conditions & ph & -> & -> & Hph).
  { destruct filters as [|f fs].
    - do 2 eexists. split; [reflexivity|]. split; [reflexivity|].
      apply binds_parameters_none.
    - pose proof (binds_parameters_rendered res user_id (f :: fs)) as Hb.
      destruct (_format_conditions res (f :: fs) "filters")
        as [safe_sql holders].
      do 2 eexists. split; [reflexivity|]. split; [reflexivity|]. exact Hb. }
  assert (exists clause ph',
            (match sorting with
             | [] => (None, ph)
             | _ =>
                 let '(sql, holders) := _format_sorting res sorting in
                 (Some (sorting_ast res sorting), dict_update ph holders)
             end) = (clause, ph')
            /\ binds_parameters res user_id filters ph')
    as (sorting_clause & ph' & -> & Hph').
  { destruct sorting as [|s ss].
    - by do 2 eexists.
    - pose proof (format_sorting_other res (s :: ss)) as Hother.
      destruct (_format_sorting res (s :: ss)) as [sql holders].
      do 2 eexists. split; [reflexivity|].
      by apply binds_parameters_update. }
  assert (exists clause ph'',
            (match pagination_rules with
             | [] => (None, ph')
             | _ =>
                 let '(sql, holders) :=
                   _format_pagination res pagination_rules in
                 (Some (pagination_ast res pagination_rules),
                  dict_update ph' holders)
             end) = (clause, ph'')
            /\ binds_parameters res user_id filters ph'')
    as (pagination & ph'' & -> & Hph'').
  { destruct pagination_rules as [|rule rules].
    - by do 2 eexists.
    - pose proof (format_pagination_other res (rule :: rules)) as Hother.
      destruct (_format_pagination res (rule :: rules)) as [sql holders].
      do 2 eexists. split; [reflexivity|].
      by apply binds_parameters_update. }
  intros Hout Hpage.
  refine (get_all_page self res user_id filters ph'' _ _ w page count _
            Hout Hpage).
  by apply binds_parameters_filters.
Qed.

Lemma get_all_counts_matching_witness :
  2 = Z.of_nat (length (matching_records articles "alice" [] (db sample_world))).
Proof.
  eapply (get_all_counts_matching (mkPostgreSQL 10) articles "alice" [] []
            [[mkFilter "last_modified" (JNum 2) "<"]] None false sample_world
            _ 2).
  - vm_compute. reflexivity.
  - discriminate.
Defined.

(** * Further properties of the record store *)

(** [create] followed by [get]: the record [create] returns is the one a
    [get] of the generated identity returns afterwards. *)
Theorem create_then_get (res : resource) (user_id : string) (record : loc)
    (payload : pydict) (w : world) (copy : loc) :
  heap w !! record = Some payload ->
  (create res user_id record w).2 = inr copy ->
  let created := (create res user_id record w).1 in
  exists stored,
    heap created !! copy = Some stored
    /\ (get res user_id (id_generator res (ids_drawn w)) created).2
       = inr stored.
Proof.
  intros Hrec Hout. destruct (pool_fault w) as [e|] eqn:Hpool.
  { by rewrite (create_pool_fault res user_id record payload w e) in Hout. }
  cbv zeta. rewrite (create_run res user_id record payload) in * by done.
  destruct (write_outcome_stored res user_id
              (id_generator res (ids_drawn w)) payload true
              (set_ids_drawn (S (ids_drawn w)) w) copy Hout)
    as (ts & Hcopy & Hrow & _ & Hpool').
  exists (returned_record res payload (id_generator res (ids_drawn w)) ts).
  split; [done|].
  rewrite get_run, Hpool'. cbn [pool_fault set_ids_drawn]. rewrite Hpool.
  cbv zeta. by rewrite Hrow.
Qed.

Lemma create_then_get_witness :
  exists stored,
    heap (create articles "alice" 0%nat sample_world).1 !! 1%nat = Some stored
    /\ (get articles "alice" "uuid2"
          (create articles "alice" 0%nat sample_world).1).2 = inr stored.
Proof.
  apply (create_then_get articles "alice" 0%nat
           {[ "email" := JStr "e@f.org" ]} sample_world 1%nat);
    by vm_compute.
Defined.

Lemma write_outcome_field res user_id record_id payload must_be_new w f existing :
  (write_outcome res user_id record_id payload must_be_new w).2
  = inl (UnicityError f existing) ->
  f = List.last (unique_fields res) "".
Proof.
  unfold write_outcome.
  destruct (unicity_check res user_id payload (db w)) as [|e|cid].
  - destruct (must_be_new && _).
    { unfold scope_error. by destruct (connection_closed _). }
    destruct (commit_fault w) as [e|]; [|done].
    unfold scope_error. by destruct (connection_closed e).
  - unfold scope_error. by destruct (connection_closed e).
  - destruct (tbl_records (db w) !! (cid, user_id, name res)); [|done].
    by intros [= <- _].
Qed.

(** The field a [UnicityError] names: whichever unique field the conflict
    is on, [create] and [update] name the last unique field of the
    resource. *)
Theorem unicity_error_names_last_field (res : resource)
    (user_id record_id : string) (record : loc) (payload : pydict) (w : world)
    (f : string) (existing : pydict) :
  heap w !! record = Some payload ->
  (create res user_id record w).2 = inl (UnicityError f existing)
  \/ (update res user_id record_id record w).2 = inl (UnicityError f existing) ->
  f = List.last (unique_fields res) "".
Proof.
  intros Hrec Hout. destruct (pool_fault w) as [e|] eqn:Hpool.
  { rewrite (create_pool_fault res user_id record payload w e),
      (update_pool_fault res user_id record_id record payload w e) in Hout
      by done.
    by destruct Hout. }
  rewrite (create_run res user_id record payload),
    (update_run res user_id record_id record payload) in Hout by done.
  destruct Hout as [Hout|Hout]; by apply write_outcome_field in Hout.
Qed.

Lemma unicity_error_names_last_field_witness :
  (create contacts "alice" 0%nat contacts_world).2
  = inl (UnicityError "phone"
           {[ "email" := JStr "a@b.org"; "phone" := JStr "1";
              "id" := JStr "uuid0"; "last_modified" := JNum 1 ]})
  /\ "phone" = List.last (unique_fields contacts) "".
Proof.
  split; [by vm_compute|].
  apply (unicity_error_names_last_field contacts "alice" "uuid0" 0%nat
           {[ "email" := JStr "a@b.org"; "phone" := JStr "2" ]} contacts_world
           "phone"
           {[ "email" := JStr "a@b.org"; "phone" := JStr "1";
              "id" := JStr "uuid0"; "last_modified" := JNum 1 ]});
    [by vm_compute|left; by vm_compute].
Defined.

Lemma write_outcome_confined res user_id record_id payload must_be_new w :
  let result := write_outcome res user_id record_id payload must_be_new w in
  (forall k, k <> (record_id, user_id, name res) ->
     tbl_records (db result.1) !! k = tbl_records (db w) !! k)
  /\ tbl_deleted (db result.1) = tbl_deleted (db w)
  /\ tbl_metadata (db result.1) = tbl_metadata (db w)
  /\ (forall e, result.2 = inl e -> db result.1 = db w)
  /\ (must_be_new = true ->
      forall old, tbl_records (db w) !! (record_id, user_id, name res) = Some old ->
        db result.1 = db w /\ exists e, result.2 = inl e).
Proof.
  unfold write_outcome.
  destruct (unicity_check res user_id payload (db w)) as [|e|cid].
  - destruct (tbl_records (db w) !! (record_id, user_id, name res))
      as [old|] eqn:Hold.
    + destruct must_be_new; cbn [andb].
      * rewrite bool_decide_eq_true_2 by done.
        unfold scope_error. cbn. repeat split; try done. eauto.
      * destruct (commit_fault w) as [e|].
        { unfold scope_error. destruct (connection_closed e); cbn;
            by repeat split. }
        cbn. split; [intros k Hk; by rewrite lookup_insert_ne|].
        by repeat split.
    + rewrite bool_decide_eq_false_2 by (by intros [? ?]).
      rewrite andb_false_r.
      destruct (commit_fault w) as [e|].
      { unfold scope_error. destruct (connection_closed e); cbn;
          by repeat split. }
      cbn. split; [intros k Hk; by rewrite lookup_insert_ne|].
      by repeat split.
  - unfold scope_error. destruct (connection_closed e); cbn;
      repeat split; try done; eauto.
  - destruct (tbl_records (db w) !! (cid, user_id, name res)); cbn;
      repeat split; try done; eauto.
Qed.

(** What [create] and [update] write: at most the row of the one identity
    (the generated one for [create]), never a tombstone; and a call that
    raises leaves the database as it was. *)
Theorem writes_touch_one_row (res : resource) (user_id record_id : string)
    (record : loc) (payload : pydict) (w : world) :
  heap w !! record = Some payload ->
  let created := create res user_id record w in
  let updated := update res user_id record_id record w in
  (forall k, k <> (id_generator res (ids_drawn w), user_id, name res) ->
     tbl_records (db created.1) !! k = tbl_records (db w) !! k)
  /\ (forall k, k <> (record_id, user_id, name res) ->
        tbl_records (db updated.1) !! k = tbl_records (db w) !! k)
  /\ tbl_deleted (db created.1) = tbl_deleted (db w)
  /\ tbl_deleted (db updated.1) = tbl_deleted (db w)
  /\ (forall e, created.2 = inl e -> db created.1 = db w)
  /\ (forall e, updated.2 = inl e -> db updated.1 = db w).
Proof.
  intros Hrec. cbv zeta. destruct (pool_fault w) as [e|] eqn:Hpool.
  { rewrite (create_pool_fault res user_id record payload w e),
      (update_pool_fault res user_id record_id record payload w e) by done.
    by repeat split. }
  rewrite (create_run res user_id record payload),
    (update_run res user_id record_id record payload) by done.
  pose proof (write_outcome_confined res user_id
                (id_generator res (ids_drawn w)) payload true
                (set_ids_drawn (S (ids_drawn w)) w))
    as (Hc1 & Hc2 & _ & Hc3 & _).
  pose proof (write_outcome_confined res user_id record_id payload false w)
    as (Hu1 & Hu2 & _ & Hu3 & _).
  by repeat split.
Qed.

Lemma writes_touch_one_row_witness :
  tbl_records (db (update articles "alice" "uuid0" 0%nat sample_world).1)
    !! ("uuid1", "alice", "article")
  = Some (2, {[ "email" := JStr "c@d.org"; "n" := JNum 2 ]}).
Proof.
  pose proof (writes_touch_one_row articles "alice" "uuid0" 0%nat
                {[ "email" := JStr "e@f.org" ]} sample_world eq_refl)
    as Hrows.
  cbv zeta in Hrows. destruct Hrows as (_ & Hupdated & _).
  rewrite Hupdated; [by vm_compute|discriminate].
Defined.

(** [create] never overwrites: when the generated identity is the one of a
    stored record of the collection, the call raises and the database
    stays as it was; the error is the driver's duplicate key error, as
    [BackendError], when the uniqueness check passes. *)
Theorem create_never_overwrites (res : resource) (user_id : string)
    (record : loc) (payload : pydict) (w : world) (old : Z * pydict) :
  heap w !! record = Some payload ->
  tbl_records (db w) !! (id_generator res (ids_drawn w), user_id, name res)
  = Some old ->
  let created := create res user_id record w in
  db created.1 = db w
  /\ (exists e, created.2 = inl e)
  /\ (pool_fault w = None ->
      unicity_check res user_id payload (db w) = Pass ->
      created.2 = inl (BackendError IntegrityError)).
Proof.
  intros Hrec Hold. cbv zeta. destruct (pool_fault w) as [e|] eqn:Hpool.
  { rewrite (create_pool_fault res user_id record payload w e) by done.
    split; [done|]. split; [eauto|done]. }
  rewrite (create_run res user_id record payload) by done.
  pose proof (write_outcome_confined res user_id
                (id_generator res (ids_drawn w)) payload true
                (set_ids_drawn (S (ids_drawn w)) w))
    as (_ & _ & _ & _ & Hnew).
  destruct (Hnew eq_refl old Hold) as [Hdb Herr].
  split; [done|]. split; [done|]. intros _ Hpass.
  unfold write_outcome. cbn [db set_ids_drawn]. rewrite Hpass, Hold.
  rewrite bool_decide_eq_true_2 by done. done.
Qed.

Lemma create_never_overwrites_witness :
  db (create articles "alice" 0%nat colliding_world).1 = two_articles
  /\ (create articles "alice" 0%nat colliding_world).2
     = inl (BackendError IntegrityError).
Proof.
  pose proof (create_never_overwrites articles "alice" 0%nat
                {[ "email" := JStr "e@f.org" ]} colliding_world
                (1, {[ "email" := JStr "a@b.org"; "n" := JNum 1 ]})
                eq_refl) as Hcreate.
  cbv zeta in Hcreate.
  destruct Hcreate as (Hdb & _ & Herror); [by vm_compute|].
  split; [exact Hdb|]. apply Herror; [reflexivity|by vm_compute].
Defined.

(** * Further properties of the schema migrator *)

(** What [_execute_sql_file] does with a script the database rejects. *)
Lemma execute_sql_file_fails sql_file path w e :
  pool_fault w = None ->
  sql_file path (db w) = inl e ->
  exists w', _execute_sql_file sql_file path w = (w', inl (BackendError e))
             /\ db w' = db w
             /\ executed_files (trace w')
                = (executed_files (trace w) ++ [path])%list.
Proof.
  intros Hpool Hrun. destruct w as [d h n tr pf cf].
  cbn in Hpool, Hrun. subst pf.
  unfold _execute_sql_file, connect, bind, execute, ret.
  cbn [pool_fault commit_fault log db working outer autocommit set_db
       trace heap ids_drawn].
  rewrite Hrun.
  destruct (connection_closed e); (eexists; split; [reflexivity|]);
    cbn; (split; [done|]);
    by rewrite ?executed_files_app, ?app_nil_r.
Qed.

(** The first steps of [initialize_schema] when no version, or the
    version 0, is read. *)
Lemma initialize_schema_creates sql_file w :
  pool_fault w = None -> commit_fault w = None ->
  read_version (db w) = inr None \/ read_version (db w) = inr (Some 0) ->
  exists w1,
    same_state w w1
    /\ initialize_schema sql_file w
       = if String.eqb (lower (db_encoding (db w))) "utf8"
         then _execute_sql_file sql_file "schema.sql" w1
         else (w1, inl (AssertionError
                          ("Unexpected database encoding "
                           +:+ lower (db_encoding (db w))))).
Proof.
  intros Hpool Hcommit Hversion.
  destruct (get_installed_version_run w Hpool Hcommit) as (w1 & Hread & Hsame).
  destruct (same_state_faults _ _ Hsame Hpool Hcommit) as [Hpool1 Hcommit1].
  destruct (check_database_encoding_run w1 Hpool1 Hcommit1)
    as (w2 & Henc & Hsame2).
  destruct (same_state_faults _ _ Hsame2 Hpool1 Hcommit1)
    as [Hpool2 Hcommit2].
  destruct (check_database_timezone_run w2 Hpool2 Hcommit2)
    as (w3 & Htz & Hsame3).
  assert (Hdb1 : db w1 = db w) by apply Hsame.
  assert (initialize_schema sql_file w
          = (do _ <- _check_database_encoding ;;
             do _ <- _check_database_timezone ;;
             _execute_sql_file sql_file "schema.sql") w1) as ->.
  { unfold initialize_schema. rewrite bind_run, Hread.
    by destruct Hversion as [-> | ->]. }
  rewrite bind_run, Henc, Hdb1.
  destruct (String.eqb (lower (db_encoding (db w))) "utf8").
  - exists w3. split.
    + destruct Hsame as (? & ? & ? & ?), Hsame2 as (? & ? & ? & ?),
        Hsame3 as (? & ? & ? & ?).
      repeat split; congruence.
    + cbv beta iota. by rewrite bind_run, Htz.
  - exists w2. split; [|done].
    destruct Hsame as (? & ? & ? & ?), Hsame2 as (? & ? & ? & ?).
    repeat split; congruence.
Qed.

(** On a database without schema whose encoding is not UTF-8 (whatever the
    case of the letters), [initialize_schema] fails its assertion: no
    script is executed and the database stays as it was. *)
Theorem initialize_schema_checks_encoding sql_file (w : world) :
  pool_fault w = None -> commit_fault w = None ->
  tbl_metadata (db w) = None ->
  lower (db_encoding (db w)) <> "utf8" ->
  let result := initialize_schema sql_file w in
  result.2 = inl (AssertionError
                    ("Unexpected database encoding "
                     +:+ lower (db_encoding (db w))))
  /\ db result.1 = db w
  /\ executed_files (trace result.1) = executed_files (trace w).
Proof.
  intros Hpool Hcommit Hmeta Hencoding. cbv zeta.
  destruct (initialize_schema_creates sql_file w Hpool Hcommit)
    as (w1 & Hsame & ->).
  { left. unfold read_version. by rewrite Hmeta. }
  apply String.eqb_neq in Hencoding. rewrite Hencoding.
  destruct Hsame as (? & _ & _ & ?). by repeat split.
Qed.

Lemma initialize_schema_checks_encoding_witness :
  (initialize_schema sample_scripts latin1_world).2
  = inl (AssertionError "Unexpected database encoding latin1")
  /\ db (initialize_schema sample_scripts latin1_world).1 = db latin1_world
  /\ executed_files (trace (initialize_schema sample_scripts latin1_world).1)
     = [].
Proof.
  apply (initialize_schema_checks_encoding sample_scripts latin1_world);
    [reflexivity|reflexivity|reflexivity|discriminate].
Defined.

(** A recorded version 0 counts as no schema: in a UTF-8 database
    [initialize_schema] executes [schema.sql], and no migration script. *)
Theorem initialize_schema_version_0 sql_file (w : world) d' rows :
  pool_fault w = None -> commit_fault w = None ->
  read_version (db w) = inr (Some 0) ->
  lower (db_encoding (db w)) = "utf8" ->
  sql_file "schema.sql" (db w) = inr (d', rows) ->
  let result := initialize_schema sql_file w in
  result.2 = inr tt
  /\ db result.1 = d'
  /\ executed_files (trace result.1)
     = (executed_files (trace w) ++ ["schema.sql"])%list.
Proof.
  intros Hpool Hcommit Hversion Hencoding Hrun. cbv zeta.
  destruct (initialize_schema_creates sql_file w Hpool Hcommit)
    as (w1 & Hsame & ->); [by right|].
  rewrite Hencoding. change (String.eqb "utf8" "utf8") with true. cbv iota.
  destruct (same_state_faults _ _ Hsame Hpool Hcommit) as [Hpool1 Hcommit1].
  destruct Hsame as (Hdb1 & _ & _ & Hfiles1).
  destruct (execute_sql_file_run sql_file "schema.sql" w1 d' rows
              Hpool1 Hcommit1) as (w2 & -> & Hdb2 & _ & _ & Hfiles2).
  { by rewrite Hdb1. }
  cbn [fst snd]. split; [done|]. split; [done|]. by rewrite Hfiles2, Hfiles1.
Qed.

Lemma initialize_schema_version_0_witness :
  (initialize_schema sample_scripts world_at_version_0).2 = inr tt
  /\ db (initialize_schema sample_scripts world_at_version_0).1
     = mkDatabase ∅ ∅ (Some [("storage_schema_version", "6")]) "utf8" "UTC"
  /\ executed_files
       (trace (initialize_schema sample_scripts world_at_version_0).1)
     = ["schema.sql"].
Proof.
  apply (initialize_schema_version_0 sample_scripts world_at_version_0 _ []);
    reflexivity.
Defined.

(** The loop when the database rejects the script of the step from
    [v + n]: the steps before it stay done, the loop ends there. *)
Lemma migrate_loop_script_fails sql_file e (m n : nat) : forall (v : Z) (w : world),
  pool_fault w = None -> commit_fault w = None ->
  read_version (db w) = inr (Some v) ->
  (forall u d, v <= u < v + Z.of_nat n ->
     read_version d = inr (Some u) ->
     exists d' rows, sql_file (migration_path u) d = inr (d', rows)
                     /\ read_version d' = inr (Some (u + 1))) ->
  (forall d, read_version d = inr (Some (v + Z.of_nat n)) ->
     sql_file (migration_path (v + Z.of_nat n)) d = inl e) ->
  exists w',
    migrate_loop sql_file
      (map (fun v => (v, v + 1)) (seqZ v (Z.of_nat (n + S m)))) w
    = (w', inl (BackendError e))
    /\ executed_files (trace w')
       = (executed_files (trace w)
          ++ map migration_path (seqZ v (Z.of_nat (S n))))%list
    /\ read_version (db w') = inr (Some (v + Z.of_nat n)).
Proof.
  induction n as [|n IH]; intros v w Hpool Hcommit Hversion Hscripts Hbad.
  - change (0 + S m)%nat with (S m).
    rewrite seqZ_step. cbn [map]. cbn [migrate_loop fst snd].
    destruct (get_installed_version_run w Hpool Hcommit)
      as (w1 & Hread & Hsame).
    destruct (same_state_faults _ _ Hsame Hpool Hcommit) as [Hpool1 Hcommit1].
    destruct Hsame as (Hdb1 & _ & _ & Hfiles1).
    rewrite bind_run, Hread, Hversion. cbv beta iota.
    rewrite bool_decide_eq_true_2 by done.
    change (Z.of_nat 0) with 0 in *. rewrite Z.add_0_r in *.
    destruct (execute_sql_file_fails sql_file (migration_path v) w1 e Hpool1)
      as (w2 & Hexec & Hdb2 & Hfiles2).
    { apply Hbad. by rewrite Hdb1. }
    rewrite bind_run. fold (migration_path v). rewrite Hexec. cbv beta iota.
    exists w2. split; [done|]. split.
    + by rewrite Hfiles2, Hfiles1.
    + by rewrite Hdb2, Hdb1.
  - change (S n + S m)%nat with (S (n + S m)).
    rewrite seqZ_step. cbn [map]. cbn [migrate_loop fst snd].
    destruct (get_installed_version_run w Hpool Hcommit)
      as (w1 & Hread & Hsame).
    destruct (same_state_faults _ _ Hsame Hpool Hcommit) as [Hpool1 Hcommit1].
    destruct Hsame as (Hdb1 & _ & _ & Hfiles1).
    rewrite bind_run, Hread, Hversion. cbv beta iota.
    rewrite bool_decide_eq_true_2 by done.
    destruct (Hscripts v (db w1)) as (d' & rows & Hrun & Hversion');
      [lia | by rewrite Hdb1 |].
    destruct (execute_sql_file_run sql_file (migration_path v) w1 d' rows
                Hpool1 Hcommit1 Hrun)
      as (w2 & Hexec & Hdb2 & Hpool2 & Hcommit2 & Hfiles2).
    rewrite bind_run. fold (migration_path v). rewrite Hexec. cbv beta iota.
    replace (v + Z.of_nat (S n)) with (v + 1 + Z.of_nat n) in * by lia.
    destruct (IH (v + 1) w2 Hpool2 Hcommit2) as (w3 & Hloop & Hfiles3 & Hv3);
      [by rewrite Hdb2 | | done |].
    + intros u d Hu. apply Hscripts. lia.
    + exists w3. rewrite Hloop. split; [done|]. split; [|done].
      rewrite Hfiles3, Hfiles2, Hfiles1.
      rewrite (seqZ_step v (S n)). cbn [map]. by rewrite <- app_assoc.
Qed.

(** A migration is not undone as a whole: when the database rejects the
    script of a step [k] with an error of the driver, [initialize_schema]
    raises [BackendError] with that error, the scripts of the later steps
    are not executed, and the steps before [k] stay committed, so that the
    version [k] is installed. *)
Theorem initialize_schema_script_fails sql_file (w : world) (v k : Z)
    (e : psycopg_error) :
  pool_fault w = None -> commit_fault w = None ->
  v <> 0 -> v <= k < schema_version ->
  read_version (db w) = inr (Some v) ->
  (forall u d, v <= u < k ->
     read_version d = inr (Some u) ->
     exists d' rows, sql_file (migration_path u) d = inr (d', rows)
                     /\ read_version d' = inr (Some (u + 1))) ->
  (forall d, read_version d = inr (Some k) ->
     sql_file (migration_path k) d = inl e) ->
  let result := initialize_schema sql_file w in
  result.2 = inl (BackendError e)
  /\ executed_files (trace result.1)
     = (executed_files (trace w)
        ++ map migration_path (seqZ v (k - v + 1)))%list
  /\ read_version (db result.1) = inr (Some k).
Proof.
  intros Hpool Hcommit Hv Hk Hversion Hscripts Hbad. cbv zeta.
  destruct (initialize_schema_steps sql_file w v Hpool Hcommit Hv Hversion)
    as (w1 & Hsame & ->).
  destruct (same_state_faults _ _ Hsame Hpool Hcommit) as [Hpool1 Hcommit1].
  destruct Hsame as (Hdb1 & _ & _ & Hfiles1).
  replace (schema_version - v)
    with (Z.of_nat (Z.to_nat (k - v) + S (Z.to_nat (schema_version - k - 1))))
    by lia.
  replace (k - v + 1) with (Z.of_nat (S (Z.to_nat (k - v)))) by lia.
  assert (Hkv : v + Z.of_nat (Z.to_nat (k - v)) = k) by lia.
  destruct (migrate_loop_script_fails sql_file e
              (Z.to_nat (schema_version - k - 1)) (Z.to_nat (k - v)) v w1
              Hpool1 Hcommit1) as (w2 & Hloop & Hfiles2 & Hv2).
  - by rewrite Hdb1.
  - intros u d Hu. apply Hscripts. lia.
  - by rewrite Hkv.
  - rewrite Hloop. cbn [fst snd]. split; [done|]. split.
    + by rewrite Hfiles2, Hfiles1.
    + by rewrite Hv2, Hkv.
Qed.

Lemma initialize_schema_script_fails_witness :
  (initialize_schema scripts_failing_at_5 world_at_version_4).2
  = inl (BackendError ProgrammingError)
  /\ executed_files
       (trace (initialize_schema scripts_failing_at_5 world_at_version_4).1)
     = ["migrations/migration_004_005.sql"; "migrations/migration_005_006.sql"]
  /\ read_version (db (initialize_schema scripts_failing_at_5 world_at_version_4).1)
     = inr (Some 5).
Proof.
  apply (initialize_schema_script_fails scripts_failing_at_5 world_at_version_4
           4 5 ProgrammingError);
    [reflexivity|reflexivity|lia|unfold schema_version; lia|reflexivity| |].
  - intros u d Hu Hversion. assert (u = 4) as -> by lia.
    destruct (sample_scripts_migrate 4 d) as (d' & rows & Hrun & Hv');
      [unfold schema_version; lia|done|].
    by exists d', rows.
  - intros d _. reflexivity.
Defined.

(** The version [_get_installed_version] answers when no version is
    recorded: none without a metadata table, the target version when the
    metadata table is empty, and 1 when it has rows but none that records
    a version.  The database is left as it was. *)
Theorem installed_version_guess (w : world) :
  pool_fault w = None -> commit_fault w = None ->
  let result := _get_installed_version w in
  db result.1 = db w
  /\ (tbl_metadata (db w) = None -> result.2 = inr None)
  /\ (tbl_metadata (db w) = Some [] -> result.2 = inr (Some schema_version))
  /\ (forall rows,
        tbl_metadata (db w) = Some rows -> rows <> [] ->
        Forall (fun nv => nv.1 <> "storage_schema_version") rows ->
        result.2 = inr (Some 1)).
Proof.
  intros Hpool Hcommit. cbv zeta.
  destruct (get_installed_version_run w Hpool Hcommit) as (w1 & -> & Hsame).
  cbn [fst snd]. split; [apply Hsame|]. unfold read_version.
  split; [by intros ->|]. split; [by intros ->|].
  intros rows -> Hrows Hnone.
  assert (filter (fun nv : string * string => nv.1 = "storage_schema_version")
            rows = []) as ->.
  { clear Hrows. induction Hnone as [|nv rows Hnv Hnone IH]; [done|].
    by rewrite filter_cons_False. }
  cbn. by destruct rows.
Qed.

Lemma installed_version_guess_witness :
  (_get_installed_version legacy_world).2 = inr (Some 1)
  /\ db (_get_installed_version legacy_world).1 = db legacy_world.
Proof.
  pose proof (installed_version_guess legacy_world eq_refl eq_refl) as Hguess.
  cbv zeta in Hguess. destruct Hguess as (Hdb & _ & _ & Hlegacy).
  split; [|exact Hdb].
  apply (Hlegacy [("created_at", "2015")]); [reflexivity|discriminate|].
  apply Forall_cons. split; [discriminate|apply Forall_nil_2].
Defined.

(** * Flushing *)

Lemma flush_run w :
  pool_fault w = None ->
  flush w
  = let w0 := log (EvGetConn false) w in
    match tbl_metadata (db w) with
    | None => scope_error UndefinedTable w0
    | Some _ =>
        match commit_fault w with
        | Some e => scope_error e w0
        | None =>
            (log EvPutConn
               (log EvCommit
                  (set_db (mkDatabase ∅ ∅ (Some []) (db_encoding (db w))
                             (db_timezone (db w))) w0)),
             inr tt)
        end
    end.
Proof.
  intros Hpool. unfold flush. rewrite connect_run by done.
  unfold bind, execute, ret, delete_everything.
  cbn [working outer autocommit log db].
  destruct (tbl_metadata (db w)); [|done].
  cbn. by destruct (commit_fault w).
Qed.

(** * The pages of [get_all] *)

(** [get_all] is one read-only scope around one statement, whose bound
    parameters give the collection and the filters as they were passed. *)
Lemma get_all_unfold self res user_id filters sorting pagination_rules limit
    include_deleted :
  exists ph cl,
    binds_parameters res user_id filters ph
    /\ conditions_filter cl = conditions_ast res filters "filters"
    /\ max_fetch_size_limit cl = _max_fetch_size self
    /\ deleted_limit_0 cl = negb include_deleted
    /\ pagination_limit cl
       = match limit with
         | Some n => if n =? 0 then None else Some n
         | None => None
         end
    /\ get_all self res user_id filters sorting pagination_rules limit
         include_deleted
       = (do results <- connect true
            (do rows <-
               execute (select_all ph {[ deleted_field res := JBool true ]} cl) ;;
             ret (take (_max_fetch_size self) rows)) ;;
          match results with
          | [] => ret ([], 0)
          | first :: _ =>
              ret (map (listed_record res) results, first.1)
          end).
Proof.
  unfold get_all.
  set (base := ({[ "user_id" := JStr user_id;
                   "resource_name" := JStr (name res) ]} : pydict)).
  assert (exists conditions ph,
            (match filters with
             | [] => ([], base)
             | _ =>
                 let '(safe_sql, holders) :=
                   _format_conditions res filters "filters" in
                 (conditions_ast res filters "filters",
                  dict_update base holders)
             end) = (conditions, ph)
            /\ conditions = conditions_ast res filters "filters"
            /\ binds_parameters res user_id filters ph)
    as (conditions & ph & -> & -> & Hph).
  { destruct filters as [|f fs].
    - do 2 eexists. split; [reflexivity|]. split; [reflexivity|].
      apply binds_parameters_none.
    - pose proof (binds_parameters_rendered res user_id (f :: fs)) as Hb.
      destruct (_format_conditions res (f :: fs) "filters")
        as [safe_sql holders].
      do 2 eexists. split; [reflexivity|]. split; [reflexivity|]. exact Hb. }
  assert (exists clause ph',
            (match sorting with
             | [] => (None, ph)
             | _ =>
                 let '(sql, holders) := _format_sorting res sorting in
                 (Some (sorting_ast res sorting), dict_update ph holders)
             end) = (clause, ph')
            /\ binds_parameters res user_id filters ph')
    as (sorting_clause & ph' & -> & Hph').
  { destruct sorting as [|s ss].
    - by do 2 eexists.
    - pose proof (format_sorting_other res (s :: ss)) as Hother.
      destruct (_format_sorting res (s :: ss)) as [sql holders].
      do 2 eexists. split; [reflexivity|].
      by apply binds_parameters_update. }
  assert (exists clause ph'',
            (match pagination_rules with
             | [] => (None, ph')
             | _ =>
                 let '(sql, holders) :=
                   _format_pagination res pagination_rules in
                 (Some (pagination_ast res pagination_rules),
                  dict_update ph' holders)
             end) = (clause, ph'')
            /\ binds_parameters res user_id filters ph'')
    as (pagination & ph'' & -> & Hph'').
  { destruct pagination_rules as [|rule rules].
    - by do 2 eexists.
    - pose proof (format_pagination_other res (rule :: rules)) as Hother.
      destruct (_format_pagination res (rule :: rules)) as [sql holders].
      do 2 eexists. split; [reflexivity|].
      by apply binds_parameters_update. }
  eexists ph'', (mkClauses _ _ _ _ _ _).
  split; [exact Hph''|].
  do 4 (split; [reflexivity|]). reflexivity.
Qed.

Lemma elem_of_insert_sorted {A} (cmp : A -> A -> comparison) (x y : A) l :
  y ∈ insert_sorted cmp x l -> y = x \/ y ∈ l.
Proof.
  induction l as [|z l IH]; cbn.
  - intros ->%list_elem_of_singleton. by left.
  - destruct (cmp z x).
    + intros [->|H]%elem_of_cons; [by left|by right].
    + intros [->|H]%elem_of_cons; [right; by left|].
      destruct (IH H) as [->|?]; [by left|right; by right].
    + intros [->|H]%elem_of_cons; [by left|by right].
Qed.

Lemma elem_of_order_by {A} (cmp : A -> A -> comparison) (y : A) l :
  y ∈ order_by cmp l -> y ∈ l.
Proof.
  unfold order_by. induction l as [|x l IH]; cbn; [done|].
  intros [->|H]%elem_of_insert_sorted; [by left|right; by apply IH].
Qed.

(** The rows of the statement of [get_all]: rows of live records of the
    collection that match the filters, and rows of tombstones of the
    collection unless [LIMIT 0] is set on them. *)
Lemma select_all_rows res user_id filters ph fake_deleted cl d d' rows :
  binds_parameters res user_id filters ph ->
  conditions_filter cl = conditions_ast res filters "filters" ->
  select_all ph fake_deleted cl d = inr (d', rows) ->
  d' = d
  /\ (forall n, pagination_limit cl = Some n ->
        (length rows <= Z.to_nat n)%nat)
  /\ (forall result, result ∈ rows ->
        (exists kv, kv ∈ matching_records res user_id filters d
                    /\ result.2 = record_row kv)
        \/ (deleted_limit_0 cl = false
            /\ exists k ts,
                 tbl_deleted d !! k = Some ts
                 /\ in_collection user_id (name res) k = true
                 /\ result.2 = mkRow (key_id k) ts fake_deleted)).
Proof.
  intros Hph Hcond.
  pose proof (binds_parameters_filters res user_id filters ph Hph) as Hbinds.
  pose proof Hbinds as (Huser & Hname & _).
  unfold select_all. rewrite Huser, Hname.
  destruct (negb (check_clauses ph cl)); [done|]. intros [= <- <-].
  rewrite Hcond.
  rewrite (filtered_records_matching res user_id filters) by done.
  split; [done|]. split.
  - intros n ->. rewrite length_map, length_take. lia.
  - intros result (a & -> & Ha)%list_elem_of_fmap. cbn [snd].
    set (all_records :=
           ((if deleted_limit_0 cl then take 0 else id) _ ++ _)%list) in Ha.
    set (joined := _ ≫= _) in Ha.
    assert (a ∈ joined) as Ha'.
    { assert (a ∈ match sorting_order cl with
                  | Some ss => order_by (compare_rows ph ss) joined
                  | None => joined
                  end) as Hs.
      { destruct (pagination_limit cl); [|exact Ha].
        by apply (subseteq_take (Z.to_nat z)). }
      destruct (sorting_order cl); [by apply elem_of_order_by in Hs|done]. }
    clear Ha. subst joined.
    apply list_elem_of_bind in Ha' as (p & Ha & _).
    apply list_elem_of_filter in Ha as [_ Ha].
    subst all_records. apply elem_of_app in Ha as [Ha|Ha].
    + right. destruct (deleted_limit_0 cl).
      { change (take 0 ?l) with (@nil row) in Ha. by apply elem_of_nil in Ha. }
      split; [done|]. cbn [id] in Ha.
      apply list_elem_of_filter in Ha as [_ Ha].
      apply list_elem_of_fmap in Ha as ([k ts] & -> & Hk).
      apply list_elem_of_filter in Hk as [Hcoll Hk].
      apply elem_of_map_to_list in Hk. by exists k, ts.
    + left. apply (subseteq_take (max_fetch_size_limit cl)) in Ha.
      apply list_elem_of_fmap in Ha as (kv & -> & Hkv). by exists kv.
Qed.

(** A read-only scope around one statement. *)
Lemma read_scope_run {R B} (q : statement R) (f : list R -> B) w :
  pool_fault w = None ->
  connect true (do rows <- execute q ;; ret (f rows)) w
  = match q (db w) with
    | inl e => scope_error e (log (EvGetConn true) w)
    | inr (d, rows) =>
        (log EvPutConn (set_db d (log (EvGetConn true) w)), inr (f rows))
    end.
Proof.
  intros Hpool. unfold connect. rewrite Hpool.
  unfold bind, execute, ret. cbn [working outer autocommit log db].
  destruct (q (db w)) as [e|[d rows]]; [|done].
  unfold scope_error. by destruct (connection_closed e).
Qed.

(** The page of [get_all] and the rows it comes from. *)
Lemma get_all_page_rows (self : PostgreSQL) (res : resource)
    (user_id : string) (filters : list Filter) (sorting : list Sort)
    (pagination_rules : list (list Filter)) (limit : option Z)
    (include_deleted : bool) (w : world) (page : list pydict) (count : Z) :
  (get_all self res user_id filters sorting pagination_rules limit
     include_deleted w).2 = inr (page, count) ->
  (page = [] -> count = 0)
  /\ (length page <= _max_fetch_size self)%nat
  /\ (forall n, limit = Some n -> n <> 0 -> (length page <= Z.to_nat n)%nat)
  /\ (forall record, record ∈ page ->
        (exists k v,
           tbl_records (db w) !! k = Some v
           /\ in_collection user_id (name res) k = true
           /\ matches res filters (record_row (k, v)) = true
           /\ record
              = <[modified_field res := JNum v.1]>
                  (<[id_field res := JStr (key_id k)]> v.2))
        \/ (include_deleted = true
            /\ exists k ts,
                 tbl_deleted (db w) !! k = Some ts
                 /\ in_collection user_id (name res) k = true
                 /\ record
                    = <[modified_field res := JNum ts]>
                        (<[id_field res := JStr (key_id k)]>
                           {[ deleted_field res := JBool true ]}))).
Proof.
  destruct (get_all_unfold self res user_id filters sorting pagination_rules
              limit include_deleted)
    as (ph & cl & Hph & Hcond & Hmax & Hdeleted & Hlimit & ->).
  unfold bind at 1. destruct (pool_fault w) as [e|] eqn:Hpool.
  { unfold connect. by rewrite Hpool. }
  rewrite read_scope_run by done.
  destruct (select_all ph {[deleted_field res := JBool true]} cl (db w))
    as [e|[d' rows]] eqn:Hrows.
  { unfold scope_error. by destruct (connection_closed e). }
  destruct (select_all_rows res user_id filters ph _ cl (db w) d' rows
              Hph Hcond Hrows) as (-> & Hlen & Hin).
  intros Hout.
  assert (page = map (listed_record res) (take (_max_fetch_size self) rows)
          /\ (page = [] -> count = 0))
    as [-> Hempty].
  { destruct (take (_max_fetch_size self) rows); cbn in Hout;
      injection Hout as <- <-; by split. }
  split; [exact Hempty|].
  rewrite length_map, length_take.
  split; [lia|]. split.
  - intros n -> Hn. rewrite Hlimit in Hlen.
    apply Z.eqb_neq in Hn. rewrite Hn in Hlen.
    specialize (Hlen n eq_refl). lia.
  - intros record (result & -> & Hresult)%list_elem_of_fmap.
    apply (subseteq_take (_max_fetch_size self)) in Hresult.
    unfold listed_record.
    destruct (Hin result Hresult)
      as [([k v] & Hkv & ->)|(Hdl & k & ts & Hk & Hcoll & ->)].
    + left. apply list_elem_of_filter in Hkv as [[Hcoll Hmatch] Hkv].
      apply elem_of_map_to_list in Hkv. by exists k, v.
    + right. rewrite Hdeleted in Hdl. apply negb_false_iff in Hdl.
      split; [done|]. by exists k, ts.
Qed.

(** What [get_all] lists: at most [max_fetch_size] records, and at most
    [limit] of them when a limit other than 0 is given; each one is a live
    record of the tenant's collection that matches the filters, with its
    identity and timestamp set, or, when tombstones are asked for, the
    tombstone of a record of that collection. *)
Theorem get_all_lists_collection (self : PostgreSQL) (res : resource)
    (user_id : string) (filters : list Filter) (sorting : list Sort)
    (pagination_rules : list (list Filter)) (limit : option Z)
    (include_deleted : bool) (w : world) (page : list pydict) (count : Z) :
  (get_all self res user_id filters sorting pagination_rules limit
     include_deleted w).2 = inr (page, count) ->
  (length page <= _max_fetch_size self)%nat
  /\ (forall n, limit = Some n -> n <> 0 -> (length page <= Z.to_nat n)%nat)
  /\ (forall record, record ∈ page ->
        (exists k v,
           tbl_records (db w) !! k = Some v
           /\ in_collection user_id (name res) k = true
           /\ matches res filters (record_row (k, v)) = true
           /\ record
              = <[modified_field res := JNum v.1]>
                  (<[id_field res := JStr (key_id k)]> v.2))
        \/ (include_deleted = true
            /\ exists k ts,
                 tbl_deleted (db w) !! k = Some ts
                 /\ in_collection user_id (name res) k = true
                 /\ record
                    = <[modified_field res := JNum ts]>
                        (<[id_field res := JStr (key_id k)]>
                           {[ deleted_field res := JBool true ]}))).
Proof.
  intros Hout.
  by destruct (get_all_page_rows self res user_id filters sorting
                 pagination_rules limit include_deleted w page count Hout)
    as (_ & ? & ? & ?).
Qed.

Lemma get_all_lists_collection_witness :
  exists k v,
    tbl_records (db sample_world) !! k = Some v
    /\ in_collection "alice" "article" k = true
    /\ (<[ "last_modified" := JNum 1 ]>
          (<[ "id" := JStr "uuid0" ]>
             ({[ "email" := JStr "a@b.org"; "n" := JNum 1 ]} : pydict)))
       = <[ "last_modified" := JNum v.1 ]> (<[ "id" := JStr (key_id k) ]> v.2).
Proof.
  destruct (get_all_lists_collection (mkPostgreSQL 10) articles "alice" [] []
              [[mkFilter "last_modified" (JNum 2) "<"]] None false sample_world
              [ <[ "last_modified" := JNum 1 ]>
                  (<[ "id" := JStr "uuid0" ]>
                     ({[ "email" := JStr "a@b.org"; "n" := JNum 1 ]} : pydict)) ]
              2) as (_ & _ & Hin); [by vm_compute|].
  destruct (Hin _ (list_elem_of_here _ _))
    as [(k & v & Hk & Hcoll & _ & Hrecord)|[Hfalse _]]; [|discriminate Hfalse].
  by exists k, v.
Defined.

(** * Reading *)

Lemma commits_log ev w :
  commits (trace (log ev w))
  = (commits (trace w) + if is_commit ev then 1 else 0)%nat.
Proof.
  unfold commits, log. cbn [trace]. rewrite List.filter_app, length_app.
  cbn. by destruct (is_commit ev).
Qed.

(** The reading operations, [get], [get_all] and [collection_timestamp],
    leave the database as it was and never call [commit], whatever they
    return or raise. *)
Theorem reads_never_write (self : PostgreSQL) (res : resource)
    (user_id record_id : string) (filters : list Filter) (sorting : list Sort)
    (pagination_rules : list (list Filter)) (limit : option Z)
    (include_deleted : bool) (w : world) :
  let got := get res user_id record_id w in
  let listed := get_all self res user_id filters sorting pagination_rules
                  limit include_deleted w in
  let stamp := collection_timestamp res user_id w in
  (db got.1 = db w /\ commits (trace got.1) = commits (trace w))
  /\ (db listed.1 = db w /\ commits (trace listed.1) = commits (trace w))
  /\ (db stamp.1 = db w /\ commits (trace stamp.1) = commits (trace w)).
Proof.
  cbv zeta. split; [|split].
  - rewrite get_run. destruct (pool_fault w); [done|]. cbv zeta.
    destruct (tbl_records (db w) !! _); cbn [fst]; rewrite !commits_log;
      cbn; (split; [done|lia]).
  - destruct (get_all_unfold self res user_id filters sorting pagination_rules
                limit include_deleted)
      as (ph & cl & Hph & Hcond & _ & _ & _ & ->).
    unfold bind at 1 3. destruct (pool_fault w) as [e|] eqn:Hpool.
    { unfold connect. rewrite Hpool. by cbn. }
    rewrite read_scope_run by done.
    destruct (select_all ph {[deleted_field res := JBool true]} cl (db w))
      as [e|[d' rows]] eqn:Hrows.
    { unfold scope_error. destruct (connection_closed e); cbn [fst];
        rewrite ?commits_log; cbn; (split; [done|lia]). }
    destruct (select_all_rows res user_id filters ph _ cl (db w) d' rows
                Hph Hcond Hrows) as (-> & _ & _).
    destruct (take (_max_fetch_size self) rows);
      unfold commits; cbn [fst ret trace log set_db db];
      rewrite !List.filter_app, !length_app; cbn; (split; [done|lia]).
  - unfold collection_timestamp, bind, connect.
    destruct (pool_fault w); [done|].
    unfold execute, fetchone, ret, select_resource_timestamp.
    cbn [working outer autocommit log db fst snd set_db].
    split; [done|]. unfold commits. cbn [trace log set_db].
    rewrite !List.filter_app, !length_app. cbn. lia.
Qed.

(** * Flushing, and what follows it *)

(** [flush] on a database that has its schema empties the three tables:
    afterwards every [get] raises [RecordNotFoundError], every [get_all]
    that returns gives the empty page with the count 0, and the installed
    version is read as the target version. *)
Theorem flush_empties (w : world) :
  pool_fault w = None -> commit_fault w = None ->
  is_Some (tbl_metadata (db w)) ->
  let flushed_world := (flush w).1 in
  (flush w).2 = inr tt
  /\ flushed (db flushed_world)
  /\ (forall res user_id record_id,
        (get res user_id record_id flushed_world).2
        = inl (RecordNotFoundError record_id))
  /\ (forall self res user_id filters sorting pagination_rules limit
             include_deleted page count,
        (get_all self res user_id filters sorting pagination_rules limit
           include_deleted flushed_world).2 = inr (page, count) ->
        page = [] /\ count = 0)
  /\ (_get_installed_version flushed_world).2 = inr (Some schema_version).
Proof.
  intros Hpool Hcommit [rows Hmeta]. cbv zeta.
  rewrite flush_run by done. cbv zeta. rewrite Hmeta, Hcommit.
  cbn [fst snd]. split; [done|]. split; [done|]. split; [|split].
  - intros res user_id record_id. rewrite get_run. cbn [pool_fault log set_db].
    rewrite Hpool. cbv zeta. cbn [db log set_db tbl_records].
    by rewrite lookup_empty.
  - intros self res user_id filters sorting pagination_rules limit
      include_deleted page count Hout.
    destruct (get_all_page_rows _ _ _ _ _ _ _ _ _ _ _ Hout)
      as (Hempty & _ & _ & Hin).
    assert (page = []) as ->; [|split; [done|by apply Hempty]].
    destruct page as [|record page]; [done|].
    destruct (Hin record) as [(k & v & Hk & _)|(_ & k & ts & Hk & _)];
      [by left| |]; cbn in Hk; by rewrite lookup_empty in Hk.
  - set (w' := log EvPutConn _).
    destruct (get_installed_version_run w') as (w1 & -> & _); [done|done|].
    reflexivity.
Qed.

Lemma flush_empties_witness :
  (flush sample_world).2 = inr tt
  /\ (get articles "alice" "uuid0" (flush sample_world).1).2
     = inl (RecordNotFoundError "uuid0").
Proof.
  pose proof (flush_empties sample_world eq_refl eq_refl
                (ex_intro _ _ eq_refl)) as Hflush.
  cbv zeta in Hflush. destruct Hflush as (Hout & _ & Hget & _).
  split; [exact Hout|apply Hget].
Defined.

(** [flush] on a database without schema: the statement is rejected, the
    error is raised as [BackendError] and the database stays as it was. *)
Theorem flush_without_schema (w : world) :
  pool_fault w = None ->
  tbl_metadata (db w) = None ->
  (flush w).2 = inl (BackendError UndefinedTable) /\ db (flush w).1 = db w.
Proof.
  intros Hpool Hmeta. rewrite flush_run by done. cbv zeta. by rewrite Hmeta.
Qed.

Lemma flush_without_schema_witness :
  (flush world_without_schema).2 = inl (BackendError UndefinedTable)
  /\ db (flush world_without_schema).1 = db world_without_schema.
Proof. apply flush_without_schema; reflexivity. Defined.

(** After [flush], [initialize_schema] finds the schema up to date: it
    executes no script and leaves the tables empty, the metadata table
    included, so that no version is recorded. *)
Theorem flush_then_initialize_schema sql_file (w : world) :
  pool_fault w = None -> commit_fault w = None ->
  is_Some (tbl_metadata (db w)) ->
  let result := initialize_schema sql_file (flush w).1 in
  result.2 = inr tt
  /\ flushed (db result.1)
  /\ executed_files (trace result.1) = executed_files (trace w).
Proof.
  intros Hpool Hcommit [rows Hmeta]. cbv zeta.
  rewrite flush_run by done. cbv zeta. rewrite Hmeta, Hcommit. cbn [fst].
  set (w' := log EvPutConn _).
  assert (executed_files (trace w') = executed_files (trace w)) as Hfiles.
  { subst w'. cbn. by rewrite !executed_files_app, !app_nil_r. }
  destruct (initialize_schema_steps sql_file w' schema_version)
    as (w1 & (Hdb & _ & _ & Hfiles1) & ->); [done|done|done|done|].
  rewrite Z.sub_diag. cbn [fst snd migrate_loop seqZ].
  change (seqZ schema_version 0) with (@nil Z). cbn.
  rewrite Hdb, Hfiles1, Hfiles. by repeat split.
Qed.

Lemma flush_then_initialize_schema_witness :
  (initialize_schema sample_scripts (flush sample_world).1).2 = inr tt
  /\ executed_files
       (trace (initialize_schema sample_scripts (flush sample_world).1).1)
     = [].
Proof.
  pose proof (flush_then_initialize_schema sample_scripts sample_world
                eq_refl eq_refl (ex_intro _ _ eq_refl)) as Hinit.
  cbv zeta in Hinit. destruct Hinit as (Hout & _ & Hfiles).
  split; [exact Hout|exact Hfiles].
Defined.
